(** * The PDF reader of [pyte.backend.pdf.reader]

    A shallow embedding of [PDFReader] (lexer, object parser,
    cross-reference tables, trailer chain, object cache) and of
    [PNGReconstructor] / [paeth_predictor], followed by the properties of
    the reader that the specification states.

    Conventions of the embedding:
    - a Python [bytes] value is a [list byte];
    - the binary file object is a record of its content and its cursor;
    - every [while True] loop takes a fuel argument and yields [OutOfFuel]
      when the fuel is used up, so that non-termination of the Python loop
      is the statement "for every fuel the result is [OutOfFuel]";
    - a raised Python exception is [Raise e]; the state of the reader at
      the exception is kept only where the reader itself catches the
      exception (the table and the file in [parse_xref_table], the file
      in [next_item]);
    - [print] and the clock are left out. *)

From Stdlib Require Import ZArith NArith List Bool Lia.
From Stdlib Require Import Strings.Byte Strings.String.
From stdpp Require Import base option gmap.

Import ListNotations.
Local Open Scope string_scope.
Local Open Scope list_scope.
Local Open Scope Z_scope.
Set Warnings "-register-all".


(** ** Python values and builtins *)

Abbreviation bytes := (list byte).

(** A [bytes] literal written as a Rocq string. *)
Definition b (s : string) : bytes := list_byte_of_string s.

Definition LF : byte := x0a.
Definition CR : byte := x0d.
Definition BACKSLASH : byte := x5c.

Definition ord (c : byte) : Z := Z.of_N (Byte.to_N c).

(** [x == y] on bytes objects. *)
Fixpoint bytes_eq (x y : bytes) : bool :=
  match x, y with
  | [], [] => true
  | c :: x', d :: y' => Byte.eqb c d && bytes_eq x' y'
  | _, _ => false
  end.

Fixpoint startswith (s prefix : bytes) : bool :=
  match prefix, s with
  | [], _ => true
  | c :: p', d :: s' => Byte.eqb c d && startswith s' p'
  | _ :: _, [] => false
  end.

(** [x in s] for two bytes objects: [x] occurs in [s] as a contiguous
    run.  In particular the empty bytes object is [in] every bytes
    object. *)
Fixpoint bytes_in (x s : bytes) : bool :=
  startswith s x ||
  match s with
  | [] => false
  | _ :: s' => bytes_in x s'
  end.

(** [x in (a, b, ...)] for a tuple of bytes objects. *)
Definition tuple_in (x : bytes) (t : list bytes) : bool :=
  existsb (bytes_eq x) t.

Definition is_ascii_digit (c : byte) : bool :=
  (48 <=? ord c) && (ord c <=? 57).

(** [bytes.isdigit]: non-empty and all ASCII decimal digits. *)
Definition isdigit (s : bytes) : bool :=
  match s with
  | [] => false
  | _ => forallb is_ascii_digit s
  end.

(** The whitespace that [int()] strips: space, HT, LF, VT, FF, CR. *)
Definition py_isspace (c : byte) : bool :=
  (ord c =? 32) || ((9 <=? ord c) && (ord c <=? 13)).

Fixpoint lstrip (s : bytes) : bytes :=
  match s with
  | c :: s' => if py_isspace c then lstrip s' else s
  | [] => []
  end.

Definition strip (s : bytes) : bytes := rev (lstrip (rev (lstrip s))).

(** Value of a digit character in bases up to 16. *)
Definition digit_value (c : byte) : option Z :=
  let n := ord c in
  if (48 <=? n) && (n <=? 57) then Some (n - 48)
  else if (97 <=? n) && (n <=? 102) then Some (n - 87)
  else if (65 <=? n) && (n <=? 70) then Some (n - 55)
  else None.

(** The digits of an integer literal: digits of the base, single
    underscores allowed between digits.  [prev_digit] tells whether the
    previous character was a digit. *)
Fixpoint int_digits (base : Z) (prev_digit : bool) (acc : Z) (s : bytes)
  : option Z :=
  match s with
  | [] => if prev_digit then Some acc else None
  | c :: s' =>
      if Byte.eqb c x5f then
        if prev_digit then int_digits base false acc s' else None
      else
        match digit_value c with
        | Some d =>
            if d <? base then int_digits base true (acc * base + d) s'
            else None
        | None => None
        end
  end.

(** The prefix that [int(s, base)] accepts for bases 8 and 16
    ([0o], [0x]); an underscore may follow it. *)
Definition int_prefix (base : Z) (s : bytes) : bytes :=
  let skip (s' : bytes) : bytes :=
    match s' with
    | c :: s'' => if Byte.eqb c x5f then s'' else s'
    | [] => []
    end in
  match s with
  | c0 :: c1 :: s' =>
      if Byte.eqb c0 x30 &&
         (((base =? 16) && (Byte.eqb c1 x78 || Byte.eqb c1 x58)) ||
          ((base =? 8) && (Byte.eqb c1 x6f || Byte.eqb c1 x4f)))
      then skip s' else s
  | _ => s
  end.

(** [int(s, base)] on a bytes object or on a str of ASCII characters;
    [None] stands for [ValueError]. *)
Definition py_int (base : Z) (s : bytes) : option Z :=
  match strip s with
  | [] => None
  | c :: s' =>
      if Byte.eqb c x2d then
        option_map Z.opp (int_digits base false 0 (int_prefix base s'))
      else if Byte.eqb c x2b then
        int_digits base false 0 (int_prefix base s')
      else int_digits base false 0 (int_prefix base (c :: s'))
  end.

(** The byte of value [z], if there is one. *)
Definition byte_of_Z (z : Z) : option byte :=
  if z <? 0 then None else Byte.of_N (Z.to_N z).

(** ** Exceptions and results *)

Inductive exn : Set :=
| ValueError | UnicodeError | BinasciiError   (* the last two are ValueErrors *)
| KeyError | IndexError | TypeError | AssertionError
| OSError | StructError | UnboundLocalError | SystemExit
| Unmodelled.   (* behaviour of code that is outside this embedding *)

(** [except ValueError] also catches the subclasses of [ValueError]. *)
Definition is_ValueError (e : exn) : bool :=
  match e with
  | ValueError | UnicodeError | BinasciiError => true
  | _ => false
  end.

Inductive result (A : Type) : Type :=
| Ok (a : A)
| Raise (e : exn)
| OutOfFuel.
Arguments Ok {A} a.
Arguments Raise {A} e.
Arguments OutOfFuel {A}.

Definition result_bind {A B} (f : A -> result B) (m : result A) : result B :=
  match m with
  | Ok a => f a
  | Raise e => Raise e
  | OutOfFuel => OutOfFuel
  end.

#[global] Instance result_mret : MRet result := fun _ a => Ok a.
#[global] Instance result_mbind : MBind result := fun _ _ f m => result_bind f m.

(** [try: m except ValueError: handler]. *)
Definition except_ValueError {A} (m : result A) (handler : result A) : result A :=
  match m with
  | Raise e => if is_ValueError e then handler else Raise e
  | _ => m
  end.

Definition assert (c : bool) : result unit :=
  if c then Ok tt else Raise AssertionError.

Definition is_Ok {A} (r : result A) : bool :=
  match r with Ok _ => true | _ => false end.

(** ** The binary file object *)

Record pyfile : Set := File { content : bytes; cursor : nat }.

Definition tell (f : pyfile) : Z := Z.of_nat (cursor f).

(** [f.read(n)]: at most [n] bytes from the cursor, which advances by the
    number of bytes returned; the empty bytes object at end of input. *)
Definition read (n : nat) (f : pyfile) : bytes * pyfile :=
  let data := firstn n (skipn (cursor f) (content f)) in
  (data, File (content f) (cursor f + length data)).

(** [f.seek(offset)]; a negative target is an [OSError]. *)
Definition seek (offset : Z) (f : pyfile) : result pyfile :=
  if offset <? 0 then Raise OSError
  else Ok (File (content f) (Z.to_nat offset)).

(** [f.seek(offset, SEEK_CUR)]. *)
Definition seek_cur (offset : Z) (f : pyfile) : result pyfile :=
  seek (tell f + offset) f.

(** [f.seek(0, SEEK_END)]. *)
Definition seek_end (f : pyfile) : pyfile :=
  File (content f) (length (content f)).

(** ** The COS object model (module [cos]) *)

Module cos.

(** Modelled from the spec: [cos.WHITESPACE], the bytes constant of the
    six whitespace characters NUL, HT, LF, FF, CR and SP.  Like the
    reader's own character classes ([escape_chars], the number characters
    of [read_number]) it is a bytes object, tested with [in]. *)
Definition WHITESPACE : bytes := [x00; x09; x0a; x0c; x0d; x20].

(** Modelled from the spec: [cos.DELIMITERS], the bytes constant of the
    PDF delimiter characters. *)
Definition DELIMITERS : bytes := b "()<>[]{}/%".

(** The values of the object model.  Every value but a [Reference] and a
    [Stream] built by the reader carries its [indirect] flag.  A
    [Dictionary] is kept as the list of its entries in insertion order;
    a [Real] keeps the text it was built from. *)
Inductive Object : Set :=
| Null (indirect : bool)
| Boolean (value : bool) (indirect : bool)
| Integer (value : Z) (indirect : bool)
| Real (text : bytes) (indirect : bool)
| String (value : bytes) (indirect : bool)
| HexString (value : bytes) (indirect : bool)
| Name (value : bytes) (indirect : bool)
| Array (items : list Object) (indirect : bool)
| Dictionary (entries : list (bytes * Object)) (indirect : bool)
| Stream (entries : list (bytes * Object)) (data : bytes)
         (filter : option bytes)
| Reference (identifier generation : Z).

Definition String_PREFIX : bytes := b "(".
Definition String_POSTFIX : bytes := b ")".
Definition HexString_PREFIX : bytes := b "<".
Definition HexString_POSTFIX : bytes := b ">".
Definition Array_PREFIX : bytes := b "[".
Definition Array_POSTFIX : bytes := b "]".
Definition Name_PREFIX : bytes := b "/".
Definition Dictionary_PREFIX : bytes := b "<<".
Definition Dictionary_POSTFIX : bytes := b ">>".

(** [dictionary[key] = value]: an existing key keeps its place. *)
Fixpoint setitem (key : bytes) (value : Object)
  (entries : list (bytes * Object)) : list (bytes * Object) :=
  match entries with
  | [] => [(key, value)]
  | (k, v) :: rest =>
      if bytes_eq k key then (key, value) :: rest
      else (k, v) :: setitem key value rest
  end.

(** [dictionary.get(key, None)]. *)
Fixpoint get (key : bytes) (entries : list (bytes * Object)) : option Object :=
  match entries with
  | [] => None
  | (k, v) :: rest => if bytes_eq k key then Some v else get key rest
  end.

(** [dictionary[key]]. *)
Definition getitem (key : bytes) (entries : list (bytes * Object))
  : result Object :=
  match get key entries with
  | Some v => Ok v
  | None => Raise KeyError
  end.

(** The entries of a dictionary or stream; [None] for other values. *)
Definition entries_of (o : Object) : option (list (bytes * Object)) :=
  match o with
  | Dictionary entries _ => Some entries
  | Stream entries _ _ => Some entries
  | _ => None
  end.

(** [key in obj] for a parsed value. *)
Definition contains (key : bytes) (o : Object) : result bool :=
  match entries_of o with
  | Some entries => Ok (bool_decide (is_Some (get key entries)))
  | None => Raise Unmodelled
  end.

(** [obj[key]] for a parsed value. *)
Definition subscript (key : bytes) (o : Object) : result Object :=
  match entries_of o with
  | Some entries => getitem key entries
  | None => Raise Unmodelled
  end.

(** [int(obj)]: the value of an [Integer].  The conversion of a [Real]
    is floating point and that of the other classes is not part of the
    reader; both are left outside the embedding. *)
Definition to_int (o : Object) : result Z :=
  match o with
  | Integer v _ => Ok v
  | _ => Raise Unmodelled
  end.

(** [cos.Integer(text)] is [int(text)]. *)
Definition parse_Integer (text : bytes) (indirect : bool) : result Object :=
  match py_int 10 text with
  | Some v => Ok (Integer v indirect)
  | None => Raise ValueError
  end.

(** The texts over the characters [+-.0123456789] that [float()]
    accepts: an optional sign, then digits with at most one point and at
    least one digit. *)
Definition float_text (text : bytes) : bool :=
  let unsigned :=
    match text with
    | c :: rest => if Byte.eqb c x2b || Byte.eqb c x2d then rest else text
    | [] => []
    end in
  forallb (fun c => is_ascii_digit c || Byte.eqb c x2e) unsigned &&
  existsb is_ascii_digit unsigned &&
  (length (List.filter (Byte.eqb x2e) unsigned) <=? 1)%nat.

(** [cos.Real(text)] is [float(text)]. *)
Definition parse_Real (text : bytes) (indirect : bool) : result Object :=
  if float_text text then Ok (Real text indirect) else Raise ValueError.

End cos.

(** ** The lexer of [PDFReader] *)

Fixpoint jump_to_next_line (fuel : nat) (file : pyfile) : result pyfile :=
  match fuel with
  | O => OutOfFuel
  | S fuel =>
      let '(char, file) := read 1 file in
      if bytes_eq char [LF] then Ok file
      else if bytes_eq char [CR] then
        let '(next_char, file) := read 1 file in
        if negb (bytes_eq next_char [LF]) then seek_cur (-1) file
        else Ok file
      else jump_to_next_line fuel file
  end.

Fixpoint eat_whitespace (fuel : nat) (file : pyfile) : result pyfile :=
  match fuel with
  | O => OutOfFuel
  | S fuel =>
      let '(char, file) := read 1 file in
      if negb (bytes_in char cos.WHITESPACE) then seek_cur (-1) file
      else eat_whitespace fuel file
  end.

(** The loop of [next_token] that extends a token of regular characters. *)
Fixpoint next_token_loop (fuel : nat) (token : bytes) (file : pyfile)
  : result (bytes * pyfile) :=
  match fuel with
  | O => OutOfFuel
  | S fuel =>
      let '(char, file) := read 1 file in
      if bytes_in char (cos.DELIMITERS ++ cos.WHITESPACE) then
        file ← seek_cur (-1) file; Ok (token, file)
      else next_token_loop fuel (token ++ char) file
  end.

Definition next_token (fuel : nat) (file : pyfile) : result (bytes * pyfile) :=
  let '(token, file) := read 1 file in
  if tuple_in token [cos.HexString_PREFIX; cos.HexString_POSTFIX] then
    (* check for dict begin/end *)
    let '(char, file) := read 1 file in
    if bytes_eq char token then Ok (token ++ char, file)
    else file ← seek_cur (-1) file; Ok (token, file)
  else if bytes_in token (cos.DELIMITERS ++ cos.WHITESPACE) then
    Ok (token, file)
  else next_token_loop fuel token file.

(** ** The scalar readers *)

Fixpoint read_number_loop (fuel : nat) (number_string : bytes) (file : pyfile)
  : result (bytes * pyfile) :=
  match fuel with
  | O => OutOfFuel
  | S fuel =>
      let '(char, file) := read 1 file in
      if negb (bytes_in char (b "+-.0123456789")) then
        file ← seek_cur (-1) file; Ok (number_string, file)
      else read_number_loop fuel (number_string ++ char) file
  end.

(** The characters of the next number: the first half of [read_number],
    which raises no [ValueError]. *)
Definition read_number_text (fuel : nat) (file : pyfile)
  : result (bytes * pyfile) :=
  file ← eat_whitespace fuel file;
  read_number_loop fuel [] file.

(** The [try] at the end of [read_number]. *)
Definition make_number (number_string : bytes) (indirect : bool)
  : result cos.Object :=
  except_ValueError (cos.parse_Integer number_string indirect)
                    (cos.parse_Real number_string indirect).

Definition read_number (fuel : nat) (indirect : bool) (file : pyfile)
  : result (cos.Object * pyfile) :=
  '(number_string, file) ← read_number_text fuel file;
  number ← make_number number_string indirect;
  Ok (number, file).

(** [chr(int(char_code.decode('ascii'), 16)).encode('ascii')]. *)
Definition decode_name_escape (char_code : bytes) : result bytes :=
  if negb (forallb (fun c => ord c <? 128) char_code) then Raise UnicodeError
  else
    match py_int 16 char_code with
    | None => Raise ValueError
    | Some code =>
        if code <? 0 then Raise ValueError           (* chr *)
        else if 128 <=? code then Raise UnicodeError  (* encode *)
        else match byte_of_Z code with
             | Some c => Ok [c]
             | None => Raise ValueError
             end
    end.

Fixpoint read_name_loop (fuel : nat) (name : bytes) (file : pyfile)
  : result (bytes * pyfile) :=
  match fuel with
  | O => OutOfFuel
  | S fuel =>
      let '(char, file) := read 1 file in
      if bytes_in char (cos.DELIMITERS ++ cos.WHITESPACE) then
        file ← seek_cur (-1) file; Ok (name, file)
      else if bytes_eq char (b "#") then
        let '(char_code, file) := read 2 file in
        char ← decode_name_escape char_code;
        read_name_loop fuel (name ++ char) file
      else read_name_loop fuel (name ++ char) file
  end.

Definition read_name (fuel : nat) (indirect : bool) (file : pyfile)
  : result (cos.Object * pyfile) :=
  '(name, file) ← read_name_loop fuel [] file;
  Ok (cos.Name name indirect, file).

Definition escape_chars : bytes := b "nrtbf()" ++ [BACKSLASH].

(** [struct.pack('B', value)]. *)
Definition pack_B (value : Z) : result bytes :=
  if (0 <=? value) && (value <=? 255) then
    match byte_of_Z value with
    | Some c => Ok [c]
    | None => Raise StructError
    end
  else Raise StructError.

(** The [for i in range(2)] loop of the octal escape: up to [n] more
    digits are added to [char]. *)
Fixpoint read_octal_digits (n : nat) (char : bytes) (file : pyfile)
  : result (bytes * pyfile) :=
  match n with
  | O => Ok (char, file)
  | S n =>
      let '(extra, file) := read 1 file in
      if isdigit extra then read_octal_digits n (char ++ extra) file
      else file ← seek_cur (-1) file; Ok (char, file)
  end.

(** One character after a backslash: the bytes it adds to the string. *)
Definition read_string_escape (char : bytes) (file : pyfile)
  : result (bytes * pyfile) :=
  if bytes_in char escape_chars then Ok (char, file)
  else if bytes_eq char [LF] then Ok ([], file)
  else if bytes_eq char [CR] then
    (* the bytes just read never equal the str '\n' *)
    let '(_, file) := read 1 file in
    file ← seek_cur (-1) file; Ok ([], file)
  else if isdigit char then
    '(char, file) ← read_octal_digits 2 char file;
    match py_int 8 char with
    | None => Raise ValueError
    | Some value => packed ← pack_B value; Ok (packed, file)
    end
  else Ok ([BACKSLASH] ++ char, file).

Fixpoint read_string_loop (fuel : nat) (string : bytes) (escape : bool)
  (parenthesis_level : nat) (file : pyfile) : result (bytes * pyfile) :=
  match fuel with
  | O => OutOfFuel
  | S fuel =>
      let '(char, file) := read 1 file in
      if escape then
        '(added, file) ← read_string_escape char file;
        read_string_loop fuel (string ++ added) false parenthesis_level file
      else if bytes_eq char [BACKSLASH] then
        read_string_loop fuel string true parenthesis_level file
      else if bytes_eq char (b "(") then
        read_string_loop fuel string escape (S parenthesis_level) file
      else if bytes_eq char (b ")") && (0 <? parenthesis_level)%nat then
        read_string_loop fuel string escape (pred parenthesis_level) file
      else if bytes_eq char cos.String_POSTFIX then Ok (string, file)
      else read_string_loop fuel (string ++ char) escape parenthesis_level file
  end.

Definition read_string (fuel : nat) (indirect : bool) (file : pyfile)
  : result (cos.Object * pyfile) :=
  '(string, file) ← read_string_loop fuel [] false 0%nat file;
  Ok (cos.String string indirect, file).

(** [binascii.unhexlify] on a bytes object of even length. *)
Fixpoint unhexlify (hex_string : bytes) : result bytes :=
  match hex_string with
  | [] => Ok []
  | [_] => Raise BinasciiError
  | hi :: lo :: rest =>
      match digit_value hi, digit_value lo with
      | Some h, Some l =>
          match byte_of_Z (16 * h + l) with
          | Some c => rest ← unhexlify rest; Ok (c :: rest)
          | None => Raise BinasciiError
          end
      | _, _ => Raise BinasciiError
      end
  end.

Fixpoint read_hex_string_loop (fuel : nat) (hex_string : bytes)
  (file : pyfile) : result (bytes * pyfile) :=
  match fuel with
  | O => OutOfFuel
  | S fuel =>
      file ← eat_whitespace (S fuel) file;
      let '(char, file) := read 1 file in
      if bytes_eq char cos.HexString_POSTFIX then Ok (hex_string, file)
      else read_hex_string_loop fuel (hex_string ++ char) file
  end.

Definition read_hex_string (fuel : nat) (indirect : bool) (file : pyfile)
  : result (cos.Object * pyfile) :=
  '(hex_string, file) ← read_hex_string_loop fuel [] file;
  let hex_string :=
    if (0 <? Nat.modulo (length hex_string) 2)%nat
    then hex_string ++ b "0" else hex_string in
  value ← unhexlify hex_string;
  Ok (cos.HexString value indirect, file).

(** [f.read(n)] for an integer [n] of the program: [-1] reads to the end
    of the input, a smaller number is a [ValueError]. *)
Definition read_Z (n : Z) (f : pyfile) : result (bytes * pyfile) :=
  if n =? -1 then Ok (read (length (content f)) f)
  else if n <? 0 then Raise ValueError
  else Ok (read (Z.to_nat n) f).

(** ** The predictor decoder ([PNGReconstructor]) *)

Definition NONE : Z := 0.
Definition SUB : Z := 1.
Definition UP : Z := 2.
Definition AVERAGE : Z := 3.
Definition PAETH : Z := 4.

Definition paeth_predictor (a b c : Z) : Z :=
  let p := a + b - c in
  let pa := Z.abs (p - a) in
  let pb := Z.abs (p - b) in
  let pc := Z.abs (p - c) in
  if (pa <=? pb) && (pa <=? pc) then a
  else if pb <=? pc then b
  else c.

(** [self._column_struct.unpack(row)]: the values of the bytes of a row
    of exactly [columns] bytes. *)
Definition unpack_row (columns : nat) (row : bytes) : result (list Z) :=
  if (length row =? columns)%nat then Ok (map ord row)
  else Raise StructError.

(** [self._column_struct.pack] applied to the values of a row. *)
Fixpoint pack_row (values : list Z) : result bytes :=
  match values with
  | [] => Ok []
  | value :: values =>
      c ← pack_B value; row ← pack_row values; Ok (c ++ row)
  end.

(** The loop of the [SUB] case. *)
Fixpoint reconstruct_sub (recon_a : Z) (values : list Z) : list Z :=
  match values with
  | [] => []
  | filt_x :: values =>
      let recon_a := (filt_x + recon_a) mod 256 in
      recon_a :: reconstruct_sub recon_a values
  end.

(** The loop of the [UP] case, over [zip(values, self._last_values)];
    values beyond the zip keep their stored value. *)
Fixpoint reconstruct_up (values last_values : list Z) : list Z :=
  match values, last_values with
  | filt_x :: values, recon_b :: last_values =>
      (filt_x + recon_b) mod 256 :: reconstruct_up values last_values
  | _, _ => values
  end.

(** The loop of the [AVERAGE] case. *)
Fixpoint reconstruct_average (recon_a : Z) (values last_values : list Z)
  : list Z :=
  match values, last_values with
  | filt_x :: values, recon_b :: last_values =>
      let average := (recon_a + recon_b) / 2 in
      let recon_a := (filt_x + average) mod 256 in
      recon_a :: reconstruct_average recon_a values last_values
  | _, _ => values
  end.

(** The loop of the [PAETH] case; the loop assigns [recon_a] only, so
    [recon_c] keeps the value it has before the loop. *)
Fixpoint reconstruct_paeth (recon_a recon_c : Z) (values last_values : list Z)
  : list Z :=
  match values, last_values with
  | filt_x :: values, recon_b :: last_values =>
      let prediction := paeth_predictor recon_a recon_b recon_c in
      let recon_a := (filt_x + prediction) mod 256 in
      recon_a :: reconstruct_paeth recon_a recon_c values last_values
  | _, _ => values
  end.

(** A [PNGReconstructor]: the source it reads from, the row width, the
    previous reconstructed row and the bytes buffered by [FIFOBuffer]. *)
Record PNGReconstructor : Set := Reconstructor {
  _source : pyfile;
  columns : nat;
  _last_values : list Z;
  buffer : bytes
}.

(** [PNGReconstructor(source, columns)]; a negative [columns] is not a
    format of [struct.Struct]. *)
Definition PNGReconstructor_init (source : pyfile) (columns : Z)
  : result PNGReconstructor :=
  if columns <? 0 then Raise StructError
  else Ok (Reconstructor source (Z.to_nat columns)
             (repeat 0 (Z.to_nat columns)) []).

Definition read_from_source (self : PNGReconstructor)
  : result (bytes * PNGReconstructor) :=
  let '(tag, source) := read 1 (_source self) in
  predictor ← match tag with [c] => Ok (ord c) | _ => Raise StructError end;
  let '(row, source) := read (columns self) source in
  values ← unpack_row (columns self) row;
  '(out_row, values) ←
    (if predictor =? NONE then Ok (row, values)
     else if predictor =? SUB then
       let values := reconstruct_sub 0 values in
       out_row ← pack_row values; Ok (out_row, values)
     else if predictor =? UP then
       let values := reconstruct_up values (_last_values self) in
       out_row ← pack_row values; Ok (out_row, values)
     else if predictor =? AVERAGE then
       let values := reconstruct_average 0 values (_last_values self) in
       out_row ← pack_row values; Ok (out_row, values)
     else if predictor =? PAETH then
       let values := reconstruct_paeth 0 0 values (_last_values self) in
       out_row ← pack_row values; Ok (out_row, values)
     else Raise UnboundLocalError);
  Ok (out_row, Reconstructor source (columns self) values (buffer self)).

(** Modelled from the spec: [FIFOBuffer.read], the pull buffer of
    [pyte.backend.pdf.util]: it refills one decoded row per underflow and
    serves partial rows across calls. *)
Fixpoint FIFOBuffer_read (fuel : nat) (n : nat) (self : PNGReconstructor)
  : result (bytes * PNGReconstructor) :=
  match fuel with
  | O => OutOfFuel
  | S fuel =>
      if (n <=? length (buffer self))%nat then
        Ok (firstn n (buffer self),
            Reconstructor (_source self) (columns self) (_last_values self)
              (skipn n (buffer self)))
      else
        '(row, self) ← read_from_source self;
        FIFOBuffer_read fuel n
          (Reconstructor (_source self) (columns self) (_last_values self)
             (buffer self ++ row))
  end.

(** ** The object parser *)

Section Reader.

(** The keys of [FILTER_SUBCLASSES]: the names of the subclasses of
    [filter.Filter], a module that is not part of the reader. *)
Variable FILTER_SUBCLASSES : list bytes.

(** [dictionary._filter = FILTER_SUBCLASSES[str(dictionary['Filter'])]()]
    for a [Filter] entry that is a name. *)
Definition select_filter (entries : list (bytes * cos.Object))
  : result (option bytes) :=
  match cos.get (b "Filter") entries with
  | None => Ok None
  | Some (cos.Name stream_filter _) =>
      if tuple_in stream_filter FILTER_SUBCLASSES then Ok (Some stream_filter)
      else Raise KeyError
  | Some _ => Raise Unmodelled
  end.

Abbreviation item_parser := (bool -> pyfile -> result (cos.Object * pyfile)).

(** The loop of [read_array]; [next_item] is the parser of one item. *)
Fixpoint read_array_loop (next_item : item_parser) (fuel : nat)
  (array : list cos.Object) (file : pyfile)
  : result (list cos.Object * pyfile) :=
  match fuel with
  | O => OutOfFuel
  | S fuel =>
      file ← eat_whitespace fuel file;
      let '(token, file) := read 1 file in
      if bytes_eq token cos.Array_POSTFIX then Ok (array, file)
      else
        file ← seek_cur (-1) file;
        '(item, file) ← next_item false file;
        read_array_loop next_item fuel (array ++ [item]) file
  end.

Definition read_array (next_item : item_parser) (fuel : nat)
  (indirect : bool) (file : pyfile) : result (cos.Object * pyfile) :=
  '(array, file) ← read_array_loop next_item fuel [] file;
  Ok (cos.Array array indirect, file).

(** The first loop of [read_dictionary_or_stream]. *)
Fixpoint read_dictionary_loop (next_item : item_parser) (fuel : nat)
  (dictionary : list (bytes * cos.Object)) (file : pyfile)
  : result (list (bytes * cos.Object) * pyfile) :=
  match fuel with
  | O => OutOfFuel
  | S fuel =>
      file ← eat_whitespace fuel file;
      '(token, file) ← next_token fuel file;
      if bytes_eq token cos.Dictionary_POSTFIX then Ok (dictionary, file)
      else
        '(key, file) ← read_name_loop fuel [] file;
        '(value, file) ← next_item false file;
        read_dictionary_loop next_item fuel
          (cos.setitem key value dictionary) file
  end.

(** [read_dictionary_or_stream].  The class that the last lines of the
    function give to the result is looked up from the [Type] and
    [Subtype] entries of the result (see [subclass_key]); it is not
    stored in the value. *)
Definition read_dictionary_or_stream (next_item : item_parser) (fuel : nat)
  (indirect : bool) (file : pyfile) : result (cos.Object * pyfile) :=
  '(dictionary, file) ← read_dictionary_loop next_item fuel [] file;
  file ← eat_whitespace fuel file;
  let dict_pos := tell file in
  '(token, file) ← next_token fuel file;
  if bytes_eq token (b "stream") then
    file ← jump_to_next_line fuel file;
    length_entry ← cos.getitem (b "Length") dictionary;
    length ← cos.to_int length_entry;
    '(data, file) ← read_Z length file;
    file ← eat_whitespace fuel file;
    '(token, file) ← next_token fuel file;
    _ ← assert (bytes_eq token (b "endstream"));
    stream_filter ← select_filter dictionary;
    Ok (cos.Stream dictionary data stream_filter, file)
  else
    file ← seek dict_pos file;
    Ok (cos.Dictionary dictionary indirect, file).

(** The key under which [read_dictionary_or_stream] looks up the class
    of its result in [DICTIONARY_SUBCLASSES], for entries that are
    names: the texts of a non-empty [Type] and a non-empty [Subtype]. *)
Definition subclass_key (entries : list (bytes * cos.Object))
  : option bytes * option bytes :=
  let text (o : option cos.Object) : option bytes :=
    match o with
    | Some (cos.Name (c :: n) _) => Some (c :: n)
    | _ => None
    end in
  (text (cos.get (b "Type") entries), text (cos.get (b "Subtype") entries)).

(** The [try] block of [next_item]: after the integer [item], a second
    number and the token [R] make a reference. *)
Definition read_reference (fuel : nat) (item : Z) (file : pyfile)
  : result (cos.Object * pyfile) :=
  '(generation, file) ← read_number fuel false file;
  file ← eat_whitespace fuel file;
  '(r, file) ← next_token fuel file;
  match generation with
  | cos.Integer generation _ =>
      if bytes_eq r (b "R") then Ok (cos.Reference item generation, file)
      else Raise ValueError
  | _ => Raise ValueError
  end.

Fixpoint next_item (fuel : nat) (indirect : bool) (file : pyfile)
  : result (cos.Object * pyfile) :=
  match fuel with
  | O => OutOfFuel
  | S fuel =>
      file ← eat_whitespace fuel file;
      let restore_pos := tell file in
      '(token, file) ← next_token fuel file;
      if bytes_eq token cos.String_PREFIX then
        read_string fuel indirect file
      else if bytes_eq token cos.HexString_PREFIX then
        read_hex_string fuel indirect file
      else if bytes_eq token cos.Array_PREFIX then
        read_array (next_item fuel) fuel indirect file
      else if bytes_eq token cos.Name_PREFIX then
        read_name fuel indirect file
      else if bytes_eq token cos.Dictionary_PREFIX then
        read_dictionary_or_stream (next_item fuel) fuel indirect file
      else if bytes_eq token (b "true") then
        Ok (cos.Boolean true indirect, file)
      else if bytes_eq token (b "false") then
        Ok (cos.Boolean false indirect, file)
      else if bytes_eq token (b "null") then
        Ok (cos.Null indirect, file)
      else
        (* number or indirect reference *)
        file ← seek restore_pos file;
        '(item, file) ← read_number fuel indirect file;
        let restore_pos := tell file in
        match item with
        | cos.Integer value _ =>
            except_ValueError (read_reference fuel value file)
              (file ← seek restore_pos file; Ok (item, file))
        | _ => Ok (item, file)
        end
  end.

(** ** Cross-reference tables *)

(** How the body of the [while True] loop of [parse_xref_table] ends: it
    falls through to the next iteration, or a [ValueError] makes the
    handler [break]; both keep the table and the file as they are at
    that point. *)
Inductive flow : Set :=
| Next (xref : gmap Z Z) (file : pyfile)
| Break (xref : gmap Z Z) (file : pyfile).

(** The [for identifier in range(first, first + total)] loop over the
    20-byte records; [count] is the number of identifiers left. *)
Fixpoint parse_xref_records (count : nat) (identifier : Z)
  (xref : gmap Z Z) (file : pyfile) : result flow :=
  match count with
  | O => Ok (Next xref file)
  | S count =>
      let '(line, file) := read 20 file in
      match line !! 17%nat with
      | None => Raise IndexError
      | Some marker =>
          if ord marker =? 110 (* ord(b'n') *) then
            match py_int 10 (firstn 10 line),
                  py_int 10 (firstn 5 (skipn 11 line)) with
            | Some address, Some generation =>
                parse_xref_records count (identifier + 1)
                  (<[identifier := address]> xref) file
            | _, _ => Ok (Break xref file)
            end
          else if negb (ord marker =? 102 (* ord(b'f') *)) then
            Raise AssertionError
          else
            match py_int 10 (firstn 5 (skipn 11 line)) with
            | None => Ok (Break xref file)
            | Some generation =>
                if generation =? 65535 then
                  parse_xref_records count (identifier + 1) xref file
                else Raise AssertionError
            end
      end
  end.

(** The [while True] loop of [parse_xref_table], one subsection per
    iteration. *)
Fixpoint parse_xref_subsections (fuel : nat) (xref : gmap Z Z)
  (file : pyfile) : result (gmap Z Z * pyfile) :=
  match fuel with
  | O => OutOfFuel
  | S fuel =>
      '(text, file) ← read_number_text fuel file;
      match make_number text false with
      | OutOfFuel => OutOfFuel
      | Raise e => if is_ValueError e then Ok (xref, file) else Raise e
      | Ok first =>
          first ← cos.to_int first;
          '(text, file) ← read_number_text fuel file;
          match make_number text false with
          | OutOfFuel => OutOfFuel
          | Raise e => if is_ValueError e then Ok (xref, file) else Raise e
          | Ok total =>
              file ← jump_to_next_line fuel file;
              match total with
              | cos.Integer total _ =>
                  step ← parse_xref_records (Z.to_nat total) first xref file;
                  match step with
                  | Next xref file => parse_xref_subsections fuel xref file
                  | Break xref file => Ok (xref, file)
                  end
              | _ => Raise TypeError   (* range() over a float *)
              end
          end
      end
  end.

Definition parse_xref_table (fuel : nat) (offset : Z) (file : pyfile)
  : result (gmap Z Z * pyfile) :=
  file ← seek offset file;
  '(token, file) ← next_token fuel file;
  _ ← assert (bytes_eq token (b "xref"));
  parse_xref_subsections fuel ∅ file.

(** [d.update(other)]: the entries of [other] replace those of [d]. *)
Definition update (d other : gmap Z Z) : gmap Z Z := other ∪ d.

(** ** The document *)

(** An object of the program: its value and its identity [id(obj)]. *)
Record instance : Set := Instance { object_id : nat; object : cos.Object }.

(** The state of a [PDFReader]: the file, the cross-reference table, the
    dictionary of [cos.Document] that caches the objects, the references
    of the parsed objects by identity, and the number of objects created
    so far, which is the identity of the next one. *)
Record PDFReader : Type := Reader {
  file : pyfile;
  _xref : gmap Z Z;
  objects : gmap Z instance;
  _by_object_id : gmap nat (Z * Z);
  allocated : nat
}.

Definition set_file (f : pyfile) (self : PDFReader) : PDFReader :=
  Reader f (_xref self) (objects self) (_by_object_id self) (allocated self).

Definition set_xref (xref : gmap Z Z) (self : PDFReader) : PDFReader :=
  Reader (file self) xref (objects self) (_by_object_id self) (allocated self).

(** Modelled from the spec: [cos.Document.__setitem__], which stores the
    object in the cache under its identifier. *)
Definition __setitem__ (identifier : Z) (obj : instance) (self : PDFReader)
  : PDFReader :=
  Reader (file self) (_xref self) (<[identifier := obj]> (objects self))
    (_by_object_id self) (allocated self).

Definition parse_indirect_object (fuel : nat) (address : Z) (self : PDFReader)
  : result (Z * instance * PDFReader) :=
  (* save file state *)
  let restore_pos := tell (file self) in
  f ← seek address (file self);
  '(identifier, f) ← read_number fuel false f;
  identifier ← cos.to_int identifier;
  '(generation, f) ← read_number fuel false f;
  generation ← cos.to_int generation;
  f ← eat_whitespace fuel f;
  '(token, f) ← next_token fuel f;
  _ ← assert (bytes_eq token (b "obj"));
  f ← eat_whitespace fuel f;
  '(value, f) ← next_item fuel true f;
  let obj := Instance (allocated self) value in
  let by_object_id :=
    <[object_id obj := (identifier, generation)]> (_by_object_id self) in
  f ← eat_whitespace fuel f;
  '(token, f) ← next_token fuel f;
  _ ← assert (bytes_eq token (b "endobj"));
  f ← seek restore_pos f;
  Ok (identifier, obj,
      Reader f (_xref self) (objects self) by_object_id (S (allocated self))).

(** [PDFReader.__getitem__]; the lookup in the cache is
    [cos.Document.__getitem__]. *)
Definition __getitem__ (fuel : nat) (identifier : Z) (self : PDFReader)
  : result (instance * PDFReader) :=
  match objects self !! identifier with
  | Some obj => Ok (obj, self)
  | None =>
      match _xref self !! identifier with
      | None => Raise KeyError
      | Some address =>
          '(obj_identifier, obj, self) ← parse_indirect_object fuel address self;
          _ ← assert (obj_identifier =? identifier);
          Ok (obj, __setitem__ identifier obj self)
      end
  end.

(** [PDFReader.__delitem__]; the second line is
    [cos.Document.__delitem__], which removes the object from the cache. *)
Definition __delitem__ (identifier : Z) (self : PDFReader) : result PDFReader :=
  match _xref self !! identifier with
  | None => Raise KeyError
  | Some _ =>
      let xref := delete identifier (_xref self) in
      match objects self !! identifier with
      | None => Raise KeyError
      | Some _ =>
          Ok (Reader (file self) xref (delete identifier (objects self))
                (_by_object_id self) (allocated self))
      end
  end.

(** *** Cross-reference streams *)

(** The elements of a value that the program iterates over. *)
Definition elements (o : cos.Object) : result (list cos.Object) :=
  match o with
  | cos.Array items _ => Ok items
  | _ => Raise Unmodelled
  end.

(** [[int(width) for width in values]]. *)
Fixpoint ints (values : list cos.Object) : result (list Z) :=
  match values with
  | [] => Ok []
  | value :: values =>
      i ← cos.to_int value; rest ← ints values; Ok (i :: rest)
  end.

(** [xref_stream.seek(0)]: the payload of a stream without a filter, read
    from its start.  Decoding through a filter is not part of the
    reader. *)
Definition rewind (xref_stream : cos.Object) : result pyfile :=
  match xref_stream with
  | cos.Stream _ data None => Ok (File data 0)
  | _ => Raise Unmodelled
  end.

(** [struct.unpack('>B', data)[0]]. *)
Definition unpack_B (data : bytes) : result Z :=
  match data with
  | [c] => Ok (ord c)
  | _ => Raise StructError
  end.

(** The [for width in widths] loop: one field is read and printed per
    width. *)
Fixpoint dump_fields (fuel : nat) (widths : list Z)
  (reconstructor : PNGReconstructor) : result PNGReconstructor :=
  match widths with
  | [] => Ok reconstructor
  | width :: widths =>
      if width <? 0 then Raise Unmodelled
      else
        '(data, reconstructor) ←
          FIFOBuffer_read fuel (Z.to_nat width) reconstructor;
        _ ← unpack_B data;
        dump_fields fuel widths reconstructor
  end.

(** The [for identifier in range(first, first + total)] loop of
    [parse_xref_stream]; the result carries the last value of the loop
    variable. *)
Fixpoint dump_records (fuel : nat) (count : nat) (identifier next : Z)
  (widths : list Z) (reconstructor : PNGReconstructor)
  : result (Z * PNGReconstructor) :=
  match count with
  | O => Ok (identifier, reconstructor)
  | S count =>
      reconstructor ← dump_fields fuel widths reconstructor;
      dump_records fuel count next (next + 1) widths reconstructor
  end.

(** The [while True] loop of [parse_xref_stream] over the pairs of
    [index]; the conversion [int(value)] of the generator runs when the
    value is taken. *)
Fixpoint dump_index (fuel : nat) (index : list cos.Object) (identifier : Z)
  (widths : list Z) (reconstructor : PNGReconstructor) : result Z :=
  match index with
  | first :: total :: index =>
      first ← cos.to_int first;
      total ← cos.to_int total;
      '(identifier, reconstructor) ←
        dump_records fuel (Z.to_nat total) identifier first widths
          reconstructor;
      dump_index fuel index identifier widths reconstructor
  | [first] => _ ← cos.to_int first; Ok identifier
  | [] => Ok identifier
  end.

(** [parse_xref_stream] prints the fields of the table, fills no entry
    of [xref] and ends in [sys.exit()]. *)
Definition parse_xref_stream (fuel : nat) (offset : Z) (self : PDFReader)
  : result (gmap Z Z * PDFReader) :=
  '(identifier, xref_stream, self) ← parse_indirect_object fuel offset self;
  let self := __setitem__ identifier xref_stream self in
  let xref : gmap Z Z := ∅ in
  w ← cos.subscript (b "W") (object xref_stream);
  w ← elements w;
  widths ← ints w;
  index ← cos.subscript (b "Index") (object xref_stream);
  index ← elements index;
  decode_parms ← cos.subscript (b "DecodeParms") (object xref_stream);
  columns ← cos.subscript (b "Columns") decode_parms;
  columns ← cos.to_int columns;
  source ← rewind (object xref_stream);
  reconstructor ← PNGReconstructor_init source columns;
  identifier ← dump_index fuel index identifier widths reconstructor;
  size ← cos.subscript (b "Size") (object xref_stream);
  size ← cos.to_int size;
  _ ← assert (identifier + 1 =? size);
  Raise SystemExit.

(** *** The trailer chain *)

Fixpoint parse_trailer (fuel : nat) (self : PDFReader)
  : result (cos.Object * PDFReader) :=
  match fuel with
  | O => OutOfFuel
  | S fuel =>
      '(token, f) ← next_token fuel (file self);
      _ ← assert (bytes_eq token (b "trailer"));
      f ← jump_to_next_line fuel f;
      '(trailer_dict, f) ← next_item fuel false f;
      let self := set_file f self in
      has_xref_stm ← cos.contains (b "XRefStm") trailer_dict;
      if has_xref_stm : bool then
        offset ← cos.subscript (b "XRefStm") trailer_dict;
        offset ← cos.to_int offset;
        '(xref_stm, self) ← parse_xref_stream fuel offset self;
        Ok (trailer_dict, set_xref (update xref_stm (_xref self)) self)
      else
        has_prev ← cos.contains (b "Prev") trailer_dict;
        if has_prev : bool then
          offset ← cos.subscript (b "Prev") trailer_dict;
          offset ← cos.to_int offset;
          '(prev_xref, f) ← parse_xref_table fuel offset (file self);
          let self := set_xref (update prev_xref (_xref self)) (set_file f self) in
          '(_, self) ← parse_trailer fuel self;
          Ok (trailer_dict, self)
        else Ok (trailer_dict, self)
  end.

(** *** Construction *)

(** The loop of [find_xref_offset], from the candidate [offset] down. *)
Fixpoint find_xref_offset_loop (fuel : nat) (offset : Z) (file : pyfile)
  : result (cos.Object * pyfile) :=
  match fuel with
  | O => OutOfFuel
  | S fuel =>
      file ← seek offset file;
      let '(value, file) := read 9 file in
      if bytes_eq value (b "startxref") then
        file ← jump_to_next_line fuel file;
        '(xref_offset, file) ← read_number fuel false file;
        file ← jump_to_next_line fuel file;
        let '(marker, file) := read 5 file in
        if negb (bytes_eq marker (b "%%EOF")) then Raise ValueError
        else Ok (xref_offset, file)
      else find_xref_offset_loop fuel (offset - 1) file
  end.

Definition find_xref_offset (fuel : nat) (file : pyfile)
  : result (Z * pyfile) :=
  let file := seek_end file in
  let offset := tell file - 5 in
  '(xref_offset, file) ← find_xref_offset_loop fuel offset file;
  xref_offset ← cos.to_int xref_offset;
  Ok (xref_offset, file).

(** A constructed document: the reader and the attributes taken from
    the newest trailer. *)
Record Document : Type := {
  reader : PDFReader;
  info : cos.Object;
  id : option cos.Object;
  _max_identifier_in_file : Z;
  catalog : cos.Object
}.

(** [PDFReader.__init__] on the content of the opened file. *)
Definition __init__ (fuel : nat) (data : bytes) : result Document :=
  let file := File data 0 in
  '(xref_offset, file) ← find_xref_offset fuel file;
  '(xref, file) ← parse_xref_table fuel xref_offset file;
  let self := Reader file xref ∅ ∅ 0 in
  '(trailer, self) ← parse_trailer fuel self;
  has_info ← cos.contains (b "Info") trailer;
  info ← (if has_info : bool then cos.subscript (b "Info") trailer
          else Ok (cos.Dictionary [] false));
  has_id ← cos.contains (b "ID") trailer;
  id ← (if has_id : bool then i ← cos.subscript (b "ID") trailer; Ok (Some i)
        else Ok None);
  size ← cos.subscript (b "Size") trailer;
  size ← cos.to_int size;
  catalog ← cos.subscript (b "Root") trailer;
  Ok {| reader := self; info := info; id := id;
        _max_identifier_in_file := size - 1; catalog := catalog |}.

End Reader.

(** * Vocabulary of the properties *)

(** The bytes from the cursor to the end of the input. *)
Definition remaining (f : pyfile) : bytes := skipn (cursor f) (content f).

(** The file with the cursor moved [n] bytes forward. *)
Definition advance (n : nat) (f : pyfile) : pyfile :=
  File (content f) (cursor f + n).

(** The character classes that the lexer tests with [in]. *)
Definition is_whitespace (c : byte) : bool := bytes_in [c] cos.WHITESPACE.

Definition is_delimiter_or_whitespace (c : byte) : bool :=
  bytes_in [c] (cos.DELIMITERS ++ cos.WHITESPACE).

Definition is_number_char (c : byte) : bool :=
  bytes_in [c] (b "+-.0123456789").

(** A token ends at the end of the input or before a delimiter or a
    whitespace character. *)
Definition token_end (rest : bytes) : bool :=
  match rest with
  | [] => true
  | c :: _ => is_delimiter_or_whitespace c
  end.

(** The pushback [seek(-1, SEEK_CUR)] after an empty read at the end of
    the input moves the cursor one byte before the end: the number of
    bytes of a token that are read again, given what follows the token. *)
Definition unread (rest : bytes) : nat :=
  match rest with
  | [] => 1%nat
  | _ :: _ => 0%nat
  end.

(** Octal digits and the value of a run of them. *)
Definition is_octal_digit (c : byte) : bool :=
  (48 <=? ord c) && (ord c <=? 55).

Definition octal_value (digits : bytes) : Z :=
  fold_left (fun acc c => acc * 8 + (ord c - 48)) digits 0.

(** An octal escape ends after three digits or before a character that
    is not a decimal digit. *)
Definition octal_escape_end (digits tail : bytes) : bool :=
  (length digits =? 3)%nat ||
  match tail with
  | c :: _ => negb (is_ascii_digit c)
  | [] => false
  end.

Definition is_parenthesis (c : byte) : bool :=
  Byte.eqb c "(" || Byte.eqb c ")".

(** The parentheses of [s] are balanced when read at nesting depth
    [level]: no closing parenthesis is met at depth zero and the depth is
    zero at the end. *)
Fixpoint balanced (level : nat) (s : bytes) : bool :=
  match s with
  | [] => (level =? 0)%nat
  | c :: s =>
      if Byte.eqb c "(" then balanced (S level) s
      else if Byte.eqb c ")" then
        match level with
        | O => false
        | S level => balanced level s
        end
      else balanced level s
  end.

Definition no_backslash (s : bytes) : bool :=
  forallb (fun c => negb (Byte.eqb c BACKSLASH)) s.

(** The table that the record loop of [parse_xref_table] has built when
    it ends. *)
Definition flow_xref (step : flow) : gmap Z Z :=
  match step with
  | Next xref _ => xref
  | Break xref _ => xref
  end.

(** The generation field [line[11:16]] of a record. *)
Definition generation_field (line : bytes) : bytes := firstn 5 (skipn 11 line).

(** The lines of a text file, each ended by LF. *)
Definition lines (l : list string) : bytes :=
  concat (map (fun s => b s ++ [LF]) l).

(** *** The predictor encoder of the specification

    The specification (section 4.4) describes the decoder as adding a
    prediction to each stored byte; the encoder that it inverts stores the
    original byte minus that prediction, modulo 256.  These definitions
    follow the words of the specification, not the code. *)

(** Paeth-predict: the one of left, above, upper-left that is nearest to
    left + above - upper-left, ties broken in that order. *)
Definition spec_paeth_predict (left above upper_left : Z) : Z :=
  let estimate := left + above - upper_left in
  let distance (candidate : Z) := Z.abs (estimate - candidate) in
  if (distance left <=? distance above) &&
     (distance left <=? distance upper_left) then left
  else if distance above <=? distance upper_left then above
  else upper_left.

Definition spec_prediction (tag left above upper_left : Z) : Z :=
  if tag =? 1 then left
  else if tag =? 2 then above
  else if tag =? 3 then (left + above) / 2
  else if tag =? 4 then spec_paeth_predict left above upper_left
  else 0.

(** The stored bytes of [row] under the predictor [tag]; [above_row] is
    the previous row, [left] and [upper_left] are the neighbours of the
    first byte (zero at the start of a row). *)
Fixpoint spec_encode_row (tag left upper_left : Z) (row above_row : list Z)
  : list Z :=
  match row, above_row with
  | x :: row, above :: above_row =>
      (x - spec_prediction tag left above upper_left) mod 256
      :: spec_encode_row tag x above row above_row
  | _, _ => []
  end.

(** The values of a row are bytes. *)
Definition is_byte_row (row : list Z) : bool :=
  forallb (fun x => (0 <=? x) && (x <? 256)) row.

(** *** Example inputs *)

(** A file of two generations: the first defines the objects 1 and 5, the
    update defines object 5 again.  The older table is at offset 66 and
    maps 5 to 45; the newer table is at offset 213 and maps 5 to 192. *)
Definition two_generations : bytes :=
  lines ["%PDF-1.4";
         "1 0 obj";
         "<< /Type /Catalog >>";
         "endobj";
         "5 0 obj";
         "(old)";
         "endobj";
         "xref";
         "0 2";
         "0000000000 65535 f ";
         "0000000009 00000 n ";
         "5 1";
         "0000000045 00000 n ";
         "trailer";
         "<< /Size 6 /Root 1 0 R >>";
         "startxref";
         "66";
         "%%EOF";
         "5 0 obj";
         "(new)";
         "endobj";
         "xref";
         "5 1";
         "0000000192 00000 n ";
         "trailer";
         "<< /Size 6 /Root 1 0 R /Prev 66 >>";
         "startxref";
         "213";
         "%%EOF"].

(** A hybrid file: the trailer names a cross-reference stream, object 7
    at offset 45, with one row of three one-byte fields. *)
Definition hybrid : bytes :=
  lines ["%PDF-1.5";
         "1 0 obj";
         "<< /Type /Catalog >>";
         "endobj";
         "7 0 obj";
         "<< /Type /XRef /W [1 1 1] /Index [0 1] /Size 1 /DecodeParms << /Columns 3 >> /Length 4 >>";
         "stream"] ++
  [x00; x01; x00; x00; LF] ++
  lines ["endstream";
         "endobj";
         "xref";
         "0 2";
         "0000000000 65535 f ";
         "0000000009 00000 n ";
         "trailer";
         "<< /Size 8 /Root 1 0 R /XRefStm 45 >>";
         "startxref";
         "172";
         "%%EOF"].

(** A table whose only record is free and has a generation field that is
    no number. *)
Definition free_record_not_a_number : bytes :=
  lines ["xref";
         "0 1";
         "0000000000 6553x f ";
         "trailer"].

(** The same table with a generation field that is a number other than
    65535. *)
Definition free_record_wrong_generation : bytes :=
  lines ["xref";
         "0 1";
         "0000000000 65534 f ";
         "trailer"].

(** *** Vocabulary of the further properties *)

(** [PDFReader.peek], without the printing: [length] bytes are read and
    the cursor is put back. *)
Definition peek (length : Z) (file : pyfile) : result pyfile :=
  let restore_pos := tell file in
  '(_, file) ← read_Z length file;
  seek restore_pos file.

(** The integer that a text of an optional sign and decimal digits
    denotes. *)
Definition decimal_value (digits : bytes) : Z :=
  fold_left (fun acc c => acc * 10 + (ord c - 48)) digits 0.

Definition signed_decimal (text : bytes) : Z :=
  match text with
  | c :: digits =>
      if Byte.eqb c "-" then - decimal_value digits
      else if Byte.eqb c "+" then decimal_value digits
      else decimal_value text
  | [] => 0
  end.

Definition has_point (text : bytes) : bool := existsb (Byte.eqb ".") text.

(** The number that [read_number] makes of a text that [float()]
    accepts. *)
Definition number_of (text : bytes) (indirect : bool) : cos.Object :=
  if has_point text then cos.Real text indirect
  else cos.Integer (signed_decimal text) indirect.

Definition is_hex_digit (c : byte) : bool :=
  match digit_value c with Some _ => true | None => false end.

(** The value of two hexadecimal digits. *)
Definition hex_pair_value (hi lo : byte) : Z :=
  match digit_value hi, digit_value lo with
  | Some h, Some l => 16 * h + l
  | _, _ => 0
  end.

(** [binascii.hexlify]: two lower-case hexadecimal digits per byte. *)
Definition hex_digit (n : Z) : byte :=
  match byte_of_Z (if n <? 10 then 48 + n else 87 + n) with
  | Some c => c
  | None => x30
  end.

Definition hexlify (data : bytes) : bytes :=
  flat_map (fun c => [hex_digit (ord c / 16); hex_digit (ord c mod 16)]) data.

(** The values of the pairs of hexadecimal digits of a text. *)
Fixpoint hex_pairs (digits : bytes) : list Z :=
  match digits with
  | hi :: lo :: digits => hex_pair_value hi lo :: hex_pairs digits
  | _ => []
  end.

(** A text of odd length with one more [0]. *)
Definition pad_even (digits : bytes) : bytes :=
  if Nat.even (length digits) then digits else digits ++ b "0".

Definition not_whitespace (c : byte) : bool := negb (is_whitespace c).

(** The characters that [read_name] adds to a name as they are. *)
Definition is_name_char (c : byte) : bool :=
  negb (is_delimiter_or_whitespace c) && negb (Byte.eqb c "#").

(** The characters that [read_string] adds to a string as they are. *)
Definition is_plain_char (c : byte) : bool :=
  negb (Byte.eqb c BACKSLASH || is_parenthesis c).

(** The items of an array, as [read_array] reads them with the parser
    of one item: from the file after the opening bracket to the file
    after the closing one. *)
Inductive array_items (parser : bool -> pyfile -> result (cos.Object * pyfile))
  : pyfile -> list cos.Object -> pyfile -> Prop :=
| array_items_end f ws rest :
    remaining f = ws ++ "]"%byte :: rest ->
    forallb is_whitespace ws = true ->
    array_items parser f [] (advance (S (length ws)) f)
| array_items_next f ws c rest item f1 items f2 :
    remaining f = ws ++ c :: rest ->
    forallb is_whitespace ws = true ->
    is_whitespace c = false -> c <> "]"%byte ->
    parser false (advance (length ws) f) = Ok (item, f1) ->
    array_items parser f1 items f2 ->
    array_items parser f (item :: items) f2.

(** The text [pattern] is in [data] at the position [k]. *)
Definition occurs_at (pattern data : bytes) (k : nat) : bool :=
  bytes_eq (firstn (length pattern) (skipn k data)) pattern.

(** The bytes of a list of values. *)
Definition to_bytes (values : list Z) : bytes :=
  map (fun v => match byte_of_Z v with Some c => c | None => x00 end) values.

(** A record in use of a plain table that gives [address], and a free
    record. *)
Definition in_use_record (line : bytes) (address : Z) : Prop :=
  length line = 20%nat /\ line !! 17%nat = Some "n"%byte /\
  py_int 10 (firstn 10 line) = Some address /\
  is_Some (py_int 10 (generation_field line)).

Definition free_record (line : bytes) : Prop :=
  length line = 20%nat /\ line !! 17%nat = Some "f"%byte /\
  py_int 10 (generation_field line) = Some 65535.

(** A record and what it gives for its identifier: an offset, or
    nothing when it is free. *)
Definition table_record (line : bytes) (entry : option Z) : Prop :=
  match entry with
  | Some address => in_use_record line address
  | None => free_record line
  end.

(** The table after the records of a subsection, for the identifiers
    from [identifier] on. *)
Fixpoint record_entries (identifier : Z) (entries : list (option Z))
  (xref : gmap Z Z) : gmap Z Z :=
  match entries with
  | [] => xref
  | entry :: entries =>
      record_entries (identifier + 1) entries
        match entry with
        | Some address => <[identifier := address]> xref
        | None => xref
        end
  end.

(** The identities of the cached objects are below the next identity,
    and two identifiers do not share an instance. *)
Definition identities_fresh (self : PDFReader) : Prop :=
  forall identifier obj,
    objects self !! identifier = Some obj ->
    (object_id obj < allocated self)%nat.

Definition identities_distinct (self : PDFReader) : Prop :=
  forall i j oi oj,
    objects self !! i = Some oi -> objects self !! j = Some oj ->
    object_id oi = object_id oj -> i = j.

(** * Properties *)

(** ** The file object *)

Lemma advance_0 f : advance 0 f = f.
Proof. destruct f as [d p]. unfold advance. simpl. f_equal. lia. Qed.

Lemma advance_advance n m f : advance n (advance m f) = advance (m + n) f.
Proof. unfold advance. simpl. f_equal. lia. Qed.

Lemma skipn_cons_inv {A} (l : list A) n x rest :
  skipn n l = x :: rest -> skipn (S n) l = rest.
Proof.
  revert l. induction n as [|n IH]; intros l H.
  - destruct l as [|y l]; [discriminate|]. simpl in H. injection H as _ H.
    exact H.
  - destruct l as [|y l]; [discriminate|]. simpl in H.
    change (skipn (S n) l = rest). now apply IH.
Qed.

Lemma skipn_app_inv {A} (pre : list A) : forall l n rest,
  skipn n l = pre ++ rest -> skipn (n + length pre) l = rest.
Proof.
  induction pre as [|x pre IH]; intros l n rest H; simpl in *.
  - now rewrite Nat.add_0_r.
  - apply skipn_cons_inv in H. apply IH in H.
    now replace (n + S (length pre))%nat with (S n + length pre)%nat by lia.
Qed.

Lemma remaining_advance pre rest f :
  remaining f = pre ++ rest -> remaining (advance (length pre) f) = rest.
Proof. unfold remaining, advance. simpl. apply skipn_app_inv. Qed.

Lemma remaining_advance_1 c rest f :
  remaining f = c :: rest -> remaining (advance 1 f) = rest.
Proof. intros H. now apply (remaining_advance [c] rest). Qed.

Lemma read_1_byte c rest f :
  remaining f = c :: rest -> read 1 f = ([c], advance 1 f).
Proof. unfold remaining, read, advance. intros ->. reflexivity. Qed.

Lemma read_1_eof f : remaining f = [] -> read 1 f = ([], advance 0 f).
Proof. unfold remaining, read, advance. intros ->. reflexivity. Qed.

Lemma read_prefix pre rest f :
  remaining f = pre ++ rest ->
  read (length pre) f = (pre, advance (length pre) f).
Proof.
  unfold remaining, read, advance. intros ->.
  rewrite firstn_app, firstn_all, Nat.sub_diag. simpl.
  now rewrite app_nil_r.
Qed.

Lemma remaining_eof_advance n f : remaining f = [] -> remaining (advance n f) = [].
Proof.
  unfold remaining, advance. simpl. intros H.
  apply skipn_all_iff in H. apply skipn_all_iff. lia.
Qed.

Lemma seek_cur_back n f : seek_cur (-1) (advance (S n) f) = Ok (advance n f).
Proof.
  unfold seek_cur, seek, tell, advance. simpl.
  destruct (Z.ltb_spec (Z.of_nat (cursor f + S n) + -1) 0) as [H|H]; [lia|].
  do 2 f_equal. lia.
Qed.


Lemma seek_tell_of f g : content g = content f -> seek (tell f) g = Ok f.
Proof.
  unfold seek, tell. destruct f as [d p], g as [d' p']. simpl. intros ->.
  destruct (Z.ltb_spec (Z.of_nat p) 0) as [H|H]; [lia|].
  now rewrite Nat2Z.id.
Qed.

Lemma tell_advance n f : tell (advance n f) = tell f + Z.of_nat n.
Proof. unfold tell, advance. simpl. lia. Qed.

Lemma read_content n f : content (snd (read n f)) = content f.
Proof. reflexivity. Qed.

Lemma seek_content z f f' : seek z f = Ok f' -> content f' = content f.
Proof.
  unfold seek. destruct (z <? 0); [discriminate|]. now intros [= <-].
Qed.

Lemma seek_cur_content z f f' : seek_cur z f = Ok f' -> content f' = content f.
Proof. apply seek_content. Qed.

#[global] Opaque read seek_cur.

(** ** The lexer *)

Ltac step f := cbn [f mbind result_mbind result_bind mret result_mret].
Ltac step_in f H :=
  cbn [f mbind result_mbind result_bind mret result_mret] in H.
Ltac binds_in H := cbn [mbind result_mbind result_bind mret result_mret] in H.

Lemma seek_cur_back_pos m f :
  (0 < m)%nat -> seek_cur (-1) (advance m f) = Ok (advance (m - 1) f).
Proof.
  intros H. destruct m as [|m]; [lia|]. rewrite seek_cur_back.
  do 2 f_equal. lia.
Qed.

Lemma advance_eq n m f : n = m -> advance n f = advance m f.
Proof. now intros ->. Qed.

Ltac binds := cbn [mbind result_mbind result_bind mret result_mret].

Ltac solve_advance :=
  do 2 f_equal; apply advance_eq; cbn [length unread app]; lia.

Lemma bytes_in_nil s : bytes_in [] s = true.
Proof. destruct s; reflexivity. Qed.

Lemma eat_whitespace_at_eof fuel : forall f,
  remaining f = [] -> eat_whitespace fuel f = OutOfFuel.
Proof.
  induction fuel as [|fuel IH]; intros f H; [reflexivity|].
  step eat_whitespace. rewrite (read_1_eof _ H). rewrite bytes_in_nil.
  cbn [negb]. apply IH. now apply remaining_eof_advance.
Qed.

Lemma eat_whitespace_run ws : forall fuel f c rest,
  remaining f = ws ++ c :: rest ->
  forallb is_whitespace ws = true ->
  is_whitespace c = false ->
  (length ws < fuel)%nat ->
  eat_whitespace fuel f = Ok (advance (length ws) f).
Proof.
  induction ws as [|w ws IH]; intros fuel f c rest Hrem Hws Hc Hfuel;
    (destruct fuel as [|fuel]; [simpl in Hfuel; lia|]);
    step eat_whitespace; cbn [app forallb length] in *.
  - rewrite (read_1_byte _ _ _ Hrem). fold (is_whitespace c). rewrite Hc.
    cbn [negb]. apply seek_cur_back.
  - apply andb_prop in Hws as [Hw Hws].
    rewrite (read_1_byte _ _ _ Hrem). fold (is_whitespace w). rewrite Hw.
    cbn [negb]. rewrite (IH fuel (advance 1 f) c rest); try assumption; try lia.
    + now rewrite advance_advance.
    + now apply remaining_advance_1 in Hrem.
Qed.

(** Without whitespace before the cursor nothing is skipped. *)
Lemma eat_whitespace_none fuel f c rest :
  remaining f = c :: rest -> is_whitespace c = false ->
  eat_whitespace (S fuel) f = Ok f.
Proof.
  intros Hrem Hc.
  rewrite (eat_whitespace_run [] (S fuel) f c rest Hrem); auto.
  - now rewrite advance_0.
  - simpl. lia.
Qed.

Lemma next_token_loop_run run : forall fuel token f n rest,
  remaining (advance (S n) f) = run ++ rest ->
  forallb (fun c => negb (is_delimiter_or_whitespace c)) run = true ->
  token_end rest = true ->
  (length run < fuel)%nat ->
  next_token_loop fuel token (advance (S n) f) =
    Ok (token ++ run, advance (S n + length run - unread rest) f).
Proof.
  induction run as [|c run IH]; intros fuel token f n rest Hrem Hrun Hend Hfuel;
    (destruct fuel as [|fuel]; [simpl in Hfuel; lia|]);
    step next_token_loop; cbn [app forallb length] in *.
  - rewrite app_nil_r. destruct rest as [|d rest]; cbn [unread token_end] in *.
    + rewrite (read_1_eof _ Hrem), bytes_in_nil, advance_advance.
      rewrite seek_cur_back_pos by lia. binds.
      solve_advance.
    + rewrite (read_1_byte _ _ _ Hrem).
      fold (is_delimiter_or_whitespace d). rewrite Hend, advance_advance.
      rewrite seek_cur_back_pos by lia. binds.
      solve_advance.
  - apply andb_prop in Hrun as [Hc Hrun].
    rewrite (read_1_byte _ _ _ Hrem).
    fold (is_delimiter_or_whitespace c).
    apply negb_true_iff in Hc. rewrite Hc, advance_advance.
    replace (S n + 1)%nat with (S (S n)) by lia.
    rewrite (IH fuel (token ++ [c]) f (S n) rest); try assumption; try lia.
    + rewrite <- app_assoc. cbn [app]. solve_advance.
    + apply remaining_advance_1 in Hrem. rewrite advance_advance in Hrem.
      now replace (S n + 1)%nat with (S (S n)) in Hrem by lia.
Qed.

(** A token of regular characters: [next_token] returns the characters up
    to the next delimiter or whitespace, or up to the end of the input,
    where the pushback moves the cursor onto the last byte of the token. *)
Lemma next_token_regular fuel f c run rest :
  remaining f = c :: run ++ rest ->
  forallb (fun c => negb (is_delimiter_or_whitespace c)) (c :: run) = true ->
  token_end rest = true ->
  (length run < fuel)%nat ->
  next_token fuel f =
    Ok (c :: run, advance (S (length run) - unread rest) f).
Proof.
  intros Hrem Hrun Hend Hfuel. unfold next_token.
  cbn [forallb] in Hrun. apply andb_prop in Hrun as [Hc Hrun].
  apply negb_true_iff in Hc.
  rewrite (read_1_byte _ _ _ Hrem).
  assert (Ht : tuple_in [c] [cos.HexString_PREFIX; cos.HexString_POSTFIX] = false).
  { revert Hc. clear. destruct c; intros H; try reflexivity; discriminate H. }
  rewrite Ht. fold (is_delimiter_or_whitespace c). rewrite Hc.
  replace 1%nat with (S 0) at 1 by reflexivity.
  rewrite (next_token_loop_run run fuel [c] f 0%nat rest); try assumption.
  - reflexivity.
  - now apply remaining_advance_1 in Hrem.
Qed.

(** At the end of the input [next_token] returns the empty token and
    does not move the cursor. *)
Lemma next_token_at_eof fuel f :
  remaining f = [] -> next_token fuel f = Ok ([], f).
Proof.
  intros H. unfold next_token. rewrite (read_1_eof _ H), advance_0.
  reflexivity.
Qed.

Lemma jump_to_next_line_hangs fuel : forall f,
  forallb (fun c => negb (Byte.eqb c LF || Byte.eqb c CR)) (remaining f) = true ->
  jump_to_next_line fuel f = OutOfFuel.
Proof.
  induction fuel as [|fuel IH]; intros f H; [reflexivity|].
  step jump_to_next_line.
  destruct (remaining f) as [|c rest] eqn:Hrem.
  - rewrite (read_1_eof _ Hrem). cbn [bytes_eq].
    apply IH. now rewrite remaining_eof_advance.
  - rewrite (read_1_byte _ _ _ Hrem). cbn [forallb] in H.
    apply andb_prop in H as [Hc H]. apply negb_true_iff, orb_false_iff in Hc.
    destruct Hc as [Hlf Hcr]. cbn [bytes_eq].
    rewrite Hlf, Hcr. cbn [andb].
    apply IH. now rewrite (remaining_advance_1 _ _ _ Hrem).
Qed.

(** ** Literal strings *)

Lemma bytes_eq_1 c d : bytes_eq [c] [d] = Byte.eqb c d.
Proof. cbn [bytes_eq]. now rewrite andb_true_r. Qed.

(** A literal string with no backslash and no closing parenthesis after
    the cursor is read for ever. *)
Lemma read_string_loop_hangs fuel : forall string level f,
  forallb (fun c => negb (Byte.eqb c BACKSLASH || Byte.eqb c ")"))
    (remaining f) = true ->
  read_string_loop fuel string false level f = OutOfFuel.
Proof.
  induction fuel as [|fuel IH]; intros string level f H; [reflexivity|].
  step read_string_loop.
  destruct (remaining f) as [|c rest] eqn:Hrem.
  - rewrite (read_1_eof _ Hrem). cbn [bytes_eq b list_byte_of_string andb].
    change (bytes_eq [] cos.String_POSTFIX) with false. cbn iota.
    apply IH. now rewrite remaining_eof_advance.
  - rewrite (read_1_byte _ _ _ Hrem). cbn [forallb] in H.
    apply andb_prop in H as [Hc H]. apply negb_true_iff, orb_false_iff in Hc.
    destruct Hc as [Hbs Hcl].
    assert (Hrest : forallb (fun c => negb (Byte.eqb c BACKSLASH || Byte.eqb c ")"))
                      (remaining (advance 1 f)) = true)
      by now rewrite (remaining_advance_1 _ _ _ Hrem).
    change (b "(") with ["("%byte]. change (b ")") with [")"%byte].
    change cos.String_POSTFIX with [")"%byte].
    rewrite !bytes_eq_1, Hbs, Hcl. cbn [andb].
    destruct (Byte.eqb c "("); now apply IH.
Qed.

(** Balanced parentheses do not end the string; the loop goes on to the
    closing parenthesis that follows them, and adds to the string the
    characters that are no parentheses. *)
Lemma read_string_loop_balanced body : forall fuel string level f rest,
  remaining f = body ++ ")"%byte :: rest ->
  no_backslash body = true ->
  balanced level body = true ->
  (length body < fuel)%nat ->
  read_string_loop fuel string false level f =
    Ok (string ++ List.filter (fun c => negb (is_parenthesis c)) body,
        advance (S (length body)) f).
Proof.
  induction body as [|c body IH]; intros fuel string level f rest Hrem Hbs Hbal Hfuel;
    (destruct fuel as [|fuel]; [simpl in Hfuel; lia|]);
    step read_string_loop; cbn [app length balanced no_backslash forallb List.filter] in *;
    rewrite (read_1_byte _ _ _ Hrem);
    change (b "(") with ["("%byte]; change (b ")") with [")"%byte];
    change cos.String_POSTFIX with [")"%byte]; rewrite !bytes_eq_1.
  - apply Nat.eqb_eq in Hbal. subst level.
    change (Byte.eqb ")" BACKSLASH) with false.
    change (Byte.eqb ")" "(") with false.
    change (Byte.eqb ")" ")") with true. cbn [andb Nat.ltb Nat.leb].
    now rewrite app_nil_r.
  - apply andb_prop in Hbs as [Hc Hbs]. apply negb_true_iff in Hc.
    rewrite Hc. unfold is_parenthesis.
    pose proof (remaining_advance_1 _ _ _ Hrem) as Hrem'.
    destruct (Byte.eqb c "(") eqn:Hopen; cbn [orb negb].
    + rewrite (IH fuel string (S level) (advance 1 f) rest); auto; try lia.
      rewrite advance_advance. solve_advance.
    + destruct (Byte.eqb c ")") eqn:Hclose; cbn [orb negb andb].
      * destruct level as [|level]; [discriminate|].
        cbn [Nat.ltb Nat.leb Nat.pred].
        rewrite (IH fuel string level (advance 1 f) rest); auto; try lia.
        rewrite advance_advance. solve_advance.
      * rewrite (IH fuel (string ++ [c]) level (advance 1 f) rest); auto; try lia.
        rewrite <- app_assoc. cbn [app].
        rewrite advance_advance. solve_advance.
Qed.

(** ** Octal escapes *)

Lemma octal_digit_cases d :
  is_octal_digit d = true ->
  In d [x30; x31; x32; x33; x34; x35; x36; x37].
Proof. destruct d; intros H; try discriminate H; simpl; tauto. Qed.

Ltac octal_cases d H :=
  apply octal_digit_cases in H; cbn [In] in H;
  repeat (destruct H as [H|H]; [subst d|]); [..|contradiction].

Lemma py_int_octal ds :
  forallb is_octal_digit ds = true ->
  (1 <= length ds <= 3)%nat ->
  py_int 8 ds = Some (octal_value ds).
Proof.
  intros Hds Hlen.
  destruct ds as [|d1 [|d2 [|d3 [|d4 ds]]]]; cbn [length] in Hlen; try lia;
    cbn [forallb] in Hds;
    repeat match type of Hds with
           | (_ && _ = true) => apply andb_prop in Hds as [? Hds]
           end; clear Hds Hlen.
  - octal_cases d1 H; reflexivity.
  - octal_cases d1 H; octal_cases d2 H0; reflexivity.
  - octal_cases d1 H; octal_cases d2 H0; octal_cases d3 H1; reflexivity.
Qed.

Lemma octal_digit_is_digit d : is_octal_digit d = true -> is_ascii_digit d = true.
Proof. intros H. octal_cases d H; reflexivity. Qed.

Lemma octal_digit_not_escape_char d :
  is_octal_digit d = true ->
  bytes_in [d] escape_chars = false /\ Byte.eqb d LF = false /\
  Byte.eqb d CR = false.
Proof. intros H. octal_cases d H; repeat split; reflexivity. Qed.

Lemma fold_octal_nonneg ds : forall acc,
  0 <= acc -> forallb is_octal_digit ds = true ->
  0 <= fold_left (fun acc c => acc * 8 + (ord c - 48)) ds acc.
Proof.
  induction ds as [|d ds IH]; intros acc Hacc Hds; cbn [fold_left forallb] in *.
  - assumption.
  - apply andb_prop in Hds as [Hd Hds]. apply IH; [|assumption].
    unfold is_octal_digit in Hd. apply andb_prop in Hd as [H1 H2].
    apply Z.leb_le in H1, H2. lia.
Qed.

Lemma octal_value_nonneg ds :
  forallb is_octal_digit ds = true -> 0 <= octal_value ds.
Proof. intros H. now apply fold_octal_nonneg. Qed.

(** The byte of a value below 256. *)
Lemma byte_of_Z_small v :
  0 <= v < 256 -> exists c, byte_of_Z v = Some c /\ ord c = v.
Proof.
  intros Hv. unfold byte_of_Z.
  destruct (Z.ltb_spec v 0) as [H|_]; [lia|].
  destruct (Byte.of_N (Z.to_N v)) as [c|] eqn:Hc.
  - exists c. split; [reflexivity|]. apply Byte.to_of_N in Hc.
    unfold ord. rewrite Hc. lia.
  - apply Byte.of_N_None_iff in Hc. lia.
Qed.

Lemma pack_B_small v c : byte_of_Z v = Some c -> 0 <= v < 256 -> pack_B v = Ok [c].
Proof.
  intros Hc Hv. unfold pack_B. rewrite Hc.
  destruct (Z.leb_spec 0 v); [|lia]. destruct (Z.leb_spec v 255); [|lia].
  reflexivity.
Qed.

Lemma isdigit_1 c : isdigit [c] = is_ascii_digit c.
Proof. cbn [isdigit forallb]. now rewrite andb_true_r. Qed.

(** The extra digits of an octal escape. *)
Lemma read_octal_digits_run more : forall n char f tail,
  remaining f = more ++ tail ->
  forallb is_ascii_digit more = true ->
  (length more <= n)%nat ->
  (length more = n \/ exists c tail', tail = c :: tail' /\ is_ascii_digit c = false) ->
  read_octal_digits n char f = Ok (char ++ more, advance (length more) f).
Proof.
  induction more as [|d more IH]; intros n char f tail Hrem Hdig Hlen Hend;
    cbn [app length forallb] in *.
  - rewrite app_nil_r, advance_0. destruct n as [|n]; [reflexivity|].
    destruct Hend as [Hend|(c & tail' & -> & Hc)]; [discriminate|].
    step read_octal_digits. rewrite (read_1_byte _ _ _ Hrem), isdigit_1, Hc.
    rewrite seek_cur_back, advance_0. reflexivity.
  - destruct n as [|n]; [lia|]. apply andb_prop in Hdig as [Hd Hdig].
    step read_octal_digits. rewrite (read_1_byte _ _ _ Hrem), isdigit_1, Hd.
    rewrite (IH n (char ++ [d]) (advance 1 f) tail); try assumption; try lia.
    + rewrite <- app_assoc, advance_advance. reflexivity.
    + now apply remaining_advance_1 in Hrem.
    + destruct Hend as [Hend|Hend]; [left; lia|now right].
Qed.

(** The step of [read_string] at an octal escape. *)
Lemma read_string_octal_step fuel string level f digits tail :
  remaining f = BACKSLASH :: digits ++ tail ->
  forallb is_octal_digit digits = true ->
  (1 <= length digits <= 3)%nat ->
  octal_escape_end digits tail = true ->
  octal_value digits < 256 ->
  exists c, ord c = octal_value digits /\
    read_string_loop (S (S fuel)) string false level f =
    read_string_loop fuel (string ++ [c]) false level
      (advance (S (length digits)) f).
Proof.
  intros Hrem Hdig Hlen Hend Hval.
  destruct (byte_of_Z_small (octal_value digits)) as (c & Hc & Hord).
  { split; [now apply octal_value_nonneg | assumption]. }
  exists c. split; [assumption|].
  destruct digits as [|d more]; [cbn [length] in Hlen; lia|].
  pose proof Hdig as Hdig'. cbn [forallb] in Hdig'.
  apply andb_prop in Hdig' as [Hd Hmore].
  destruct (octal_digit_not_escape_char d Hd) as (Hesc & Hlf & Hcr).
  cbn [app] in Hrem.
  pose proof (remaining_advance_1 _ _ _ Hrem) as Hrem1.
  pose proof (remaining_advance_1 _ _ _ Hrem1) as Hrem2.
  step read_string_loop. rewrite (read_1_byte _ _ _ Hrem).
  rewrite bytes_eq_1. change (Byte.eqb BACKSLASH BACKSLASH) with true.
  cbn iota. step read_string_loop. rewrite (read_1_byte _ _ _ Hrem1).
  unfold read_string_escape. rewrite Hesc, !bytes_eq_1, Hlf, Hcr, isdigit_1.
  rewrite (octal_digit_is_digit d Hd).
  rewrite (read_octal_digits_run more 2 [d] _ tail Hrem2).
  - binds. cbn [app]. rewrite (py_int_octal (d :: more) Hdig Hlen).
    rewrite (pack_B_small _ c Hc).
    + binds. rewrite !advance_advance. f_equal;
        try (apply advance_eq; cbn [length]; lia).
    + split; [now apply octal_value_nonneg | assumption].
  - clear -Hmore. induction more as [|x more IH]; [reflexivity|].
    cbn [forallb] in *. apply andb_prop in Hmore as [Hx Hmore].
    now rewrite (octal_digit_is_digit x Hx), IH.
  - cbn [length] in Hlen. lia.
  - unfold octal_escape_end in Hend. cbn [length] in Hend, Hlen.
    apply orb_prop in Hend as [Hend|Hend].
    + left. apply Nat.eqb_eq in Hend. lia.
    + right. destruct tail as [|x tail']; [discriminate|].
      exists x, tail'. split; [reflexivity|]. now apply negb_true_iff.
Qed.

(** ** Numbers and references *)

Lemma number_char_classes c :
  is_number_char c = true ->
  is_whitespace c = false /\ is_delimiter_or_whitespace c = false.
Proof. destruct c; intros H; try discriminate H; split; reflexivity. Qed.



Lemma read_number_loop_run run : forall fuel acc f c rest,
  remaining f = run ++ c :: rest ->
  forallb is_number_char run = true ->
  is_number_char c = false ->
  (length run < fuel)%nat ->
  read_number_loop fuel acc f = Ok (acc ++ run, advance (length run) f).
Proof.
  induction run as [|d run IH]; intros fuel acc f c rest Hrem Hrun Hc Hfuel;
    (destruct fuel as [|fuel]; [simpl in Hfuel; lia|]);
    step read_number_loop; cbn [app forallb length] in *;
    rewrite (read_1_byte _ _ _ Hrem).
  - fold (is_number_char c). rewrite Hc. cbn [negb].
    rewrite seek_cur_back. binds. now rewrite app_nil_r.
  - apply andb_prop in Hrun as [Hd Hrun].
    fold (is_number_char d). rewrite Hd. cbn [negb].
    rewrite (IH fuel (acc ++ [d]) (advance 1 f) c rest); try assumption; try lia.
    + rewrite <- app_assoc, advance_advance. reflexivity.
    + now apply remaining_advance_1 in Hrem.
Qed.

(** [read_number_text] skips the whitespace and returns the run of number
    characters, which may be empty. *)
Lemma read_number_text_run fuel f ws run c rest :
  remaining f = ws ++ run ++ c :: rest ->
  forallb is_whitespace ws = true ->
  forallb is_number_char run = true ->
  is_number_char c = false ->
  (run = [] -> is_whitespace c = false) ->
  (length ws + length run < fuel)%nat ->
  read_number_text fuel f = Ok (run, advance (length ws + length run) f).
Proof.
  intros Hrem Hws Hrun Hc Hcw Hfuel. unfold read_number_text.
  assert (Hhead : exists x tail, run ++ c :: rest = x :: tail /\ is_whitespace x = false).
  { destruct run as [|x run'].
    - exists c, rest. auto.
    - exists x, (run' ++ c :: rest). split; [reflexivity|].
      cbn [forallb] in Hrun. apply andb_prop in Hrun as [Hx _].
      now apply number_char_classes in Hx as [Hx _]. }
  destruct Hhead as (x & tail & Heq & Hx).
  rewrite (eat_whitespace_run ws fuel f x tail); try assumption; try lia.
  - binds. apply (remaining_advance ws) in Hrem.
    rewrite (read_number_loop_run run fuel [] _ c rest Hrem); try assumption; try lia.
    now rewrite advance_advance.
  - now rewrite <- Heq.
Qed.

Lemma make_number_Integer text v indirect :
  py_int 10 text = Some v ->
  make_number text indirect = Ok (cos.Integer v indirect).
Proof. intros H. unfold make_number, cos.parse_Integer. now rewrite H. Qed.

Lemma read_number_Integer fuel indirect f ws run c rest v :
  remaining f = ws ++ run ++ c :: rest ->
  forallb is_whitespace ws = true ->
  forallb is_number_char run = true ->
  py_int 10 run = Some v ->
  is_number_char c = false ->
  (length ws + length run < fuel)%nat ->
  read_number fuel indirect f =
    Ok (cos.Integer v indirect, advance (length ws + length run) f).
Proof.
  intros Hrem Hws Hrun Hv Hc Hfuel. unfold read_number.
  rewrite (read_number_text_run fuel f ws run c rest); try assumption.
  - binds. rewrite (make_number_Integer _ _ _ Hv). reflexivity.
  - intros ->. discriminate Hv.
Qed.





(** *** What [next_item] returns when it returns a plain integer *)

Lemma eat_whitespace_content fuel : forall f f',
  eat_whitespace fuel f = Ok f' -> content f' = content f.
Proof.
  induction fuel as [|fuel IH]; intros f f' H; [discriminate|].
  step_in eat_whitespace H.
  destruct (read 1 f) as [char f1] eqn:Hread.
  assert (Hc : content f1 = content f)
    by (rewrite <- (read_content 1 f), Hread; reflexivity).
  destruct (negb (bytes_in char cos.WHITESPACE)).
  - apply seek_cur_content in H. congruence.
  - apply IH in H. congruence.
Qed.

Lemma next_token_loop_content fuel : forall token f token' f',
  next_token_loop fuel token f = Ok (token', f') -> content f' = content f.
Proof.
  induction fuel as [|fuel IH]; intros token f token' f' H; [discriminate|].
  step_in next_token_loop H.
  destruct (read 1 f) as [char f1] eqn:Hread.
  assert (Hc : content f1 = content f)
    by (rewrite <- (read_content 1 f), Hread; reflexivity).
  destruct (bytes_in char (cos.DELIMITERS ++ cos.WHITESPACE)).
  - destruct (seek_cur (-1) f1) as [f2| |] eqn:Hs; binds_in H; try discriminate.
    injection H as _ <-. apply seek_cur_content in Hs. congruence.
  - apply IH in H. congruence.
Qed.

Lemma next_token_content fuel f token f' :
  next_token fuel f = Ok (token, f') -> content f' = content f.
Proof.
  unfold next_token.
  destruct (read 1 f) as [t f1] eqn:Hread.
  assert (Hc : content f1 = content f)
    by (rewrite <- (read_content 1 f), Hread; reflexivity).
  destruct (tuple_in t _).
  - destruct (read 1 f1) as [char f2] eqn:Hread2.
    assert (Hc2 : content f2 = content f1)
      by (rewrite <- (read_content 1 f1), Hread2; reflexivity).
    destruct (bytes_eq char t).
    + intros [= _ <-]. congruence.
    + destruct (seek_cur (-1) f2) as [f3| |] eqn:Hs; binds; try discriminate.
      intros [= _ <-]. apply seek_cur_content in Hs. congruence.
  - destruct (bytes_in t _).
    + intros [= _ <-]. congruence.
    + intros H. apply next_token_loop_content in H. congruence.
Qed.





(** ** Cross-reference records *)

Lemma parse_xref_records_below count : forall identifier xref f step,
  parse_xref_records count identifier xref f = Ok step ->
  forall k, k < identifier -> flow_xref step !! k = xref !! k.
Proof.
  induction count as [|count IH]; intros identifier xref f step H k Hk.
  - cbn in H. injection H as <-. reflexivity.
  - step_in parse_xref_records H.
    destruct (read 20 f) as [line f1].
    destruct (line !! 17%nat) as [marker|]; [|discriminate H].
    destruct (ord marker =? 110).
    + destruct (py_int 10 (firstn 10 line)) as [address|];
        [|injection H as <-; reflexivity].
      destruct (py_int 10 (firstn 5 (skipn 11 line))) as [generation|];
        [|injection H as <-; reflexivity].
      rewrite (IH _ _ _ _ H k) by lia.
      apply lookup_insert_ne. lia.
    + destruct (negb (ord marker =? 102)); [discriminate H|].
      destruct (py_int 10 (firstn 5 (skipn 11 line))) as [generation|];
        [|injection H as <-; reflexivity].
      destruct (generation =? 65535); [|discriminate H].
      apply (IH _ _ _ _ H k). lia.
Qed.

Lemma read_line line rest f :
  remaining f = line ++ rest -> length line = 20%nat ->
  read 20 f = (line, advance 20 f).
Proof. intros Hrem Hlen. rewrite <- Hlen. now apply (read_prefix line rest). Qed.

(** A free record. *)
Lemma parse_xref_records_free count identifier xref f line rest :
  remaining f = line ++ rest -> length line = 20%nat ->
  line !! 17%nat = Some "f"%byte ->
  parse_xref_records (S count) identifier xref f =
    match py_int 10 (generation_field line) with
    | None => Ok (Break xref (advance 20 f))
    | Some generation =>
        if generation =? 65535 then
          parse_xref_records count (identifier + 1) xref (advance 20 f)
        else Raise AssertionError
    end.
Proof.
  intros Hrem Hlen Hmark. step parse_xref_records.
  rewrite (read_line line rest f Hrem Hlen), Hmark. reflexivity.
Qed.

(** A record in use. *)
Lemma parse_xref_records_in_use count identifier xref f line rest :
  remaining f = line ++ rest -> length line = 20%nat ->
  line !! 17%nat = Some "n"%byte ->
  parse_xref_records (S count) identifier xref f =
    match py_int 10 (firstn 10 line), py_int 10 (generation_field line) with
    | Some address, Some _ =>
        parse_xref_records count (identifier + 1)
          (<[identifier := address]> xref) (advance 20 f)
    | _, _ => Ok (Break xref (advance 20 f))
    end.
Proof.
  intros Hrem Hlen Hmark. step parse_xref_records.
  rewrite (read_line line rest f Hrem Hlen), Hmark. reflexivity.
Qed.

(** ** Cross-reference streams *)

Ltac absurd_result H :=
  repeat first
    [ discriminate H
    | progress binds_in H
    | match type of H with
      | context [@mbind _ _ _ _ _ ?m] => destruct m as [?| |]
      | context [let '(_, _) := ?x in _] => destruct x
      end ].

Lemma parse_xref_stream_not_Ok F fuel offset self r :
  parse_xref_stream F fuel offset self <> Ok r.
Proof. intros H. unfold parse_xref_stream in H. absurd_result H. Qed.

(** ** The trailer chain *)

Lemma update_lookup_newer (older newer : gmap Z Z) k v :
  newer !! k = Some v -> update older newer !! k = Some v.
Proof. intros H. unfold update. now apply lookup_union_Some_l. Qed.

Lemma update_lookup_older (older newer : gmap Z Z) k :
  newer !! k = None -> update older newer !! k = older !! k.
Proof. intros H. unfold update. now apply lookup_union_r. Qed.

(** ** The object cache *)

Ltac binds_ok H :=
  repeat first
    [ progress binds_in H
    | match type of H with
      | context [@mbind _ _ _ _ _ ?m] =>
          let E := fresh "E" in
          destruct m as [?| |] eqn:E; [|discriminate H|discriminate H]
      | context [let '(_, _) := ?x in _] => destruct x
      end ].

Lemma seek_cursor z f f' : seek z f = Ok f' -> Z.of_nat (cursor f') = z.
Proof.
  unfold seek. destruct (Z.ltb_spec z 0) as [?|Hz]; [discriminate|].
  intros [= <-]. cbn [cursor]. lia.
Qed.

(** A parse of an indirect object leaves the table and the cache as they
    are, puts the cursor back and gives the object a new identity. *)
Lemma parse_indirect_object_state F fuel address self identifier obj self' :
  parse_indirect_object F fuel address self = Ok (identifier, obj, self') ->
  _xref self' = _xref self /\ objects self' = objects self /\
  cursor (file self') = cursor (file self) /\
  object_id obj = allocated self /\ allocated self' = S (allocated self).
Proof.
  intros H. unfold parse_indirect_object in H. binds_ok H.
  injection H as _ <- <-. cbn [_xref objects file allocated object_id].
  repeat split; try reflexivity.
  match goal with
  | E : seek (tell (file self)) _ = Ok _ |- _ => apply seek_cursor in E;
      unfold tell in E; lia
  end.
Qed.

Lemma getitem_cached F fuel identifier self obj :
  objects self !! identifier = Some obj ->
  __getitem__ F fuel identifier self = Ok (obj, self).
Proof. intros H. unfold __getitem__. now rewrite H. Qed.

Lemma getitem_miss F fuel identifier self obj self' :
  objects self !! identifier = None ->
  __getitem__ F fuel identifier self = Ok (obj, self') ->
  exists address parsed,
    _xref self !! identifier = Some address /\
    parse_indirect_object F fuel address self = Ok (identifier, obj, parsed) /\
    self' = __setitem__ identifier obj parsed.
Proof.
  intros Hmiss H. unfold __getitem__ in H. rewrite Hmiss in H.
  destruct (_xref self !! identifier) as [address|] eqn:Hx; [|discriminate H].
  destruct (parse_indirect_object F fuel address self)
    as [[[i o] parsed]| |] eqn:Hp; binds_in H; try discriminate H.
  unfold assert in H. destruct (Z.eqb_spec i identifier) as [->|];
    binds_in H; [|discriminate H].
  injection H as Ho Hs. subst o self'. exists address, parsed. auto.
Qed.

Lemma getitem_after_delete F fuel identifier self self' :
  __delitem__ identifier self = Ok self' ->
  __getitem__ F fuel identifier self' = Raise KeyError.
Proof.
  unfold __delitem__. destruct (_xref self !! identifier); [|discriminate].
  destruct (objects self !! identifier); [|discriminate].
  intros [= <-]. unfold __getitem__. cbn [objects _xref].
  now rewrite !lookup_delete_eq.
Qed.

(** ** The predictor decoder *)

Lemma add_prediction_back x p :
  0 <= x < 256 -> ((x - p) mod 256 + p) mod 256 = x.
Proof.
  intros Hx. rewrite Zplus_mod_idemp_l.
  replace (x - p + p) with x by lia. now apply Z.mod_small.
Qed.

Lemma is_byte_row_cons x row :
  is_byte_row (x :: row) = true -> 0 <= x < 256 /\ is_byte_row row = true.
Proof.
  unfold is_byte_row. cbn [forallb]. intros H.
  apply andb_prop in H as [Hx Hrow]. apply andb_prop in Hx as [H0 H1].
  apply Z.leb_le in H0. apply Z.ltb_lt in H1. auto.
Qed.

Lemma paeth_predictor_spec a c d : paeth_predictor a c d = spec_paeth_predict a c d.
Proof. reflexivity. Qed.

(** Decoding inverts the encoder of the specification for the tags Sub,
    Up and Average. *)
Lemma sub_round_trip row : forall left upper_left above_row,
  is_byte_row row = true -> length above_row = length row ->
  reconstruct_sub left (spec_encode_row SUB left upper_left row above_row) = row.
Proof.
  induction row as [|x row IH]; intros left upper_left [|above above_row] Hrow Hlen;
    try discriminate Hlen; [reflexivity|].
  apply is_byte_row_cons in Hrow as [Hx Hrow]. injection Hlen as Hlen.
  cbn [spec_encode_row reconstruct_sub].
  change (spec_prediction SUB left above upper_left) with left.
  rewrite (add_prediction_back x left Hx). f_equal. now apply IH.
Qed.

Lemma up_round_trip row : forall left upper_left above_row,
  is_byte_row row = true -> length above_row = length row ->
  reconstruct_up (spec_encode_row UP left upper_left row above_row) above_row
  = row.
Proof.
  induction row as [|x row IH]; intros left upper_left [|above above_row] Hrow Hlen;
    try discriminate Hlen; [reflexivity|].
  apply is_byte_row_cons in Hrow as [Hx Hrow]. injection Hlen as Hlen.
  cbn [spec_encode_row reconstruct_up].
  change (spec_prediction UP left above upper_left) with above.
  rewrite (add_prediction_back x above Hx). f_equal. now apply IH.
Qed.

Lemma average_round_trip row : forall left upper_left above_row,
  is_byte_row row = true -> length above_row = length row ->
  reconstruct_average left
    (spec_encode_row AVERAGE left upper_left row above_row) above_row = row.
Proof.
  induction row as [|x row IH]; intros left upper_left [|above above_row] Hrow Hlen;
    try discriminate Hlen; [reflexivity|].
  apply is_byte_row_cons in Hrow as [Hx Hrow]. injection Hlen as Hlen.
  cbn [spec_encode_row reconstruct_average].
  change (spec_prediction AVERAGE left above upper_left)
    with ((left + above) / 2).
  rewrite (add_prediction_back x _ Hx). f_equal. now apply IH.
Qed.

(** For Paeth it does so when the previous row is all zeros, as it is for
    the first row. *)
Lemma paeth_round_trip_first_row row : forall left,
  is_byte_row row = true ->
  reconstruct_paeth left 0
    (spec_encode_row PAETH left 0 row (repeat 0 (length row)))
    (repeat 0 (length row)) = row.
Proof.
  induction row as [|x row IH]; intros left Hrow; [reflexivity|].
  apply is_byte_row_cons in Hrow as [Hx Hrow].
  cbn [length repeat spec_encode_row reconstruct_paeth].
  change (spec_prediction PAETH left 0 0) with (spec_paeth_predict left 0 0).
  change (paeth_predictor left 0 0) with (spec_paeth_predict left 0 0).
  rewrite (add_prediction_back x _ Hx). f_equal.
  now apply IH.
Qed.

Lemma none_round_trip row : forall left upper_left above_row,
  is_byte_row row = true -> length above_row = length row ->
  spec_encode_row NONE left upper_left row above_row = row.
Proof.
  induction row as [|x row IH]; intros left upper_left [|above above_row] Hrow Hlen;
    try discriminate Hlen; [reflexivity|].
  apply is_byte_row_cons in Hrow as [Hx Hrow]. injection Hlen as Hlen.
  cbn [spec_encode_row]. change (spec_prediction NONE left above upper_left) with 0.
  rewrite Z.sub_0_r, Z.mod_small by assumption. f_equal. now apply IH.
Qed.

(** * The claims of the specification *)

(** ** C1: the newer generation wins *)

(** C1.  When [parse_trailer] merges the older tables reached through
    [Prev] into the table of the reader, no entry that the table already
    has is overwritten: every identifier that the newer table maps to an
    offset is mapped to that same offset by the merged table that
    [parse_trailer] leaves in the reader. *)
Theorem newer_generation_wins F fuel : forall self trailer self',
  parse_trailer F fuel self = Ok (trailer, self') ->
  forall identifier offset,
    _xref self !! identifier = Some offset ->
    _xref self' !! identifier = Some offset.
Proof.
  induction fuel as [|fuel IH]; intros self trailer self' H identifier offset Hk;
    [discriminate H|].
  step_in parse_trailer H.
  destruct (next_token fuel (file self)) as [[token f]| |]; binds_in H;
    try discriminate H.
  destruct (assert _); binds_in H; try discriminate H.
  destruct (jump_to_next_line fuel f) as [f1| |]; binds_in H; try discriminate H.
  destruct (next_item F fuel false f1) as [[trailer_dict f2]| |]; binds_in H;
    try discriminate H.
  destruct (cos.contains (b "XRefStm") trailer_dict) as [[|]| |]; binds_in H;
    try discriminate H.
  - destruct (cos.subscript (b "XRefStm") trailer_dict) as [entry| |];
      binds_in H; try discriminate H.
    destruct (cos.to_int entry) as [at_| |]; binds_in H; try discriminate H.
    destruct (parse_xref_stream F fuel at_ (set_file f2 self)) as [r| |] eqn:E;
      binds_in H; try discriminate H.
    now apply parse_xref_stream_not_Ok in E.
  - destruct (cos.contains (b "Prev") trailer_dict) as [[|]| |]; binds_in H;
      try discriminate H.
    + destruct (cos.subscript (b "Prev") trailer_dict) as [entry| |];
        binds_in H; try discriminate H.
      destruct (cos.to_int entry) as [at_| |]; binds_in H; try discriminate H.
      destruct (parse_xref_table fuel at_ (file (set_file f2 self)))
        as [[prev_xref f3]| |]; binds_in H; try discriminate H.
      match type of H with
      | context [parse_trailer F fuel ?s] =>
          destruct (parse_trailer F fuel s) as [[t s']| |] eqn:E
      end; binds_in H; try discriminate H.
      injection H as _ <-.
      apply (IH _ _ _ E). cbn [_xref set_xref set_file].
      now apply update_lookup_newer.
    + injection H as _ <-. exact Hk.
Qed.

(** On the file of two generations: the older table maps 5 to 45, the
    newer maps 5 to 192, and the merged table maps 5 to 192 (and 1 to 9,
    which only the older table defines). *)
Lemma newer_generation_wins_witness :
  let newest := Reader (File two_generations 242) {[5 := 192]} ∅ ∅ 0 in
  exists older f trailer self',
    parse_xref_table 300 66 (File two_generations 0) = Ok (older, f) /\
    older !! 5 = Some 45 /\
    parse_trailer [] 300 newest = Ok (trailer, self') /\
    _xref self' !! 5 = Some 192 /\
    _xref self' !! 1 = Some 9.
Proof.
  intros newest. eexists _, _, _, _.
  split; [vm_compute; reflexivity|].
  split; [vm_compute; reflexivity|].
  split; [vm_compute; reflexivity|].
  split; [|vm_compute; reflexivity].
  eapply (newer_generation_wins [] 300 newest).
  - vm_compute. reflexivity.
  - vm_compute. reflexivity.
Defined.

(** The constructor builds that merged table. *)
Example two_generations_document :
  exists d, __init__ [] 300 two_generations = Ok d /\
    _xref (reader d) !! 5 = Some 192 /\ _xref (reader d) !! 1 = Some 9.
Proof. eexists. split; [vm_compute; reflexivity|]. split; vm_compute; reflexivity. Qed.

(** ** C2: numbers and references *)



(** ** C10: the lexer at the end of the input *)

(** C10, as the code has it.  The empty bytes object that a read at the
    end of the input returns is [in] every bytes constant.  So
    [eat_whitespace] called at the end of the input takes the empty read
    for whitespace and reads on for ever, and [next_token] called there
    returns the empty token and leaves the cursor at the end, without a
    pushback.  The pushback [seek(-1, SEEK_CUR)] at the end of the input
    happens in the loop of [next_token] over regular characters: when the
    token runs up to the end of the input, the cursor is moved one byte
    before the end, onto the last byte of the token. *)
Theorem lexer_at_end_of_input fuel f :
  (remaining f = [] ->
     eat_whitespace fuel f = OutOfFuel /\ next_token fuel f = Ok ([], f)) /\
  (forall c run,
     remaining f = c :: run ->
     forallb (fun c => negb (is_delimiter_or_whitespace c)) (c :: run) = true ->
     (length run < fuel)%nat ->
     next_token fuel f = Ok (c :: run, advance (length run) f)).
Proof.
  split.
  - intros H. split; [now apply eat_whitespace_at_eof|now apply next_token_at_eof].
  - intros c run Hrem Hrun Hfuel.
    rewrite (next_token_regular fuel f c run []); auto.
    + do 2 f_equal. apply advance_eq. cbn [unread]. lia.
    + now rewrite app_nil_r.
Qed.

Lemma lexer_at_end_of_input_witness :
  (eat_whitespace 10 (File (b "ab") 2) = OutOfFuel /\
   next_token 10 (File (b "ab") 2) = Ok ([], File (b "ab") 2)) /\
  next_token 10 (File (b "ab") 0) = Ok (b "ab", File (b "ab") 1).
Proof.
  split.
  - exact (proj1 (lexer_at_end_of_input 10 (File (b "ab") 2)) eq_refl).
  - exact (proj2 (lexer_at_end_of_input 10 (File (b "ab") 0))
             "a"%byte (b "b") eq_refl eq_refl ltac:(vm_compute; lia)).
Defined.

(** C10 as stated fails: called with the cursor at the end of the input
    [ab], [next_token] leaves the cursor at the end (2) and does not move
    it to the byte before the end (1). *)
Lemma next_token_at_end_cex :
  exists token f,
    next_token 10 (File (b "ab") 2) = Ok (token, f) /\ cursor f <> 1%nat.
Proof. eexists _, _. split; [vm_compute; reflexivity|]. cbn. lia. Qed.

(** ** C7: truncated input *)

(** C7, as the code has it.  A read at the end of the input returns the
    empty bytes object and the loops of the reader do not test for it, so
    a truncated input raises no error there: on an input with no line
    terminator after the cursor [jump_to_next_line] reads on for ever,
    and on an input with no backslash and no closing parenthesis after
    the cursor [read_string] reads on for ever. *)
Theorem truncated_input_is_read_for_ever fuel f :
  (forallb (fun c => negb (Byte.eqb c LF || Byte.eqb c CR)) (remaining f) = true ->
   jump_to_next_line fuel f = OutOfFuel) /\
  (forallb (fun c => negb (Byte.eqb c BACKSLASH || Byte.eqb c ")"))
     (remaining f) = true ->
   forall indirect, read_string fuel indirect f = OutOfFuel).
Proof.
  split.
  - apply jump_to_next_line_hangs.
  - intros H indirect. unfold read_string.
    now rewrite read_string_loop_hangs.
Qed.

Lemma truncated_input_is_read_for_ever_witness :
  jump_to_next_line 1000 (File (b "startxref") 0) = OutOfFuel /\
  read_string 1000 false (File (b "(unfinished") 1) = OutOfFuel.
Proof.
  split.
  - exact (proj1 (truncated_input_is_read_for_ever 1000 (File (b "startxref") 0))
             eq_refl).
  - exact (proj2 (truncated_input_is_read_for_ever 1000 (File (b "(unfinished") 1))
             eq_refl false).
Defined.

(** C7 as stated fails: on the truncated input [startxref], with no line
    end, there is no amount of fuel with which [jump_to_next_line] ends,
    be it with an error. *)
Lemma jump_to_next_line_cex :
  ~ exists fuel, jump_to_next_line fuel (File (b "startxref") 0) <> OutOfFuel.
Proof.
  intros [fuel H]. apply H. now apply jump_to_next_line_hangs.
Qed.

(** ** C8: octal escapes *)

(** C8, as the code has it.  Inside a literal string, a backslash
    followed by one to three octal digits whose value is below 256, the
    digits being three or followed by a character that is no decimal
    digit, adds exactly one byte to the string, the byte of that value,
    and the reader goes on after the digits. *)
Theorem octal_escape_is_one_byte fuel string level f digits tail :
  remaining f = BACKSLASH :: digits ++ tail ->
  forallb is_octal_digit digits = true ->
  (1 <= length digits <= 3)%nat ->
  octal_escape_end digits tail = true ->
  octal_value digits < 256 ->
  exists c, ord c = octal_value digits /\
    read_string_loop (S (S fuel)) string false level f =
    read_string_loop fuel (string ++ [c]) false level
      (advance (S (length digits)) f).
Proof. apply read_string_octal_step. Qed.

(** The escape [\101] is the byte 0x41. *)
Lemma octal_escape_is_one_byte_witness :
  octal_value (b "101") = 65 /\
  exists c, ord c = 65 /\
    read_string_loop 3 [] false 0 (File (b "(\101)") 1) =
    read_string_loop 1 [c] false 0 (File (b "(\101)") 5).
Proof.
  split; [reflexivity|].
  exact (octal_escape_is_one_byte 1 [] 0 (File (b "(\101)") 1) (b "101") (b ")")
           eq_refl eq_refl ltac:(vm_compute; lia) eq_refl eq_refl).
Defined.

Example octal_escape_101 :
  next_item [] 10 false (File (b "(\101)") 0)
  = Ok (cos.String [x41] false, File (b "(\101)") 6).
Proof. reflexivity. Qed.

(** C8 as stated fails for the escapes of value 256 and more: [\777] has
    the value 511, which is 255 modulo 256, and the reader raises the
    error of [struct.pack] instead of decoding a byte. *)
Lemma octal_escape_overflow_cex :
  octal_value (b "777") mod 256 = 255 /\
  next_item [] 10 false (File (b "(\777)") 0) = Raise StructError.
Proof. split; reflexivity. Qed.

(** ** C6: nested parentheses *)

(** A string body with balanced parentheses and no backslash is read up
    to the closing parenthesis that follows it; the string that is
    returned is the body without its parentheses. *)
Lemma read_string_balanced fuel indirect f body rest :
  remaining f = body ++ ")"%byte :: rest ->
  no_backslash body = true ->
  balanced 0 body = true ->
  (length body < fuel)%nat ->
  read_string fuel indirect f =
    Ok (cos.String (List.filter (fun c => negb (is_parenthesis c)) body) indirect,
        advance (S (length body)) f).
Proof.
  intros Hrem Hbs Hbal Hfuel. unfold read_string.
  rewrite (read_string_loop_balanced body fuel [] 0%nat f rest); auto.
Qed.

(** C6, at the input [(a(b)c)].  The reader does not stop at the inner
    closing parenthesis, it stops at the last one (cursor 7); but the
    string it returns is [abc]: the bytes of the nested parentheses are
    not kept. *)
Theorem nested_parentheses_are_dropped :
  next_item [] 20 false (File (b "(a(b)c) ") 0)
  = Ok (cos.String (b "abc") false, File (b "(a(b)c) ") 7).
Proof. reflexivity. Qed.

(** ** C9: free and in-use records *)

(** The record loop of [parse_xref_table], case by case.  For a 20-byte
    record of a plain table read for [identifier]:
    - with the marker [f], a generation field that reads as an integer
      other than 65535 raises the error of the [assert]; one that reads
      as 65535 records no offset for the identifier and the loop goes on
      with the next record; one that does not read as an integer ends the
      table there without an error, through the handler of
      [ValueError];
    - with the marker [n] and two fields that read as integers, the
      offset is recorded for the identifier. *)
Theorem xref_record_semantics count identifier xref f line rest :
  remaining f = line ++ rest ->
  length line = 20%nat ->
  (line !! 17%nat = Some "f"%byte ->
     (forall generation,
         py_int 10 (generation_field line) = Some generation ->
         generation <> 65535 ->
         parse_xref_records (S count) identifier xref f = Raise AssertionError) /\
     (py_int 10 (generation_field line) = Some 65535 ->
         parse_xref_records (S count) identifier xref f =
           parse_xref_records count (identifier + 1) xref (advance 20 f) /\
         forall step,
           parse_xref_records (S count) identifier xref f = Ok step ->
           flow_xref step !! identifier = xref !! identifier) /\
     (py_int 10 (generation_field line) = None ->
         parse_xref_records (S count) identifier xref f =
           Ok (Break xref (advance 20 f)))) /\
  (line !! 17%nat = Some "n"%byte ->
     forall address generation,
       py_int 10 (firstn 10 line) = Some address ->
       py_int 10 (generation_field line) = Some generation ->
       parse_xref_records (S count) identifier xref f =
         parse_xref_records count (identifier + 1)
           (<[identifier := address]> xref) (advance 20 f) /\
       forall step,
         parse_xref_records (S count) identifier xref f = Ok step ->
         flow_xref step !! identifier = Some address).
Proof.
  intros Hrem Hlen. split.
  - intros Hmark.
    pose proof (parse_xref_records_free count identifier xref f line rest
                  Hrem Hlen Hmark) as E.
    repeat split.
    + intros generation Hg Hne. rewrite E, Hg.
      destruct (Z.eqb_spec generation 65535); [contradiction|reflexivity].
    + rewrite E, H. reflexivity.
    + intros step Hstep. rewrite E, H in Hstep. cbn in Hstep.
      apply (parse_xref_records_below _ _ _ _ _ Hstep). lia.
    + intros Hg. now rewrite E, Hg.
  - intros Hmark address generation Ha Hg.
    pose proof (parse_xref_records_in_use count identifier xref f line rest
                  Hrem Hlen Hmark) as E.
    rewrite Ha, Hg in E. split; [exact E|].
    intros step Hstep. rewrite E in Hstep.
    rewrite (parse_xref_records_below _ _ _ _ _ Hstep) by lia.
    apply lookup_insert_eq.
Qed.

(** A free record of generation 0 raises the error; a record in use has
    its offset recorded. *)
Lemma xref_record_semantics_witness :
  parse_xref_records 1 3 ∅ (File (lines ["0000000000 00000 f "]) 0)
    = Raise AssertionError /\
  (forall step,
     parse_xref_records 1 3 ∅ (File (lines ["0000000045 00000 n "]) 0) = Ok step ->
     flow_xref step !! 3 = Some 45).
Proof.
  split.
  - exact (proj1 (proj1 (xref_record_semantics 0 3 ∅
                    (File (lines ["0000000000 00000 f "]) 0)
                    (lines ["0000000000 00000 f "]) [] eq_refl eq_refl) eq_refl)
             0 eq_refl ltac:(lia)).
  - exact (proj2 (proj2 (xref_record_semantics 0 3 ∅
                    (File (lines ["0000000045 00000 n "]) 0)
                    (lines ["0000000045 00000 n "]) [] eq_refl eq_refl) eq_refl
                    45 0 eq_refl eq_refl)).
Defined.

(** C9, the defect.  In the table [free_record_not_a_number] the free
    record has the generation field [6553x], which does not read as
    65535.  The conversion of the field inside the [assert] raises
    [ValueError], and the handler that ends the loop over the subsections
    takes it: [parse_xref_table] raises no error and returns the empty
    table, with the cursor after the record, so the check of the
    generation is bypassed.  In the same table with the generation 65534
    the [assert] is reached and its error is raised. *)
Theorem malformed_free_record_is_swallowed :
  py_int 10 (generation_field (b "0000000000 6553x f ")) = None /\
  parse_xref_table 50 0 (File free_record_not_a_number 0)
    = Ok (∅, File free_record_not_a_number 29) /\
  parse_xref_table 50 0 (File free_record_wrong_generation 0)
    = Raise AssertionError.
Proof.
  split; [vm_compute; reflexivity|].
  split; [vm_compute; reflexivity|].
  vm_compute. reflexivity.
Qed.

(** ** C3: the predictor decoder *)

(** C3, at a second row.  With two columns, the source holds the row
    [10, 10] under the tag None and then the row [5, 7] under the tag
    Paeth, which the encoder of the specification stores as [251, 2].
    The decoder returns the first row, and for the second row it returns
    [5, 12] and not [5, 7]: it predicts the second byte from the
    upper-left neighbour 0 and not from the upper-left neighbour 10 of
    the previous row. *)
Theorem paeth_second_row_is_not_reconstructed :
  let source := File [x00; x0a; x0a; x04; xfb; x02] 0 in
  spec_encode_row NONE 0 0 [10; 10] [0; 0] = [10; 10] /\
  spec_encode_row PAETH 0 0 [5; 7] [10; 10] = [251; 2] /\
  exists after_first after_second,
    read_from_source (Reconstructor source 2 [0; 0] [])
      = Ok ([x0a; x0a], after_first) /\
    _last_values after_first = [10; 10] /\
    read_from_source after_first = Ok ([x05; x0c], after_second) /\
    _last_values after_second = [5; 12].
Proof.
  intros source. split; [reflexivity|]. split; [reflexivity|].
  eexists _, _. repeat split.
Qed.

(** The example of the specification: the deltas [10, 10, 10] under the
    tag Sub are the row [10, 20, 30]. *)
Example sub_row_10_20_30 :
  spec_encode_row SUB 0 0 [10; 20; 30] [0; 0; 0] = [10; 10; 10] /\
  exists after,
    read_from_source
      (Reconstructor (File [x01; x0a; x0a; x0a] 0) 3 [0; 0; 0] [])
    = Ok ([x0a; x14; x1e], after).
Proof. split; [reflexivity|]. eexists. reflexivity. Qed.

(** ** C4: cross-reference streams *)

(** C4.  [parse_xref_stream] returns no table: it prints the fields of
    the stream and its last statement is [sys.exit()], so whatever the
    file, the offset and the fuel, its result is never [Ok]. *)
Theorem parse_xref_stream_never_returns F fuel offset self :
  is_Ok (parse_xref_stream F fuel offset self) = false.
Proof.
  destruct (parse_xref_stream F fuel offset self) as [r| |] eqn:E;
    [|reflexivity|reflexivity].
  now apply parse_xref_stream_not_Ok in E.
Qed.

(** The construction of a document from the hybrid file, whose stream
    table is well formed, ends in [SystemExit]. *)
Example hybrid_document_exits : __init__ [] 300 hybrid = Raise SystemExit.
Proof. vm_compute. reflexivity. Qed.

(** ** C5: the object cache *)

(** C5, as the code has it.  For an identifier that is not in the cache,
    an access that succeeds has parsed the object at the offset that the
    table gives for the identifier, the header of which has the
    identifier asked for, has left the cursor where it was, and has
    stored the object; a second access, with any fuel, returns that same
    object, of the same identity, and leaves the reader as it is; and
    [__delitem__] removes the identifier from the table as well as from
    the cache, so that an access after it raises [KeyError]: it does not
    parse the object again. *)
Theorem getitem_lazy_cached F fuel identifier self obj self' :
  objects self !! identifier = None ->
  __getitem__ F fuel identifier self = Ok (obj, self') ->
  (exists address parsed,
      _xref self !! identifier = Some address /\
      parse_indirect_object F fuel address self = Ok (identifier, obj, parsed) /\
      cursor (file parsed) = cursor (file self) /\
      self' = __setitem__ identifier obj parsed) /\
  (forall fuel', __getitem__ F fuel' identifier self' = Ok (obj, self')) /\
  (exists deleted,
      __delitem__ identifier self' = Ok deleted /\
      _xref deleted !! identifier = None /\
      objects deleted !! identifier = None /\
      forall fuel', __getitem__ F fuel' identifier deleted = Raise KeyError).
Proof.
  intros Hmiss H.
  destruct (getitem_miss F fuel identifier self obj self' Hmiss H)
    as (address & parsed & Hx & Hp & ->).
  destruct (parse_indirect_object_state F fuel address self identifier obj
              parsed Hp) as (Hxref & Hobjs & Hcur & _).
  split; [|split].
  - exists address, parsed. auto.
  - intros fuel'. apply getitem_cached. cbn [objects __setitem__].
    apply lookup_insert_eq.
  - assert (Hx' : _xref (__setitem__ identifier obj parsed) !! identifier
                  = Some address)
      by (cbn [_xref __setitem__]; now rewrite Hxref).
    assert (Ho' : objects (__setitem__ identifier obj parsed) !! identifier
                  = Some obj)
      by (cbn [objects __setitem__]; apply lookup_insert_eq).
    eexists. split; [unfold __delitem__; rewrite Hx', Ho'; reflexivity|].
    cbn [_xref objects]. rewrite !lookup_delete_eq.
    repeat split. intros fuel'.
    apply (getitem_after_delete F fuel' identifier
             (__setitem__ identifier obj parsed)).
    unfold __delitem__. now rewrite Hx', Ho'.
Qed.

(** On the file of two generations: object 5 is parsed at its offset 192
    and is the string [new]; the second access returns the same
    instance; after the deletion the access raises [KeyError]. *)
Lemma getitem_lazy_cached_witness :
  let self := Reader (File two_generations 173) {[5 := 192]} ∅ ∅ 0 in
  exists self' deleted,
    __getitem__ [] 100 5 self
      = Ok (Instance 0 (cos.String (b "new") true), self') /\
    cursor (file self') = 173%nat /\
    __getitem__ [] 1 5 self'
      = Ok (Instance 0 (cos.String (b "new") true), self') /\
    __delitem__ 5 self' = Ok deleted /\
    __getitem__ [] 100 5 deleted = Raise KeyError.
Proof.
  intros self.
  assert (H : exists self', __getitem__ [] 100 5 self
            = Ok (Instance 0 (cos.String (b "new") true), self')
            /\ cursor (file self') = 173%nat).
  { eexists. split; [vm_compute; reflexivity|]. vm_compute. reflexivity. }
  destruct H as (self' & H & Hcur).
  destruct (getitem_lazy_cached [] 100 5 self _ self' eq_refl H)
    as (_ & Hagain & deleted & Hdel & _ & _ & Hgone).
  exists self', deleted. auto.
Defined.

(** C5 as stated fails in its last part: on the document built from the
    file of two generations, after object 5 has been accessed and
    deleted, a further access does not parse the object again, it raises
    [KeyError]. *)
Lemma access_after_delete_cex :
  exists d obj accessed deleted,
    __init__ [] 300 two_generations = Ok d /\
    __getitem__ [] 100 5 (reader d) = Ok (obj, accessed) /\
    __delitem__ 5 accessed = Ok deleted /\
    __getitem__ [] 100 5 deleted = Raise KeyError.
Proof.
  eexists _, _, _, _.
  split; [vm_compute; reflexivity|].
  split; [vm_compute; reflexivity|].
  split; [vm_compute; reflexivity|].
  vm_compute. reflexivity.
Qed.

(** * Further properties of the reader *)

(** ** The lexer *)

(** X1.  [jump_to_next_line] takes LF, CR LF and a lone CR for the end of
    a line: after a text without CR and LF, the cursor is left after the
    LF, after the LF of a CR LF, or after a CR that another character
    follows.  When the CR is the last byte of the input, the pushback
    after the empty read puts the cursor back on the CR. *)
Theorem jump_to_next_line_terminators fuel f text tail :
  remaining f = text ++ tail ->
  forallb (fun c => negb (Byte.eqb c LF || Byte.eqb c CR)) text = true ->
  (length text < fuel)%nat ->
  (forall rest, tail = LF :: rest ->
     jump_to_next_line fuel f = Ok (advance (length text + 1) f)) /\
  (forall rest, tail = CR :: LF :: rest ->
     jump_to_next_line fuel f = Ok (advance (length text + 2) f)) /\
  (forall c rest, tail = CR :: c :: rest -> c <> LF ->
     jump_to_next_line fuel f = Ok (advance (length text + 1) f)) /\
  (tail = [CR] ->
     jump_to_next_line fuel f = Ok (advance (length text) f)).
Proof.
  revert fuel f.
  induction text as [|x text IH]; intros fuel f Hrem Htext Hfuel;
    (destruct fuel as [|fuel]; [simpl in Hfuel; lia|]);
    cbn [app length forallb] in *.
  - repeat split.
    + intros rest ->. step jump_to_next_line.
      rewrite (read_1_byte _ _ _ Hrem). reflexivity.
    + intros rest ->. step jump_to_next_line.
      rewrite (read_1_byte _ _ _ Hrem).
      change (bytes_eq [CR] [LF]) with false.
      change (bytes_eq [CR] [CR]) with true. cbn iota.
      apply remaining_advance_1 in Hrem.
      rewrite (read_1_byte _ _ _ Hrem).
      change (bytes_eq [LF] [LF]) with true. cbn [negb].
      now rewrite advance_advance.
    + intros c rest -> Hc. step jump_to_next_line.
      rewrite (read_1_byte _ _ _ Hrem).
      change (bytes_eq [CR] [LF]) with false.
      change (bytes_eq [CR] [CR]) with true. cbn iota.
      apply remaining_advance_1 in Hrem.
      rewrite (read_1_byte _ _ _ Hrem), bytes_eq_1.
      destruct (Byte.eqb c LF) eqn:E;
        [apply Byte.byte_dec_bl in E; contradiction|].
      cbn [negb]. rewrite advance_advance.
      rewrite seek_cur_back_pos by lia. reflexivity.
    + intros ->. step jump_to_next_line.
      rewrite (read_1_byte _ _ _ Hrem).
      change (bytes_eq [CR] [LF]) with false.
      change (bytes_eq [CR] [CR]) with true. cbn iota.
      apply remaining_advance_1 in Hrem.
      rewrite (read_1_eof _ Hrem). cbn [bytes_eq negb].
      rewrite advance_advance.
      rewrite seek_cur_back_pos by lia. reflexivity.
  - apply andb_prop in Htext as [Hx Htext].
    apply negb_true_iff, orb_false_iff in Hx. destruct Hx as [Hlf Hcr].
    assert (Hstep : jump_to_next_line (S fuel) f
                    = jump_to_next_line fuel (advance 1 f)).
    { step jump_to_next_line. rewrite (read_1_byte _ _ _ Hrem).
      now rewrite !bytes_eq_1, Hlf, Hcr. }
    rewrite Hstep.
    apply remaining_advance_1 in Hrem.
    destruct (IH fuel (advance 1 f) Hrem Htext ltac:(lia))
      as (H1 & H2 & H3 & H4).
    repeat split.
    + intros rest Ht. rewrite (H1 rest Ht), advance_advance. reflexivity.
    + intros rest Ht. rewrite (H2 rest Ht), advance_advance. reflexivity.
    + intros c rest Ht Hc. rewrite (H3 c rest Ht Hc), advance_advance.
      reflexivity.
    + intros Ht. rewrite (H4 Ht), advance_advance. reflexivity.
Qed.

Lemma jump_to_next_line_terminators_witness :
  jump_to_next_line 10 (File (b "ab" ++ [LF] ++ b "c") 0)
    = Ok (File (b "ab" ++ [LF] ++ b "c") 3) /\
  jump_to_next_line 10 (File (b "ab" ++ [CR; LF] ++ b "c") 0)
    = Ok (File (b "ab" ++ [CR; LF] ++ b "c") 4) /\
  jump_to_next_line 10 (File (b "ab" ++ [CR] ++ b "c") 0)
    = Ok (File (b "ab" ++ [CR] ++ b "c") 3) /\
  jump_to_next_line 10 (File (b "ab" ++ [CR]) 0)
    = Ok (File (b "ab" ++ [CR]) 2).
Proof.
  split; [|split; [|split]].
  - exact (proj1 (jump_to_next_line_terminators 10
             (File (b "ab" ++ [LF] ++ b "c") 0) (b "ab") ([LF] ++ b "c")
             eq_refl eq_refl ltac:(vm_compute; lia)) (b "c") eq_refl).
  - exact (proj1 (proj2 (jump_to_next_line_terminators 10
             (File (b "ab" ++ [CR; LF] ++ b "c") 0) (b "ab") ([CR; LF] ++ b "c")
             eq_refl eq_refl ltac:(vm_compute; lia))) (b "c") eq_refl).
  - exact (proj1 (proj2 (proj2 (jump_to_next_line_terminators 10
             (File (b "ab" ++ [CR] ++ b "c") 0) (b "ab") ([CR] ++ b "c")
             eq_refl eq_refl ltac:(vm_compute; lia)))) "c"%byte [] eq_refl
             ltac:(discriminate)).
  - exact (proj2 (proj2 (proj2 (jump_to_next_line_terminators 10
             (File (b "ab" ++ [CR]) 0) (b "ab") [CR]
             eq_refl eq_refl ltac:(vm_compute; lia)))) eq_refl).
Defined.

(** X2.  [eat_whitespace] moves the cursor over a run of whitespace and
    stops before the first byte that is no whitespace; the content of the
    file stays as it is. *)
Theorem eat_whitespace_skips_run fuel f ws c rest :
  remaining f = ws ++ c :: rest ->
  forallb is_whitespace ws = true ->
  is_whitespace c = false ->
  (length ws < fuel)%nat ->
  exists f', eat_whitespace fuel f = Ok f' /\
    content f' = content f /\
    cursor f' = (cursor f + length ws)%nat /\
    remaining f' = c :: rest.
Proof.
  intros Hrem Hws Hc Hfuel. exists (advance (length ws) f).
  split; [now apply (eat_whitespace_run ws fuel f c rest)|].
  split; [reflexivity|]. split; [reflexivity|].
  now apply remaining_advance.
Qed.

Lemma eat_whitespace_skips_run_witness :
  exists f', eat_whitespace 10 (File ([x20; x09; LF] ++ b "obj") 0) = Ok f' /\
    content f' = [x20; x09; LF] ++ b "obj" /\
    cursor f' = 3%nat /\ remaining f' = b "obj".
Proof.
  exact (eat_whitespace_skips_run 10 (File ([x20; x09; LF] ++ b "obj") 0)
           [x20; x09; LF] "o"%byte (b "bj")
           eq_refl eq_refl eq_refl ltac:(vm_compute; lia)).
Defined.

(** X3.  [next_token] returns a run of regular characters as one token:
    the characters up to the first delimiter or whitespace character,
    which is pushed back, so that it is the next byte to be read. *)
Theorem next_token_maximal_run fuel f c run d rest :
  remaining f = c :: run ++ d :: rest ->
  forallb (fun c => negb (is_delimiter_or_whitespace c)) (c :: run) = true ->
  is_delimiter_or_whitespace d = true ->
  (length run < fuel)%nat ->
  exists f', next_token fuel f = Ok (c :: run, f') /\
    content f' = content f /\
    cursor f' = (cursor f + S (length run))%nat /\
    remaining f' = d :: rest.
Proof.
  intros Hrem Hrun Hd Hfuel. exists (advance (S (length run)) f).
  split.
  - rewrite (next_token_regular fuel f c run (d :: rest) Hrem Hrun Hd Hfuel).
    do 2 f_equal; try (apply advance_eq; cbn [unread]; lia).
  - split; [reflexivity|]. split; [reflexivity|].
    now apply (remaining_advance (c :: run)).
Qed.

Lemma next_token_maximal_run_witness :
  exists f', next_token 10 (File (b "endobj 7") 0) = Ok (b "endobj", f') /\
    content f' = b "endobj 7" /\ cursor f' = 6%nat /\ remaining f' = b " 7".
Proof.
  exact (next_token_maximal_run 10 (File (b "endobj 7") 0)
           "e"%byte (b "ndobj") " "%byte (b "7")
           eq_refl eq_refl eq_refl ltac:(vm_compute; lia)).
Defined.

(** X4.  [next_token] on a delimiter or whitespace character: the
    character is a token of its own, except that [<] and [>] are doubled
    into [<<] and [>>] when the same character follows.  A single [<] or
    [>] before another character leaves the cursor on that character; at
    the end of the input the pushback after the empty read puts the
    cursor back on the [<] or [>] itself. *)
Theorem next_token_delimiter fuel f c rest :
  remaining f = c :: rest ->
  is_delimiter_or_whitespace c = true ->
  (c <> "<"%byte -> c <> ">"%byte ->
     next_token fuel f = Ok ([c], advance 1 f)) /\
  (c = "<"%byte \/ c = ">"%byte ->
     (forall rest', rest = c :: rest' ->
        next_token fuel f = Ok ([c; c], advance 2 f)) /\
     (forall d rest', rest = d :: rest' -> d <> c ->
        next_token fuel f = Ok ([c], advance 1 f)) /\
     (rest = [] -> next_token fuel f = Ok ([c], f))).
Proof.
  intros Hrem Hc. unfold next_token. rewrite (read_1_byte _ _ _ Hrem).
  pose proof (remaining_advance_1 _ _ _ Hrem) as Hrem1.
  split.
  - intros Hlt Hgt.
    assert (Ht : tuple_in [c] [cos.HexString_PREFIX; cos.HexString_POSTFIX]
                 = false).
    { clear -Hlt Hgt. destruct c; try reflexivity; congruence. }
    rewrite Ht. fold (is_delimiter_or_whitespace c). now rewrite Hc.
  - intros Hangle.
    assert (Ht : tuple_in [c] [cos.HexString_PREFIX; cos.HexString_POSTFIX]
                 = true) by (destruct Hangle as [-> | ->]; reflexivity).
    rewrite Ht. repeat split.
    + intros rest' ->. rewrite (read_1_byte _ _ _ Hrem1), bytes_eq_1.
      rewrite (Byte.byte_dec_lb (eq_refl c)), advance_advance. reflexivity.
    + intros d rest' -> Hd. rewrite (read_1_byte _ _ _ Hrem1), bytes_eq_1.
      destruct (Byte.eqb d c) eqn:E;
        [apply Byte.byte_dec_bl in E; contradiction|].
      rewrite advance_advance, seek_cur_back_pos by lia. reflexivity.
    + intros ->. rewrite (read_1_eof _ Hrem1). cbn [bytes_eq].
      rewrite advance_advance, seek_cur_back_pos by lia. binds.
      now rewrite advance_0.
Qed.

Lemma next_token_delimiter_witness :
  next_token 10 (File (b "<< /A") 0) = Ok (b "<<", File (b "<< /A") 2) /\
  next_token 10 (File (b "<4a>") 0) = Ok (b "<", File (b "<4a>") 1) /\
  next_token 10 (File (b "[1]") 0) = Ok (b "[", File (b "[1]") 1) /\
  next_token 10 (File (b "a>") 1) = Ok (b ">", File (b "a>") 1).
Proof.
  split; [|split; [|split]].
  - exact (proj1 (proj2 (next_token_delimiter 10 (File (b "<< /A") 0)
             "<"%byte (b "< /A") eq_refl eq_refl) (or_introl eq_refl))
             (b " /A") eq_refl).
  - exact (proj1 (proj2 (proj2 (next_token_delimiter 10 (File (b "<4a>") 0)
             "<"%byte (b "4a>") eq_refl eq_refl) (or_introl eq_refl)))
             "4"%byte (b "a>") eq_refl ltac:(discriminate)).
  - exact (proj1 (next_token_delimiter 10 (File (b "[1]") 0)
             "["%byte (b "1]") eq_refl eq_refl)
             ltac:(discriminate) ltac:(discriminate)).
  - exact (proj2 (proj2 (proj2 (next_token_delimiter 10 (File (b "a>") 1)
             ">"%byte [] eq_refl eq_refl) (or_intror eq_refl))) eq_refl).
Defined.

(** X5.  [peek] does not move the cursor: for a length that is no less
    than -1 it returns the file it was given; a smaller length is the
    [ValueError] of the read. *)
Theorem peek_leaves_the_file length f :
  (-1 <= length -> peek length f = Ok f) /\
  (length < -1 -> peek length f = Raise ValueError).
Proof.
  unfold peek, read_Z. split; intros H.
  - destruct (Z.eqb_spec length (-1)).
    + binds. destruct (read _ f) as [data f1] eqn:E.
      apply seek_tell_of. rewrite <- (read_content (Datatypes.length (content f)) f).
      now rewrite E.
    + destruct (Z.ltb_spec length 0); [lia|]. binds.
      destruct (read _ f) as [data f1] eqn:E.
      apply seek_tell_of. rewrite <- (read_content (Z.to_nat length) f).
      now rewrite E.
  - destruct (Z.eqb_spec length (-1)); [lia|].
    destruct (Z.ltb_spec length 0); [reflexivity|lia].
Qed.

Lemma peek_leaves_the_file_witness :
  peek 50 (File (b "trailer") 3) = Ok (File (b "trailer") 3) /\
  peek (-2) (File (b "trailer") 3) = Raise ValueError.
Proof.
  split.
  - exact (proj1 (peek_leaves_the_file 50 (File (b "trailer") 3)) ltac:(lia)).
  - exact (proj2 (peek_leaves_the_file (-2) (File (b "trailer") 3)) ltac:(lia)).
Defined.

(** ** Numbers *)

Lemma number_char_kinds c :
  is_number_char c = true ->
  py_isspace c = false /\ Byte.eqb c x5f = false /\
  ((is_ascii_digit c = true /\ digit_value c = Some (ord c - 48) /\
    ord c - 48 < 10 /\ Byte.eqb c "." = false /\
    Byte.eqb c "-" = false /\ Byte.eqb c "+" = false) \/
   (is_ascii_digit c = false /\ digit_value c = None)).
Proof.
  destruct c; intros H; try discriminate H;
    (split; [reflexivity|]); (split; [reflexivity|]);
    first [ left; repeat split; reflexivity | right; split; reflexivity ].
Qed.

Lemma lstrip_head c s : py_isspace c = false -> lstrip (c :: s) = c :: s.
Proof. intros H. cbn [lstrip]. now rewrite H. Qed.

Lemma strip_number_chars s :
  forallb is_number_char s = true -> strip s = s.
Proof.
  intros H. unfold strip.
  assert (Hl : forall t, forallb is_number_char t = true -> lstrip t = t).
  { intros [|c t] Ht; [reflexivity|]. cbn [forallb] in Ht.
    apply andb_prop in Ht as [Hc _].
    apply lstrip_head. now apply number_char_kinds in Hc as [Hc _]. }
  rewrite (Hl s H), Hl, rev_involutive; [reflexivity|].
  apply forallb_forall. intros x Hx. apply in_rev in Hx.
  now apply (proj1 (forallb_forall _ _) H).
Qed.

Lemma int_prefix_10 s : int_prefix 10 s = s.
Proof.
  unfold int_prefix. destruct s as [|c0 [|c1 s]]; try reflexivity.
  change (10 =? 16) with false. change (10 =? 8) with false.
  cbn [andb orb]. now rewrite andb_false_r.
Qed.

Lemma int_digits_number s : forall prev acc,
  forallb is_number_char s = true ->
  int_digits 10 prev acc s =
    if forallb is_ascii_digit s
    then (if prev || negb (bool_decide (s = []))
          then Some (fold_left (fun acc c => acc * 10 + (ord c - 48)) s acc)
          else None)
    else None.
Proof.
  induction s as [|c s IH]; intros prev acc H.
  - cbn. now destruct prev.
  - cbn [forallb] in H. apply andb_prop in H as [Hc Hs].
    cbn [int_digits forallb fold_left].
    destruct (number_char_kinds c Hc) as (_ & Hu & [(Hd & Hv & Hlt & _)|(Hd & Hv)]);
      rewrite Hu, Hv, Hd; [|reflexivity].
    destruct (Z.ltb_spec (ord c - 48) 10); [|lia].
    rewrite (IH true _ Hs). cbn [andb orb].
    destruct (forallb is_ascii_digit s); [|reflexivity].
    rewrite orb_true_r. reflexivity.
Qed.

(** The two ways to say that a text of number characters is a run of
    digits. *)
Lemma digits_float_text u :
  forallb is_number_char u = true ->
  forallb is_ascii_digit u && negb (bool_decide (u = [])) =
  forallb (fun c => is_ascii_digit c || Byte.eqb c ".") u &&
  existsb is_ascii_digit u &&
  (length (List.filter (Byte.eqb ".") u) <=? 1)%nat &&
  negb (existsb (Byte.eqb ".") u).
Proof.
  assert (G : forall u, forallb is_number_char u = true ->
    forallb is_ascii_digit u =
      forallb (fun c => is_ascii_digit c || Byte.eqb c ".") u &&
      negb (existsb (Byte.eqb ".") u) /\
    (existsb (Byte.eqb ".") u = false -> List.filter (Byte.eqb ".") u = []) /\
    (forallb is_ascii_digit u = true ->
       existsb is_ascii_digit u = negb (bool_decide (u = [])))).
  { clear u. induction u as [|c u IH]; intros H.
    - repeat split; reflexivity.
    - cbn [forallb] in H. apply andb_prop in H as [Hc Hu].
      destruct (IH Hu) as (E1 & E2 & E3).
      cbn [forallb existsb List.filter].
      replace (Byte.eqb "." c) with (Byte.eqb c ".")
        by (clear; destruct c; reflexivity).
      destruct (number_char_kinds c Hc)
        as (_ & _ & [(Hd & _ & _ & Hp & _)|(Hd & _)]); rewrite Hd.
      + rewrite Hp. cbn [orb andb negb]. repeat split; auto.
      + cbn [orb andb]. repeat split; try discriminate.
        * destruct (Byte.eqb c "."); cbn [orb negb andb];
            [now rewrite andb_false_r|reflexivity].
        * destruct (Byte.eqb c "."); cbn [orb]; [discriminate|auto]. }
  intros H. destruct (G u H) as (E1 & E2 & E3).
  destruct (forallb is_ascii_digit u) eqn:Hd.
  - symmetry in E1. apply andb_prop in E1 as [Ea Eb].
    rewrite Ea, Eb. apply negb_true_iff in Eb. rewrite (E2 Eb).
    rewrite (E3 eq_refl). cbn [length]. cbn [andb].
    now rewrite !andb_true_r.
  - cbn [andb]. symmetry.
    destruct (forallb (fun c => is_ascii_digit c || Byte.eqb c ".") u);
      [|reflexivity].
    cbn [andb] in E1. rewrite <- E1. now rewrite andb_false_r.
Qed.

Lemma py_int_number text :
  forallb is_number_char text = true ->
  py_int 10 text =
    if cos.float_text text && negb (has_point text)
    then Some (signed_decimal text) else None.
Proof.
  intros H. unfold py_int. rewrite (strip_number_chars text H).
  destruct text as [|c rest]; [reflexivity|].
  pose proof H as H'. cbn [forallb] in H'. apply andb_prop in H' as [Hc Hrest].
  unfold cos.float_text, has_point, signed_decimal, decimal_value.
  destruct (Byte.eqb c "-") eqn:Em.
  - apply Byte.byte_dec_bl in Em. subst c. cbn [existsb].
    change (Byte.eqb "." "-") with false. rewrite orb_true_r. cbn [orb].
    rewrite int_prefix_10, (int_digits_number rest false 0 Hrest).
    rewrite <- (digits_float_text rest Hrest). cbn [orb].
    destruct (forallb is_ascii_digit rest); [|reflexivity].
    destruct (negb (bool_decide (rest = []))); reflexivity.
  - destruct (Byte.eqb c "+") eqn:Ep.
    + apply Byte.byte_dec_bl in Ep. subst c. cbn [existsb].
      change (Byte.eqb "." "+") with false.
      change (Byte.eqb "+" "+") with true. cbn [orb].
      rewrite int_prefix_10, (int_digits_number rest false 0 Hrest).
      rewrite <- (digits_float_text rest Hrest). cbn [orb].
      destruct (forallb is_ascii_digit rest); [|reflexivity].
      destruct (negb (bool_decide (rest = []))); reflexivity.
    + cbn [orb].
      rewrite int_prefix_10, (int_digits_number (c :: rest) false 0 H).
      rewrite <- (digits_float_text (c :: rest) H). cbn [orb].
      destruct (forallb is_ascii_digit (c :: rest)); [|reflexivity].
      reflexivity.
Qed.

Lemma make_number_number text indirect :
  forallb is_number_char text = true ->
  make_number text indirect =
    if cos.float_text text then Ok (number_of text indirect)
    else Raise ValueError.
Proof.
  intros H. unfold make_number, cos.parse_Integer, cos.parse_Real, number_of.
  rewrite (py_int_number text H).
  destruct (cos.float_text text), (has_point text); reflexivity.
Qed.

(** X6.  [read_number] reads the run of the characters [+-.0123456789]
    after the whitespace and makes a number of it: when [float()] accepts
    the run, the number is an [Integer] of its decimal value if the run
    has no point and a [Real] if it has one, and the cursor is left just
    after the run; when [float()] rejects the run (an empty run, a sign
    alone or inside, two points), [read_number] raises [ValueError]. *)
Theorem read_number_classifies fuel indirect f ws text c rest :
  remaining f = ws ++ text ++ c :: rest ->
  forallb is_whitespace ws = true ->
  forallb is_number_char text = true ->
  is_number_char c = false ->
  (text = [] -> is_whitespace c = false) ->
  (length ws + length text < fuel)%nat ->
  read_number fuel indirect f =
    if cos.float_text text
    then Ok (number_of text indirect, advance (length ws + length text) f)
    else Raise ValueError.
Proof.
  intros Hrem Hws Htext Hc Hcw Hfuel. unfold read_number.
  rewrite (read_number_text_run fuel f ws text c rest); try assumption.
  binds. rewrite (make_number_number text indirect Htext).
  destruct (cos.float_text text); reflexivity.
Qed.

Lemma read_number_classifies_witness :
  read_number 10 false (File (b " 42 0 R") 0)
    = Ok (cos.Integer 42 false, File (b " 42 0 R") 3) /\
  read_number 10 true (File (b "-1.50]") 0)
    = Ok (cos.Real (b "-1.50") true, File (b "-1.50]") 5) /\
  read_number 10 false (File (b "+-7 ") 0) = Raise ValueError /\
  read_number 10 false (File (b "obj") 0) = Raise ValueError.
Proof.
  split; [|split; [|split]].
  - exact (read_number_classifies 10 false (File (b " 42 0 R") 0)
             (b " ") (b "42") " "%byte (b "0 R")
             eq_refl eq_refl eq_refl eq_refl ltac:(discriminate)
             ltac:(vm_compute; lia)).
  - exact (read_number_classifies 10 true (File (b "-1.50]") 0)
             [] (b "-1.50") "]"%byte []
             eq_refl eq_refl eq_refl eq_refl ltac:(discriminate)
             ltac:(vm_compute; lia)).
  - exact (read_number_classifies 10 false (File (b "+-7 ") 0)
             [] (b "+-7") " "%byte []
             eq_refl eq_refl eq_refl eq_refl ltac:(discriminate)
             ltac:(vm_compute; lia)).
  - exact (read_number_classifies 10 false (File (b "obj") 0)
             [] [] "o"%byte (b "bj")
             eq_refl eq_refl eq_refl eq_refl ltac:(reflexivity)
             ltac:(vm_compute; lia)).
Defined.

(** ** Names *)

Lemma read_name_loop_run run : forall fuel name f tail,
  remaining f = run ++ tail ->
  forallb is_name_char run = true ->
  read_name_loop (length run + fuel) name f =
    read_name_loop fuel (name ++ run) (advance (length run) f).
Proof.
  induction run as [|c run IH]; intros fuel name f tail Hrem Hrun.
  - cbn [length Nat.add]. now rewrite app_nil_r, advance_0.
  - cbn [length Nat.add forallb app] in *.
    apply andb_prop in Hrun as [Hc Hrun].
    unfold is_name_char in Hc. apply andb_prop in Hc as [Hd Hh].
    apply negb_true_iff in Hd. apply negb_true_iff in Hh.
    step read_name_loop. rewrite (read_1_byte _ _ _ Hrem).
    fold (is_delimiter_or_whitespace c). rewrite Hd.
    change (b "#") with ["#"%byte]. rewrite bytes_eq_1, Hh.
    rewrite (IH fuel (name ++ [c]) (advance 1 f) tail); auto.
    + rewrite <- app_assoc, advance_advance. cbn [app].
      f_equal; try (apply advance_eq; lia).
    + now apply remaining_advance_1 in Hrem.
Qed.

Lemma read_name_loop_end fuel name f c rest :
  remaining f = c :: rest -> is_delimiter_or_whitespace c = true ->
  read_name_loop (S fuel) name f = Ok (name, f).
Proof.
  intros Hrem Hc. step read_name_loop. rewrite (read_1_byte _ _ _ Hrem).
  fold (is_delimiter_or_whitespace c). rewrite Hc, seek_cur_back. binds.
  now rewrite advance_0.
Qed.

Lemma hex_digit_cases c :
  is_hex_digit c = true ->
  In c (b "0123456789abcdefABCDEF").
Proof. destruct c; intros H; try discriminate H; simpl; tauto. Qed.

Ltac hex_cases d H :=
  apply hex_digit_cases in H; cbn [In b list_byte_of_string] in H;
  repeat (destruct H as [H|H]; [subst d|]); [..|contradiction].

Lemma decode_name_escape_hex hi lo :
  is_hex_digit hi = true -> is_hex_digit lo = true ->
  decode_name_escape [hi; lo] =
    if hex_pair_value hi lo <? 128
    then Ok (to_bytes [hex_pair_value hi lo]) else Raise UnicodeError.
Proof.
  intros Hhi Hlo. hex_cases hi Hhi; hex_cases lo Hlo; vm_compute; reflexivity.
Qed.

Lemma read_name_loop_escape fuel name f hi lo rest :
  remaining f = "#"%byte :: hi :: lo :: rest ->
  is_hex_digit hi = true -> is_hex_digit lo = true ->
  read_name_loop (S fuel) name f =
    if hex_pair_value hi lo <? 128
    then read_name_loop fuel (name ++ to_bytes [hex_pair_value hi lo])
           (advance 3 f)
    else Raise UnicodeError.
Proof.
  intros Hrem Hhi Hlo. step read_name_loop. rewrite (read_1_byte _ _ _ Hrem).
  change (bytes_in ["#"%byte] (cos.DELIMITERS ++ cos.WHITESPACE)) with false.
  change (bytes_eq ["#"%byte] (b "#")) with true. cbn iota.
  apply remaining_advance_1 in Hrem.
  pose proof (read_prefix [hi; lo] rest _ Hrem) as Hread.
  cbn [length] in Hread. rewrite Hread, advance_advance.
  rewrite (decode_name_escape_hex hi lo Hhi Hlo).
  destruct (hex_pair_value hi lo <? 128); reflexivity.
Qed.

(** X7.  [read_name] returns the characters up to the first delimiter
    or whitespace character as the name, and leaves the cursor on that
    character. *)
Theorem read_name_plain fuel indirect f name c rest :
  remaining f = name ++ c :: rest ->
  forallb is_name_char name = true ->
  is_delimiter_or_whitespace c = true ->
  (length name < fuel)%nat ->
  read_name fuel indirect f =
    Ok (cos.Name name indirect, advance (length name) f).
Proof.
  intros Hrem Hname Hc Hfuel. unfold read_name.
  replace fuel with (length name + S (fuel - length name - 1))%nat by lia.
  rewrite (read_name_loop_run name _ [] f _ Hrem Hname).
  rewrite (read_name_loop_end _ _ _ c rest); auto.
  now apply remaining_advance in Hrem.
Qed.

Lemma read_name_plain_witness :
  read_name 10 false (File (b "/Type /Catalog") 1)
    = Ok (cos.Name (b "Type") false, File (b "/Type /Catalog") 5).
Proof.
  exact (read_name_plain 10 false (File (b "/Type /Catalog") 1)
           (b "Type") " "%byte (b "/Catalog")
           eq_refl eq_refl eq_refl ltac:(vm_compute; lia)).
Defined.

(** X8.  In a name, [#] and two hexadecimal digits stand for the
    character of that code: [read_name] puts that one character in the
    name when the code is below 128, and raises [UnicodeError] when it is
    128 or more. *)
Theorem read_name_escape fuel indirect f pre hi lo post c rest :
  remaining f = pre ++ "#"%byte :: hi :: lo :: post ++ c :: rest ->
  forallb is_name_char pre = true ->
  forallb is_name_char post = true ->
  is_hex_digit hi = true -> is_hex_digit lo = true ->
  is_delimiter_or_whitespace c = true ->
  (length pre + length post + 1 < fuel)%nat ->
  read_name fuel indirect f =
    if hex_pair_value hi lo <? 128
    then Ok (cos.Name (pre ++ to_bytes [hex_pair_value hi lo] ++ post) indirect,
             advance (length pre + 3 + length post) f)
    else Raise UnicodeError.
Proof.
  intros Hrem Hpre Hpost Hhi Hlo Hc Hfuel. unfold read_name.
  replace fuel
    with (length pre + S (length post +
            S (fuel - length pre - length post - 2)))%nat by lia.
  rewrite (read_name_loop_run pre _ [] f _ Hrem Hpre).
  apply remaining_advance in Hrem.
  rewrite (read_name_loop_escape _ _ _ hi lo _ Hrem Hhi Hlo).
  destruct (hex_pair_value hi lo <? 128); [|reflexivity].
  apply (remaining_advance [_; _; _]) in Hrem. cbn [length] in Hrem.
  rewrite (read_name_loop_run post _ _ _ _ Hrem Hpost).
  apply remaining_advance in Hrem.
  rewrite (read_name_loop_end _ _ _ c rest Hrem Hc). binds.
  rewrite !advance_advance. cbn [app]. rewrite <- app_assoc.
  do 2 f_equal. apply advance_eq. lia.
Qed.

Lemma read_name_escape_witness :
  read_name 10 false (File (b "/A#42C ") 1)
    = Ok (cos.Name (b "ABC") false, File (b "/A#42C ") 6) /\
  read_name 10 false (File (b "/A#e9 ") 1) = Raise UnicodeError.
Proof.
  split.
  - exact (read_name_escape 10 false (File (b "/A#42C ") 1)
             (b "A") "4"%byte "2"%byte (b "C") " "%byte []
             eq_refl eq_refl eq_refl eq_refl eq_refl eq_refl
             ltac:(vm_compute; lia)).
  - exact (read_name_escape 10 false (File (b "/A#e9 ") 1)
             (b "A") "e"%byte "9"%byte [] " "%byte []
             eq_refl eq_refl eq_refl eq_refl eq_refl eq_refl
             ltac:(vm_compute; lia)).
Defined.

(** ** Hexadecimal strings *)

Lemma whitespace_span body :
  exists ws tail, body = ws ++ tail /\ forallb is_whitespace ws = true /\
    match tail with [] => True | x :: _ => is_whitespace x = false end.
Proof.
  induction body as [|c body (ws & tail & -> & Hws & Htail)].
  - now exists [], [].
  - destruct (is_whitespace c) eqn:Hc.
    + exists (c :: ws), tail. cbn [forallb app]. now rewrite Hc, Hws.
    + now exists [], (c :: ws ++ tail).
Qed.

Lemma filter_whitespace_run ws :
  forallb is_whitespace ws = true -> List.filter not_whitespace ws = [].
Proof.
  induction ws as [|w ws IH]; [reflexivity|]. cbn [forallb List.filter].
  intros H. apply andb_prop in H as [Hw Hws]. unfold not_whitespace at 1.
  rewrite Hw. cbn [negb]. auto.
Qed.

Lemma read_hex_string_loop_collects fuel : forall body hex_string f rest,
  remaining f = body ++ ">"%byte :: rest ->
  forallb (fun c => negb (Byte.eqb c ">")) body = true ->
  (length body < fuel)%nat ->
  read_hex_string_loop fuel hex_string f =
    Ok (hex_string ++ List.filter not_whitespace body,
        advance (S (length body)) f).
Proof.
  induction fuel as [|fuel IH]; intros body hex_string f rest Hrem Hbody Hfuel;
    [lia|].
  destruct (whitespace_span body) as (ws & tail & -> & Hws & Htail).
  rewrite length_app in Hfuel. rewrite <- app_assoc in Hrem.
  rewrite forallb_app in Hbody. apply andb_prop in Hbody as [_ Hbody].
  rewrite List.filter_app, (filter_whitespace_run ws Hws). cbn [app].
  step read_hex_string_loop.
  change cos.HexString_POSTFIX with [">"%byte].
  destruct tail as [|x tail]; cbn [app length forallb List.filter] in *.
  - rewrite (eat_whitespace_run ws (S fuel) f ">"%byte rest Hrem Hws eq_refl)
      by lia.
    binds. apply remaining_advance in Hrem.
    rewrite (read_1_byte _ _ _ Hrem), advance_advance.
    change (bytes_eq [">"%byte] [">"%byte]) with true. cbn iota.
    rewrite !app_nil_r. do 2 f_equal. apply advance_eq. lia.
  - apply andb_prop in Hbody as [Hx Hbody]. apply negb_true_iff in Hx.
    rewrite (eat_whitespace_run ws (S fuel) f x _ Hrem Hws Htail) by lia.
    binds. apply remaining_advance in Hrem.
    rewrite (read_1_byte _ _ _ Hrem), advance_advance, bytes_eq_1, Hx.
    apply remaining_advance_1 in Hrem. rewrite advance_advance in Hrem.
    rewrite (IH tail (hex_string ++ [x]) _ rest Hrem Hbody) by lia.
    replace (not_whitespace x) with true
      by (unfold not_whitespace; now rewrite Htail).
    rewrite <- app_assoc, advance_advance, length_app. cbn [app length].
    do 2 f_equal. apply advance_eq. lia.
Qed.

Lemma digit_value_range c d : digit_value c = Some d -> 0 <= d < 16.
Proof.
  unfold digit_value. cbv zeta.
  destruct ((48 <=? ord c) && (ord c <=? 57)) eqn:E1;
    [|destruct ((97 <=? ord c) && (ord c <=? 102)) eqn:E2;
      [|destruct ((65 <=? ord c) && (ord c <=? 70)) eqn:E3]];
    intros [= <-];
    match goal with
    | E : _ && _ = true |- _ => apply andb_prop in E as [?%Z.leb_le ?%Z.leb_le]
    end; lia.
Qed.

Lemma unhexlify_pairs n : forall digits,
  length digits = (2 * n)%nat ->
  unhexlify digits =
    if forallb is_hex_digit digits then Ok (to_bytes (hex_pairs digits))
    else Raise BinasciiError.
Proof.
  induction n as [|n IH]; intros digits Hlen.
  - destruct digits; [reflexivity|discriminate Hlen].
  - destruct digits as [|hi [|lo digits]]; cbn [length] in Hlen; try lia.
    cbn [unhexlify forallb hex_pairs]. unfold is_hex_digit at 1 2.
    unfold hex_pair_value.
    destruct (digit_value hi) as [h|] eqn:Hh; [|reflexivity].
    destruct (digit_value lo) as [l|] eqn:Hl; [|reflexivity].
    apply digit_value_range in Hh. apply digit_value_range in Hl.
    destruct (byte_of_Z_small (16 * h + l)) as (c & Hc & _); [lia|].
    rewrite Hc, (IH digits) by lia. cbn [andb]. binds.
    destruct (forallb is_hex_digit digits); [|reflexivity].
    cbn [to_bytes map]. now rewrite Hc.
Qed.

Lemma pad_even_length digits :
  exists n, length (pad_even digits) = (2 * n)%nat.
Proof.
  unfold pad_even. destruct (Nat.even (length digits)) eqn:E.
  - apply Nat.even_spec in E as [n E]. now exists n.
  - assert (O : Nat.odd (length digits) = true)
      by (rewrite <- Nat.negb_even, E; reflexivity).
    apply Nat.odd_spec in O as [n O]. exists (S n).
    rewrite length_app, O. change (length (b "0")) with 1%nat. lia.
Qed.

Lemma odd_length_test n : (0 <? n mod 2)%nat = negb (Nat.even n).
Proof.
  destruct (Nat.even n) eqn:E.
  - apply Nat.even_spec in E as [k ->].
    replace (2 * k)%nat with (k * 2)%nat by lia.
    now rewrite Nat.Div0.mod_mul.
  - assert (O : Nat.odd n = true) by (rewrite <- Nat.negb_even, E; reflexivity).
    apply Nat.odd_spec in O as [k ->].
    replace (2 * k + 1)%nat with (1 + k * 2)%nat by lia.
    now rewrite Nat.Div0.mod_add.
Qed.

Lemma read_hex_string_pairs fuel indirect f body rest :
  remaining f = body ++ ">"%byte :: rest ->
  forallb (fun c => negb (Byte.eqb c ">")) body = true ->
  (length body < fuel)%nat ->
  read_hex_string fuel indirect f =
    let digits := pad_even (List.filter not_whitespace body) in
    if forallb is_hex_digit digits
    then Ok (cos.HexString (to_bytes (hex_pairs digits)) indirect,
             advance (S (length body)) f)
    else Raise BinasciiError.
Proof.
  intros Hrem Hbody Hfuel. unfold read_hex_string.
  rewrite (read_hex_string_loop_collects fuel body [] f rest Hrem Hbody Hfuel).
  binds. cbn [app]. rewrite odd_length_test. cbv zeta.
  fold (pad_even (List.filter not_whitespace body)).
  replace (if negb (Nat.even (length (List.filter not_whitespace body)))
           then List.filter not_whitespace body ++ b "0"
           else List.filter not_whitespace body)
    with (pad_even (List.filter not_whitespace body))
    by (unfold pad_even; now destruct (Nat.even _)).
  destruct (pad_even_length (List.filter not_whitespace body)) as [n Hn].
  rewrite (unhexlify_pairs n _ Hn).
  destruct (forallb is_hex_digit _); reflexivity.
Qed.

(** X9.  [read_hex_string] reads up to the closing [>], skips the
    whitespace, adds a [0] to an odd number of digits and returns the
    bytes that the pairs of digits denote; a character that is no
    hexadecimal digit raises [binascii.Error].  The cursor is left after
    the [>]. *)
Theorem read_hex_string_decodes fuel indirect f body rest :
  remaining f = body ++ ">"%byte :: rest ->
  forallb (fun c => negb (Byte.eqb c ">")) body = true ->
  (length body < fuel)%nat ->
  read_hex_string fuel indirect f =
    let digits := pad_even (List.filter not_whitespace body) in
    if forallb is_hex_digit digits
    then Ok (cos.HexString (to_bytes (hex_pairs digits)) indirect,
             advance (S (length body)) f)
    else Raise BinasciiError.
Proof. exact (read_hex_string_pairs fuel indirect f body rest). Qed.

Lemma read_hex_string_decodes_witness :
  read_hex_string 10 false (File (b "<4A 6f" ++ [LF] ++ b "7>") 1)
    = Ok (cos.HexString (b "Jop") false,
          File (b "<4A 6f" ++ [LF] ++ b "7>") 9) /\
  read_hex_string 10 false (File (b "<4g>") 1) = Raise BinasciiError.
Proof.
  split.
  - exact (read_hex_string_decodes 10 false
             (File (b "<4A 6f" ++ [LF] ++ b "7>") 1)
             (b "4A 6f" ++ [LF] ++ b "7") []
             eq_refl eq_refl ltac:(vm_compute; lia)).
  - exact (read_hex_string_decodes 10 false (File (b "<4g>") 1)
             (b "4g") [] eq_refl eq_refl ltac:(vm_compute; lia)).
Defined.

Lemma hexlify_byte c :
  let hi := hex_digit (ord c / 16) in
  let lo := hex_digit (ord c mod 16) in
  is_hex_digit hi = true /\ is_hex_digit lo = true /\
  is_whitespace hi = false /\ is_whitespace lo = false /\
  Byte.eqb hi ">" = false /\ Byte.eqb lo ">" = false /\
  to_bytes [hex_pair_value hi lo] = [c].
Proof. destruct c; vm_compute; repeat split. Qed.

Lemma hexlify_digits data :
  forallb is_hex_digit (hexlify data) = true /\
  List.filter not_whitespace (hexlify data) = hexlify data /\
  forallb (fun c => negb (Byte.eqb c ">")) (hexlify data) = true /\
  length (hexlify data) = (2 * length data)%nat /\
  to_bytes (hex_pairs (hexlify data)) = data.
Proof.
  induction data as [|c data (I1 & I2 & I3 & I4 & I5)].
  - repeat split.
  - destruct (hexlify_byte c) as (H1 & H2 & H3 & H4 & H5 & H6 & H7).
    cbv zeta in *.
    change (hexlify (c :: data))
      with (hex_digit (ord c / 16) :: hex_digit (ord c mod 16) :: hexlify data).
    cbn [forallb List.filter length hex_pairs]. unfold not_whitespace at 1 2.
    rewrite H1, H2, H3, H4, H5, H6, I1, I2, I3, I4. cbn [negb andb].
    repeat split; try lia.
    change (to_bytes (?v :: ?l)) with (to_bytes [v] ++ to_bytes l).
    now rewrite H7, I5.
Qed.

(** X10.  [read_hex_string] inverts [hexlify]: the two digits per byte
    that [hexlify] writes, closed by [>], are read back as the bytes they
    were written from. *)
Theorem read_hex_string_round_trip fuel indirect f data rest :
  remaining f = hexlify data ++ ">"%byte :: rest ->
  (2 * length data < fuel)%nat ->
  read_hex_string fuel indirect f =
    Ok (cos.HexString data indirect, advance (S (2 * length data)) f).
Proof.
  intros Hrem Hfuel.
  destruct (hexlify_digits data) as (H1 & H2 & H3 & H4 & H5).
  rewrite (read_hex_string_pairs fuel indirect f (hexlify data) rest Hrem H3)
    by lia.
  cbv zeta. rewrite H2. unfold pad_even. rewrite H4.
  replace (Nat.even (2 * length data)) with true
    by (symmetry; apply Nat.even_spec; now exists (length data)).
  now rewrite H1, H5.
Qed.

Lemma read_hex_string_round_trip_witness :
  read_hex_string 10 true (File (b "<00ff7e>") 1)
    = Ok (cos.HexString [x00; xff; x7e] true, File (b "<00ff7e>") 8).
Proof.
  exact (read_hex_string_round_trip 10 true (File (b "<00ff7e>") 1)
           [x00; xff; x7e] [] eq_refl ltac:(vm_compute; lia)).
Defined.

(** ** Escapes in literal strings *)

Lemma read_string_loop_plain run : forall fuel string level f tail,
  remaining f = run ++ tail ->
  forallb is_plain_char run = true ->
  read_string_loop (length run + fuel) string false level f =
    read_string_loop fuel (string ++ run) false level
      (advance (length run) f).
Proof.
  induction run as [|c run IH]; intros fuel string level f tail Hrem Hrun.
  - cbn [length Nat.add]. now rewrite app_nil_r, advance_0.
  - cbn [length Nat.add forallb app] in *.
    apply andb_prop in Hrun as [Hc Hrun].
    unfold is_plain_char, is_parenthesis in Hc. apply negb_true_iff in Hc.
    apply orb_false_elim in Hc as [Hb Hc].
    apply orb_false_elim in Hc as [Ho Hc].
    step read_string_loop. rewrite (read_1_byte _ _ _ Hrem).
    change (b "(") with ["("%byte]. change (b ")") with [")"%byte].
    change cos.String_POSTFIX with [")"%byte].
    rewrite !bytes_eq_1, Hb, Ho, Hc. cbn [andb].
    rewrite (IH fuel (string ++ [c]) level (advance 1 f) tail); auto.
    + rewrite <- app_assoc, advance_advance. cbn [app].
      f_equal; try (apply advance_eq; lia).
    + now apply remaining_advance_1 in Hrem.
Qed.

Lemma read_string_loop_end fuel string f rest :
  remaining f = ")"%byte :: rest ->
  read_string_loop (S fuel) string false 0 f = Ok (string, advance 1 f).
Proof.
  intros Hrem. step read_string_loop. now rewrite (read_1_byte _ _ _ Hrem).
Qed.

(** The two iterations of the loop at a backslash: the one that sets
    [escape] and the one that reads the escaped character. *)
Lemma read_string_loop_backslash fuel string level f c tail :
  remaining f = BACKSLASH :: c :: tail ->
  read_string_loop (S (S fuel)) string false level f =
    '(added, file) ← read_string_escape [c] (advance 2 f);
    read_string_loop fuel (string ++ added) false level file.
Proof.
  intros Hrem. step read_string_loop. rewrite (read_1_byte _ _ _ Hrem).
  change (bytes_eq [BACKSLASH] [BACKSLASH]) with true. cbn iota.
  apply remaining_advance_1 in Hrem.
  rewrite (read_1_byte _ _ _ Hrem), advance_advance. reflexivity.
Qed.

Lemma read_string_one_escape fuel indirect f pre c post rest added :
  remaining f = pre ++ BACKSLASH :: c :: post ++ ")"%byte :: rest ->
  forallb is_plain_char pre = true ->
  forallb is_plain_char post = true ->
  read_string_escape [c] (advance (length pre + 2) f)
    = Ok (added, advance (length pre + 2) f) ->
  (length pre + length post + 2 < fuel)%nat ->
  read_string fuel indirect f =
    Ok (cos.String (pre ++ added ++ post) indirect,
        advance (length pre + length post + 3) f).
Proof.
  intros Hrem Hpre Hpost Hescape Hfuel. unfold read_string.
  replace fuel
    with (length pre + S (S (length post +
            S (fuel - length pre - length post - 3))))%nat by lia.
  rewrite (read_string_loop_plain pre _ [] _ f _ Hrem Hpre).
  apply remaining_advance in Hrem.
  rewrite (read_string_loop_backslash _ _ _ _ c _ Hrem).
  rewrite advance_advance, Hescape. binds.
  apply (remaining_advance [_; _]) in Hrem. cbn [length] in Hrem.
  rewrite advance_advance in Hrem.
  rewrite (read_string_loop_plain post _ _ _ _ _ Hrem Hpost).
  apply remaining_advance in Hrem.
  rewrite (read_string_loop_end _ _ _ rest Hrem). binds.
  rewrite !advance_advance. cbn [app]. rewrite <- app_assoc.
  do 2 f_equal. apply advance_eq. lia.
Qed.

(** X11.  A backslash in a literal string, before a character that is
    no digit: before one of [nrtbf()] or a backslash, the character
    itself is added to the string (a [n] for backslash-n, no line feed);
    before a line feed or a carriage return nothing is added, and the
    character after the carriage return is read again as a character of
    the string; before any other character the backslash and the
    character are both added. *)
Theorem read_string_escapes fuel indirect f pre c post rest :
  remaining f = pre ++ BACKSLASH :: c :: post ++ ")"%byte :: rest ->
  forallb is_plain_char pre = true ->
  forallb is_plain_char post = true ->
  is_ascii_digit c = false ->
  (length pre + length post + 2 < fuel)%nat ->
  read_string fuel indirect f =
    Ok (cos.String
          (pre ++
           (if bytes_in [c] escape_chars then [c]
            else if Byte.eqb c LF || Byte.eqb c CR then []
            else [BACKSLASH; c]) ++ post) indirect,
        advance (length pre + length post + 3) f).
Proof.
  intros Hrem Hpre Hpost Hc Hfuel.
  apply (read_string_one_escape fuel indirect f pre c post rest);
    try assumption.
  unfold read_string_escape.
  destruct (bytes_in [c] escape_chars); [reflexivity|].
  change [LF] with [LF]. rewrite !bytes_eq_1.
  destruct (Byte.eqb c LF); [reflexivity|]. cbn [orb].
  destruct (Byte.eqb c CR).
  - apply remaining_advance in Hrem.
    apply (remaining_advance [_; _]) in Hrem. cbn [length] in Hrem.
    rewrite advance_advance in Hrem.
    destruct post as [|x post]; cbn [app] in Hrem;
      rewrite (read_1_byte _ _ _ Hrem), advance_advance;
      replace (length pre + 2 + 1)%nat with (S (length pre + 2)) by lia;
      now rewrite seek_cur_back.
  - replace (isdigit [c]) with false; [reflexivity|].
    symmetry. revert Hc. clear. unfold isdigit. cbn [forallb negb].
    intros ->. reflexivity.
Qed.

Lemma read_string_escapes_witness :
  read_string 10 false (File (b "(a\nb)") 1)
    = Ok (cos.String (b "anb") false, File (b "(a\nb)") 6) /\
  read_string 10 false (File (b "(a" ++ [BACKSLASH; CR; LF] ++ b "b)") 1)
    = Ok (cos.String (b "a" ++ [LF] ++ b "b") false,
          File (b "(a" ++ [BACKSLASH; CR; LF] ++ b "b)") 7) /\
  read_string 10 false (File (b "(a\qb)") 1)
    = Ok (cos.String (b "a\qb") false, File (b "(a\qb)") 6).
Proof.
  split; [|split].
  - exact (read_string_escapes 10 false (File (b "(a\nb)") 1)
             (b "a") "n"%byte (b "b") []
             eq_refl eq_refl eq_refl eq_refl ltac:(vm_compute; lia)).
  - exact (read_string_escapes 10 false
             (File (b "(a" ++ [BACKSLASH; CR; LF] ++ b "b)") 1)
             (b "a") CR (LF :: b "b") []
             eq_refl eq_refl eq_refl eq_refl ltac:(vm_compute; lia)).
  - exact (read_string_escapes 10 false (File (b "(a\qb)") 1)
             (b "a") "q"%byte (b "b") []
             eq_refl eq_refl eq_refl eq_refl ltac:(vm_compute; lia)).
Defined.

(** ** The dispatch of [next_item] *)

Lemma next_token_single fuel f c rest :
  remaining f = c :: rest ->
  is_delimiter_or_whitespace c = true ->
  c <> "<"%byte -> c <> ">"%byte ->
  next_token fuel f = Ok ([c], advance 1 f).
Proof.
  intros Hrem Hc Hlt Hgt. unfold next_token. rewrite (read_1_byte _ _ _ Hrem).
  assert (Ht : tuple_in [c] [cos.HexString_PREFIX; cos.HexString_POSTFIX]
               = false).
  { clear -Hlt Hgt. destruct c; try reflexivity; congruence. }
  rewrite Ht. fold (is_delimiter_or_whitespace c). now rewrite Hc.
Qed.

Lemma next_token_less_than fuel f rest :
  remaining f = "<"%byte :: rest ->
  next_token fuel f =
    match rest with
    | [] => Ok (b "<", f)
    | d :: _ =>
        if Byte.eqb d "<" then Ok (b "<<", advance 2 f)
        else Ok (b "<", advance 1 f)
    end.
Proof.
  intros Hrem. unfold next_token. rewrite (read_1_byte _ _ _ Hrem).
  apply remaining_advance_1 in Hrem.
  change (tuple_in ["<"%byte] [cos.HexString_PREFIX; cos.HexString_POSTFIX])
    with true.
  cbn iota. destruct rest as [|d rest].
  - rewrite (read_1_eof _ Hrem). cbn [bytes_eq].
    rewrite advance_advance, seek_cur_back_pos by lia. binds.
    now rewrite advance_0.
  - rewrite (read_1_byte _ _ _ Hrem), bytes_eq_1, advance_advance.
    destruct (Byte.eqb d "<") eqn:E.
    + apply Byte.byte_dec_bl in E. now subst d.
    + now rewrite seek_cur_back_pos by lia.
Qed.

(** X12.  [next_item] skips the whitespace and chooses the reader by
    the token that follows: [(] starts a literal string, [/] a name, [[]
    an array, [<<] a dictionary or stream, and a [<] that no second [<]
    follows a hexadecimal string; each reader starts just after that
    token.  A [<] that ends the input is pushed back, and the reader of
    hexadecimal strings starts on the [<] itself. *)
Theorem next_item_dispatch F fuel indirect f ws c tail :
  remaining f = ws ++ c :: tail ->
  forallb is_whitespace ws = true ->
  (length ws < fuel)%nat ->
  let after n := advance (length ws + n) f in
  (c = "("%byte ->
     next_item F (S fuel) indirect f = read_string fuel indirect (after 1%nat)) /\
  (c = "/"%byte ->
     next_item F (S fuel) indirect f = read_name fuel indirect (after 1%nat)) /\
  (c = "["%byte ->
     next_item F (S fuel) indirect f =
       read_array (next_item F fuel) fuel indirect (after 1%nat)) /\
  (c = "<"%byte ->
     (forall tail', tail = "<"%byte :: tail' ->
        next_item F (S fuel) indirect f =
          read_dictionary_or_stream F (next_item F fuel) fuel indirect
            (after 2%nat)) /\
     (forall d tail', tail = d :: tail' -> d <> "<"%byte ->
        next_item F (S fuel) indirect f =
          read_hex_string fuel indirect (after 1%nat)) /\
     (tail = [] ->
        next_item F (S fuel) indirect f =
          read_hex_string fuel indirect (after 0%nat))).
Proof.
  intros Hrem Hws Hfuel after. subst after. cbv beta.
  step next_item.
  assert (Hskip : is_whitespace c = false ->
            eat_whitespace fuel f = Ok (advance (length ws) f))
    by (intros Hc; now apply (eat_whitespace_run ws fuel f c tail)).
  apply remaining_advance in Hrem.
  split; [|split; [|split; [|intros Hc; split; [|split]; revert Hc]]].
  - intros ->. rewrite Hskip by reflexivity. binds.
    rewrite (next_token_single fuel _ _ _ Hrem) by (reflexivity || discriminate).
    binds. now rewrite advance_advance.
  - intros ->. rewrite Hskip by reflexivity. binds.
    rewrite (next_token_single fuel _ _ _ Hrem) by (reflexivity || discriminate).
    binds. now rewrite advance_advance.
  - intros ->. rewrite Hskip by reflexivity. binds.
    rewrite (next_token_single fuel _ _ _ Hrem) by (reflexivity || discriminate).
    binds. now rewrite advance_advance.
  - intros -> tail' ->. rewrite Hskip by reflexivity. binds.
    rewrite (next_token_less_than fuel _ _ Hrem).
    change (Byte.eqb "<" "<") with true. binds.
    now rewrite advance_advance.
  - intros -> d tail' -> Hd. rewrite Hskip by reflexivity. binds.
    rewrite (next_token_less_than fuel _ _ Hrem).
    destruct (Byte.eqb d "<") eqn:E;
      [apply Byte.byte_dec_bl in E; contradiction|].
    binds. now rewrite advance_advance.
  - intros -> ->. rewrite Hskip by reflexivity. binds.
    rewrite (next_token_less_than fuel _ _ Hrem). binds.
    now rewrite Nat.add_0_r.
Qed.

Lemma next_item_dispatch_witness :
  next_item [] 11 false (File (b " /Kids") 0)
    = read_name 10 false (File (b " /Kids") 2) /\
  next_item [] 11 false (File (b "<</A 1>>") 0)
    = read_dictionary_or_stream [] (next_item [] 10) 10 false
        (File (b "<</A 1>>") 2) /\
  next_item [] 11 false (File (b "<4a>") 0)
    = read_hex_string 10 false (File (b "<4a>") 1).
Proof.
  split; [|split].
  - exact (proj1 (proj2 (next_item_dispatch [] 10 false (File (b " /Kids") 0)
             (b " ") "/"%byte (b "Kids") eq_refl eq_refl
             ltac:(vm_compute; lia))) eq_refl).
  - exact (proj1 (proj2 (proj2 (proj2 (next_item_dispatch [] 10 false
             (File (b "<</A 1>>") 0) [] "<"%byte (b "</A 1>>") eq_refl eq_refl
             ltac:(vm_compute; lia)))) eq_refl) (b "/A 1>>") eq_refl).
  - exact (proj1 (proj2 (proj2 (proj2 (proj2 (next_item_dispatch [] 10 false
             (File (b "<4a>") 0) [] "<"%byte (b "4a>") eq_refl eq_refl
             ltac:(vm_compute; lia)))) eq_refl))
             "4"%byte (b "a>") eq_refl ltac:(discriminate)).
Defined.

(** X13.  The tokens [true], [false] and [null], ended by a delimiter or
    a whitespace character, are read by [next_item] as the two booleans
    and the null object; the cursor is left on the character that ends
    the token. *)
Theorem next_item_keywords F fuel indirect f ws keyword d tail :
  remaining f = ws ++ keyword ++ d :: tail ->
  forallb is_whitespace ws = true ->
  is_delimiter_or_whitespace d = true ->
  (length ws + 5 < fuel)%nat ->
  let after := advance (length ws + length keyword) f in
  (keyword = b "true" ->
     next_item F fuel indirect f = Ok (cos.Boolean true indirect, after)) /\
  (keyword = b "false" ->
     next_item F fuel indirect f = Ok (cos.Boolean false indirect, after)) /\
  (keyword = b "null" ->
     next_item F fuel indirect f = Ok (cos.Null indirect, after)).
Proof.
  intros Hrem Hws Hd Hfuel after. subst after.
  destruct fuel as [|fuel]; [lia|]. step next_item.
  (split; [|split]); intros ->;
    change (b "true") with ("t"%byte :: b "rue") in *;
    change (b "false") with ("f"%byte :: b "alse") in *;
    change (b "null") with ("n"%byte :: b "ull") in *;
    cbn [app] in Hrem;
    rewrite (eat_whitespace_run ws fuel f _ _ Hrem Hws eq_refl) by lia;
    binds; apply remaining_advance in Hrem;
    rewrite (next_token_regular fuel _ _ _ (d :: tail) Hrem eq_refl Hd)
      by (vm_compute length; lia);
    binds; rewrite advance_advance; cbn [unread];
    (replace (bytes_eq _ cos.String_PREFIX) with false by reflexivity);
    cbn -[advance]; do 2 f_equal; apply advance_eq; vm_compute length; lia.
Qed.

Lemma next_item_keywords_witness :
  next_item [] 10 false (File (b " true]") 0)
    = Ok (cos.Boolean true false, File (b " true]") 5) /\
  next_item [] 10 true (File (b "null ") 0)
    = Ok (cos.Null true, File (b "null ") 4).
Proof.
  split.
  - exact (proj1 (next_item_keywords [] 10 false (File (b " true]") 0)
             (b " ") (b "true") "]"%byte [] eq_refl eq_refl eq_refl
             ltac:(vm_compute; lia)) eq_refl).
  - exact (proj2 (proj2 (next_item_keywords [] 10 true (File (b "null ") 0)
             [] (b "null") " "%byte [] eq_refl eq_refl eq_refl
             ltac:(vm_compute; lia))) eq_refl).
Defined.

(** ** The readers only move the cursor *)

Lemma read_content_eq n f data g : read n f = (data, g) -> content g = content f.
Proof. intros H. rewrite <- (read_content n f), H. reflexivity. Qed.

Lemma read_Z_content n f data g :
  read_Z n f = Ok (data, g) -> content g = content f.
Proof.
  unfold read_Z. destruct (n =? -1); [|destruct (n <? 0); [discriminate|]];
    (destruct (read _ f) as [data' g'] eqn:R; intros [= _ <-];
     now apply read_content_eq in R).
Qed.

(** The case analysis of a successful run: every bind and every read of
    [H] is named, and the branches that do not return are closed. *)
Ltac run_cases H :=
  repeat first
    [ discriminate H
    | progress binds_in H
    | match type of H with
      | context [read ?n ?f] =>
          let R := fresh "R" in
          destruct (read n f) as [? ?] eqn:R; apply read_content_eq in R
      | context [@mbind _ _ _ _ _ ?m] =>
          let E := fresh "E" in
          destruct m as [?| |] eqn:E; [|discriminate H|discriminate H]
      | context [let '(_, _) := ?x in _] => destruct x
      | context [if ?c then _ else _] => destruct c
      end ].

(** The files of the runs that [run_cases] has named have the same
    content; [IH] is the fact for the recursive calls. *)
Ltac same_content IH :=
  repeat match goal with
    | E : seek _ _ = Ok _ |- _ => apply seek_content in E
    | E : seek_cur _ _ = Ok _ |- _ => apply seek_cur_content in E
    | E : read_Z _ _ = Ok _ |- _ => apply read_Z_content in E
    | E : eat_whitespace _ _ = Ok _ |- _ => apply eat_whitespace_content in E
    | E : next_token _ _ = Ok _ |- _ => apply next_token_content in E
    | E : _ = Ok _ |- _ => apply IH in E
    end;
  try congruence.

Ltac content_of H IH :=
  run_cases H; first [injection H as <- <- | injection H as <- | idtac];
  same_content IH.

Lemma jump_to_next_line_content fuel : forall f f',
  jump_to_next_line fuel f = Ok f' -> content f' = content f.
Proof.
  induction fuel as [|fuel IH]; intros f f' H; [discriminate|].
  step_in jump_to_next_line H. content_of H IH.
Qed.

Lemma read_number_loop_content fuel : forall text f text' f',
  read_number_loop fuel text f = Ok (text', f') -> content f' = content f.
Proof.
  induction fuel as [|fuel IH]; intros text f text' f' H; [discriminate|].
  step_in read_number_loop H. content_of H IH.
Qed.

Lemma read_number_text_content fuel f text f' :
  read_number_text fuel f = Ok (text, f') -> content f' = content f.
Proof.
  unfold read_number_text. intros H. content_of H read_number_loop_content.
Qed.

Lemma read_number_content fuel indirect f number f' :
  read_number fuel indirect f = Ok (number, f') -> content f' = content f.
Proof.
  unfold read_number. intros H. content_of H read_number_text_content.
Qed.

Lemma read_name_loop_content fuel : forall name f name' f',
  read_name_loop fuel name f = Ok (name', f') -> content f' = content f.
Proof.
  induction fuel as [|fuel IH]; intros name f name' f' H; [discriminate|].
  step_in read_name_loop H. content_of H IH.
Qed.

Lemma read_name_content fuel indirect f name f' :
  read_name fuel indirect f = Ok (name, f') -> content f' = content f.
Proof.
  unfold read_name. intros H. content_of H read_name_loop_content.
Qed.

Lemma read_octal_digits_content n : forall char f char' f',
  read_octal_digits n char f = Ok (char', f') -> content f' = content f.
Proof.
  induction n as [|n IH]; intros char f char' f' H.
  - now injection H as _ <-.
  - cbn [read_octal_digits] in H. content_of H IH.
Qed.

Lemma read_string_escape_content char f added f' :
  read_string_escape char f = Ok (added, f') -> content f' = content f.
Proof.
  unfold read_string_escape. intros H.
  destruct (bytes_in char escape_chars); [now injection H as _ <-|].
  destruct (bytes_eq char [LF]); [now injection H as _ <-|].
  destruct (bytes_eq char [CR]); [content_of H I|].
  destruct (isdigit char); [|now injection H as _ <-].
  binds_in H.
  destruct (read_octal_digits 2 char f) as [[digits g]| |] eqn:E;
    try discriminate H.
  apply read_octal_digits_content in E. binds_in H.
  destruct (py_int 8 digits); [|discriminate H].
  destruct (pack_B z); try discriminate H. binds_in H.
  injection H as _ <-. exact E.
Qed.

Lemma read_string_loop_content fuel : forall string escape level f string' f',
  read_string_loop fuel string escape level f = Ok (string', f') ->
  content f' = content f.
Proof.
  induction fuel as [|fuel IH]; intros string escape level f string' f' H;
    [discriminate|].
  step_in read_string_loop H.
  destruct (read 1 f) as [char g] eqn:R. apply read_content_eq in R.
  destruct escape.
  - destruct (read_string_escape char g) as [[added g']| |] eqn:E;
      try discriminate H.
    binds_in H. apply read_string_escape_content in E. apply IH in H.
    congruence.
  - repeat match type of H with
           | context [if ?c then _ else _] => destruct c
           end;
      try (injection H as _ <-; exact R); apply IH in H; congruence.
Qed.

Lemma read_string_content fuel indirect f string f' :
  read_string fuel indirect f = Ok (string, f') -> content f' = content f.
Proof.
  unfold read_string. intros H. content_of H read_string_loop_content.
Qed.

Lemma read_hex_string_loop_content fuel : forall hex f hex' f',
  read_hex_string_loop fuel hex f = Ok (hex', f') -> content f' = content f.
Proof.
  induction fuel as [|fuel IH]; intros hex f hex' f' H; [discriminate|].
  step_in read_hex_string_loop H. content_of H IH.
Qed.

Lemma read_hex_string_content fuel indirect f string f' :
  read_hex_string fuel indirect f = Ok (string, f') -> content f' = content f.
Proof.
  unfold read_hex_string. intros H.
  destruct (read_hex_string_loop fuel [] f) as [[hex g]| |] eqn:E;
    try discriminate H.
  binds_in H. apply read_hex_string_loop_content in E.
  destruct (unhexlify _); try discriminate H. binds_in H.
  injection H as _ <-. exact E.
Qed.

Section Items.

Variable F : list bytes.
Variable parser : bool -> pyfile -> result (cos.Object * pyfile).
Hypothesis parser_content : forall indirect f item f',
  parser indirect f = Ok (item, f') -> content f' = content f.

Lemma read_array_loop_content fuel : forall array f array' f',
  read_array_loop parser fuel array f = Ok (array', f') ->
  content f' = content f.
Proof.
  induction fuel as [|fuel IH]; intros array f array' f' H; [discriminate|].
  step_in read_array_loop H. run_cases H;
    try (injection H as _ <-);
    repeat match goal with
      | E : parser _ _ = Ok _ |- _ => apply parser_content in E
      end;
    same_content IH.
Qed.

Lemma read_array_content fuel indirect f array f' :
  read_array parser fuel indirect f = Ok (array, f') ->
  content f' = content f.
Proof.
  unfold read_array. intros H. content_of H read_array_loop_content.
Qed.

Lemma read_dictionary_loop_content fuel : forall dictionary f dictionary' f',
  read_dictionary_loop parser fuel dictionary f = Ok (dictionary', f') ->
  content f' = content f.
Proof.
  induction fuel as [|fuel IH]; intros dictionary f dictionary' f' H;
    [discriminate|].
  step_in read_dictionary_loop H. run_cases H;
    try (injection H as _ <-);
    repeat match goal with
      | E : parser _ _ = Ok _ |- _ => apply parser_content in E
      | E : read_name_loop _ _ _ = Ok _ |- _ =>
          apply read_name_loop_content in E
      end;
    same_content IH.
Qed.

Lemma read_dictionary_or_stream_content fuel indirect f dictionary f' :
  read_dictionary_or_stream F parser fuel indirect f = Ok (dictionary, f') ->
  content f' = content f.
Proof.
  unfold read_dictionary_or_stream. intros H. run_cases H;
    try (injection H as _ <-);
    repeat match goal with
      | E : read_dictionary_loop _ _ _ _ = Ok _ |- _ =>
          apply read_dictionary_loop_content in E
      | E : jump_to_next_line _ _ = Ok _ |- _ =>
          apply jump_to_next_line_content in E
      | E : cos.getitem _ _ = Ok _ |- _ => clear E
      | E : cos.to_int _ = Ok _ |- _ => clear E
      | E : assert _ = Ok _ |- _ => clear E
      | E : select_filter _ _ = Ok _ |- _ => clear E
      end;
    same_content I.
Qed.

End Items.

Lemma read_reference_content fuel value f item f' :
  read_reference fuel value f = Ok (item, f') -> content f' = content f.
Proof.
  unfold read_reference. intros H.
  run_cases H;
    match type of H with
    | match ?generation with _ => _ end = _ => destruct generation
    end;
    try discriminate H; injection H as _ <-;
    repeat match goal with
      | E : read_number _ _ _ = Ok _ |- _ => apply read_number_content in E
      end;
    same_content I.
Qed.

Lemma next_item_content F fuel : forall indirect f item f',
  next_item F fuel indirect f = Ok (item, f') -> content f' = content f.
Proof.
  induction fuel as [|fuel IH]; intros indirect f item f' H; [discriminate|].
  step_in next_item H.
  destruct (eat_whitespace fuel f) as [f0| |] eqn:E0; try discriminate H.
  binds_in H. apply eat_whitespace_content in E0.
  destruct (next_token fuel f0) as [[token f1]| |] eqn:E1; try discriminate H.
  binds_in H. apply next_token_content in E1.
  destruct (bytes_eq token cos.String_PREFIX);
    [apply read_string_content in H; congruence|].
  destruct (bytes_eq token cos.HexString_PREFIX);
    [apply read_hex_string_content in H; congruence|].
  destruct (bytes_eq token cos.Array_PREFIX);
    [apply (read_array_content _ IH) in H; congruence|].
  destruct (bytes_eq token cos.Name_PREFIX);
    [apply read_name_content in H; congruence|].
  destruct (bytes_eq token cos.Dictionary_PREFIX);
    [apply (read_dictionary_or_stream_content _ _ IH) in H; congruence|].
  destruct (bytes_eq token (b "true")); [injection H as _ <-; congruence|].
  destruct (bytes_eq token (b "false")); [injection H as _ <-; congruence|].
  destruct (bytes_eq token (b "null")); [injection H as _ <-; congruence|].
  destruct (seek (tell f0) f1) as [f2| |] eqn:E2; try discriminate H.
  binds_in H. apply seek_content in E2.
  destruct (read_number fuel indirect f2) as [[number f3]| |] eqn:E3;
    try discriminate H.
  binds_in H. apply read_number_content in E3.
  destruct number; try (injection H as _ <-; congruence).
  unfold except_ValueError in H.
  destruct (read_reference fuel value f3) as [[r f4]|e|] eqn:E4.
  - injection H as _ <-. apply read_reference_content in E4. congruence.
  - destruct (is_ValueError e); [|discriminate H].
    destruct (seek (tell f3) f3) as [f5| |] eqn:E5; try discriminate H.
    binds_in H. injection H as _ <-. apply seek_content in E5. congruence.
  - discriminate H.
Qed.



(** ** Indirect objects and the cache *)

Lemma parse_indirect_object_file F fuel address self identifier obj self' :
  parse_indirect_object F fuel address self = Ok (identifier, obj, self') ->
  file self' = file self /\
  exists generation,
    _by_object_id self' =
      <[allocated self := (identifier, generation)]> (_by_object_id self).
Proof.
  intros H. unfold parse_indirect_object in H. binds_ok H.
  injection H as <- <- <-. cbn [file _by_object_id object_id].
  split;
    [|match goal with
      | |- exists g, <[_ := (_, ?generation)]> _ = _ =>
          exists generation; reflexivity
      end].
  repeat match goal with
    | E : read_number _ _ _ = Ok _ |- _ => apply read_number_content in E
    | E : next_item _ _ _ _ = Ok _ |- _ => apply next_item_content in E
    | E : eat_whitespace _ _ = Ok _ |- _ => apply eat_whitespace_content in E
    | E : next_token _ _ = Ok _ |- _ => apply next_token_content in E
    | E : seek address _ = Ok _ |- _ => apply seek_content in E
    end.
  match goal with
  | E : seek (tell (file self)) ?g = Ok ?f' |- _ =>
      rewrite (seek_tell_of (file self) g) in E by congruence;
      now injection E as <-
  end.
Qed.



Lemma getitem_state F fuel identifier self obj self' :
  __getitem__ F fuel identifier self = Ok (obj, self') ->
  (objects self !! identifier = Some obj /\ self' = self) \/
  (objects self !! identifier = None /\
   file self' = file self /\ _xref self' = _xref self /\
   objects self' = <[identifier := obj]> (objects self) /\
   object_id obj = allocated self /\ allocated self' = S (allocated self)).
Proof.
  intros H. destruct (objects self !! identifier) as [cached|] eqn:Hcache.
  - left. rewrite (getitem_cached F fuel identifier self cached Hcache) in H.
    now injection H as <- <-.
  - right. split; [reflexivity|].
    destruct (getitem_miss F fuel identifier self obj self' Hcache H)
      as (address & parsed & _ & Hp & ->).
    destruct (parse_indirect_object_file _ _ _ _ _ _ _ Hp) as (Hfile & _).
    destruct (parse_indirect_object_state _ _ _ _ _ _ _ Hp)
      as (Hxref & Hobjects & _ & Hid & Halloc).
    cbn [__setitem__ file _xref objects allocated].
    now rewrite Hobjects.
Qed.

(** X16.  The identities of the cached objects: every access keeps
    them below the identity of the next object and different from one
    another, so that two identifiers never share an object.  An access
    leaves the file and the table as they are and changes the cache at
    the identifier it is asked for only. *)
Theorem getitem_keeps_identities F fuel identifier self obj self' :
  identities_fresh self -> identities_distinct self ->
  __getitem__ F fuel identifier self = Ok (obj, self') ->
  identities_fresh self' /\ identities_distinct self' /\
  file self' = file self /\ _xref self' = _xref self /\
  objects self' !! identifier = Some obj /\
  forall other, other <> identifier ->
    objects self' !! other = objects self !! other.
Proof.
  intros Hfresh Hdistinct H.
  destruct (getitem_state _ _ _ _ _ _ H)
    as [(Hhit & ->)|(Hmiss & Hfile & Hxref & Hobjects & Hid & Halloc)];
    [now repeat split|].
  assert (Hother : forall other, other <> identifier ->
            objects self' !! other = objects self !! other)
    by (intros other Ho; rewrite Hobjects; now apply lookup_insert_ne).
  assert (Hself : objects self' !! identifier = Some obj)
    by (rewrite Hobjects; apply lookup_insert_eq).
  assert (Hcases : forall k o, objects self' !! k = Some o ->
            (k = identifier /\ o = obj) \/
            (k <> identifier /\ objects self !! k = Some o)).
  { intros k o Hk. destruct (Z.eq_dec k identifier) as [->|Hne].
    - left. split; [reflexivity|]. congruence.
    - right. split; [assumption|]. now rewrite <- (Hother k Hne). }
  repeat split; try assumption.
  - intros k o Hk. rewrite Halloc.
    destruct (Hcases k o Hk) as [(-> & ->)|(_ & Hold)]; [lia|].
    apply Hfresh in Hold. lia.
  - intros i j oi oj Hi Hj Heq.
    destruct (Hcases i oi Hi) as [(-> & ->)|(_ & Hi')],
             (Hcases j oj Hj) as [(-> & ->)|(_ & Hj')]; try reflexivity.
    + apply Hfresh in Hj'. lia.
    + apply Hfresh in Hi'. lia.
    + exact (Hdistinct i j oi oj Hi' Hj' Heq).
Qed.

Lemma getitem_keeps_identities_witness :
  let self := Reader (File two_generations 173) {[1 := 9; 5 := 192]} ∅ ∅ 0 in
  exists o1 s1 o5 s5,
    __getitem__ [] 100 1 self = Ok (o1, s1) /\
    __getitem__ [] 100 5 s1 = Ok (o5, s5) /\
    object_id o1 <> object_id o5 /\ file s5 = File two_generations 173.
Proof.
  intros self.
  assert (H1 : exists o1 s1, __getitem__ [] 100 1 self = Ok (o1, s1))
    by (eexists _, _; vm_compute; reflexivity).
  destruct H1 as (o1 & s1 & H1).
  assert (Hfresh : identities_fresh self) by (intros k o Hk; discriminate Hk).
  assert (Hdistinct : identities_distinct self)
    by (intros i j oi oj Hi; discriminate Hi).
  destruct (getitem_keeps_identities [] 100 1 self o1 s1 Hfresh Hdistinct H1)
    as (Hfresh1 & Hdistinct1 & Hfile1 & Hxref1 & Ho1 & Hrest1).
  assert (H5 : exists o5 s5, __getitem__ [] 100 5 s1 = Ok (o5, s5)).
  { destruct (getitem_state _ _ _ _ _ _ H1)
      as [(Hhit & _)|(_ & _ & _ & Hobjects & _ & _)]; [discriminate Hhit|].
    destruct s1 as [f1 x1 c1 b1 a1]. cbn [file _xref objects] in *.
    subst f1 x1 c1. eexists _, _. vm_compute. reflexivity. }
  destruct H5 as (o5 & s5 & H5).
  destruct (getitem_keeps_identities [] 100 5 s1 o5 s5 Hfresh1 Hdistinct1 H5)
    as (_ & Hdistinct5 & Hfile5 & _ & Ho5 & Hrest5).
  exists o1, s1, o5, s5. repeat split; try assumption.
  - intros Heq.
    assert (Ho1' : objects s5 !! 1 = Some o1)
      by (rewrite (Hrest5 1) by discriminate; exact Ho1).
    discriminate (Hdistinct5 1 5 o1 o5 Ho1' Ho5 Heq).
  - now rewrite Hfile5, Hfile1.
Defined.

(** ** Cross-reference tables *)

Lemma read_short n f :
  (length (remaining f) <= n)%nat ->
  read n f = (remaining f, advance (length (remaining f)) f).
Proof.
  intros H. with_strategy transparent [read] unfold read.
  unfold remaining, advance in *. now rewrite firstn_all2 by assumption.
Qed.

Lemma record_entries_lookup entries : forall identifier xref k,
  record_entries identifier entries xref !! k =
    if (identifier <=? k) && (k <? identifier + Z.of_nat (length entries))
    then match entries !! Z.to_nat (k - identifier) with
         | Some (Some address) => Some address
         | _ => xref !! k
         end
    else xref !! k.
Proof.
  induction entries as [|entry entries IH]; intros identifier xref k;
    cbn [record_entries length].
  - destruct (Z.leb_spec identifier k), (Z.ltb_spec k (identifier + Z.of_nat 0));
      cbn [andb]; try reflexivity; lia.
  - rewrite IH.
    assert (Hne : k <> identifier ->
              match entry with
              | Some address => <[identifier := address]> xref
              | None => xref
              end !! k = xref !! k)
      by (intros Hk; destruct entry; [apply lookup_insert_ne; lia|reflexivity]).
    destruct (Z.leb_spec (identifier + 1) k),
             (Z.ltb_spec k (identifier + 1 + Z.of_nat (length entries)));
      destruct (Z.leb_spec identifier k),
               (Z.ltb_spec k (identifier + Z.of_nat (S (length entries))));
      cbn [andb]; try lia; try (apply Hne; lia).
    + replace (Z.to_nat (k - identifier))
        with (S (Z.to_nat (k - (identifier + 1)))) by lia.
      change ((entry :: entries) !! S ?n) with (entries !! n).
      rewrite Hne by lia. reflexivity.
    + assert (k = identifier) by lia. subst k.
      rewrite Z.sub_diag. cbn [Z.to_nat].
      change ((entry :: entries) !! 0%nat) with (Some entry).
      destruct entry; [apply lookup_insert_eq|reflexivity].
Qed.

Lemma parse_xref_records_run lines : forall entries identifier xref f rest,
  Forall2 table_record lines entries ->
  remaining f = concat lines ++ rest ->
  parse_xref_records (length lines) identifier xref f =
    Ok (Next (record_entries identifier entries xref)
          (advance (20 * length lines) f)).
Proof.
  induction lines as [|line lines IH];
    intros entries identifier xref f rest Hlines Hrem;
    inversion Hlines as [|? entry ? entries' Hline Hrest]; subst.
  - cbn [length parse_xref_records record_entries]. now rewrite advance_0.
  - cbn [concat length] in *. rewrite <- app_assoc in Hrem.
    destruct entry as [address|].
    + destruct Hline as (Hlen & Hmark & Haddress & [generation Hgeneration]).
      rewrite (parse_xref_records_in_use _ _ _ _ line _ Hrem Hlen Hmark).
      rewrite Haddress, Hgeneration.
      apply remaining_advance in Hrem. rewrite Hlen in Hrem.
      rewrite (IH entries' _ _ _ rest Hrest Hrem), advance_advance.
      cbn [record_entries]. do 2 f_equal. apply advance_eq. lia.
    + destruct Hline as (Hlen & Hmark & Hgeneration).
      rewrite (parse_xref_records_free _ _ _ _ line _ Hrem Hlen Hmark).
      rewrite Hgeneration. change (65535 =? 65535) with true. cbn iota.
      apply remaining_advance in Hrem. rewrite Hlen in Hrem.
      rewrite (IH entries' _ _ _ rest Hrest Hrem), advance_advance.
      cbn [record_entries]. do 2 f_equal. apply advance_eq. lia.
Qed.

Lemma record_entries_table identifier entries xref :
  let table := record_entries identifier entries xref in
  (forall k address, entries !! k = Some (Some address) ->
     table !! (identifier + Z.of_nat k) = Some address) /\
  (forall k, entries !! k = Some None ->
     table !! (identifier + Z.of_nat k) = xref !! (identifier + Z.of_nat k)) /\
  (forall other,
     other < identifier \/ identifier + Z.of_nat (length entries) <= other ->
     table !! other = xref !! other).
Proof.
  cbv zeta. split; [|split].
  - intros k address Hk. pose proof (lookup_lt_Some _ _ _ Hk) as Hlt.
    rewrite record_entries_lookup.
    destruct (Z.leb_spec identifier (identifier + Z.of_nat k)); [|lia].
    destruct (Z.ltb_spec (identifier + Z.of_nat k)
                (identifier + Z.of_nat (length entries))); [|lia].
    cbn [andb].
    replace (Z.to_nat (identifier + Z.of_nat k - identifier)) with k by lia.
    now rewrite Hk.
  - intros k Hk. pose proof (lookup_lt_Some _ _ _ Hk) as Hlt.
    rewrite record_entries_lookup.
    destruct (Z.leb_spec identifier (identifier + Z.of_nat k)); [|lia].
    destruct (Z.ltb_spec (identifier + Z.of_nat k)
                (identifier + Z.of_nat (length entries))); [|lia].
    cbn [andb].
    replace (Z.to_nat (identifier + Z.of_nat k - identifier)) with k by lia.
    now rewrite Hk.
  - intros other Hother. rewrite record_entries_lookup.
    destruct (Z.leb_spec identifier other),
             (Z.ltb_spec other (identifier + Z.of_nat (length entries)));
      cbn [andb]; try reflexivity; lia.
Qed.

(** X17.  A run of records of a plain table, free ones with the
    generation 65535 and records in use: the record loop of
    [parse_xref_table] gives each identifier of a record in use the
    offset of its record, counting the identifiers from the first one
    on; a free record and the identifiers outside the run keep what the
    table had for them.  The cursor is left after the last record. *)
Theorem xref_records_run lines entries identifier xref f rest :
  Forall2 table_record lines entries ->
  remaining f = concat lines ++ rest ->
  exists table,
    parse_xref_records (length lines) identifier xref f =
      Ok (Next table (advance (20 * length lines) f)) /\
    (forall k address, entries !! k = Some (Some address) ->
       table !! (identifier + Z.of_nat k) = Some address) /\
    (forall k, entries !! k = Some None ->
       table !! (identifier + Z.of_nat k) = xref !! (identifier + Z.of_nat k)) /\
    (forall other,
       other < identifier \/ identifier + Z.of_nat (length entries) <= other ->
       table !! other = xref !! other).
Proof.
  intros Hlines Hrem. exists (record_entries identifier entries xref).
  split; [now apply (parse_xref_records_run lines entries _ _ _ rest)|].
  apply record_entries_table.
Qed.

Lemma xref_records_run_witness :
  exists table,
    parse_xref_records 3 0 {[3 := 15]}
      (File (lines ["0000000000 65535 f "; "0000000017 00000 n ";
                    "0000000081 00002 n "; "trailer"]) 0)
      = Ok (Next table
              (File (lines ["0000000000 65535 f "; "0000000017 00000 n ";
                            "0000000081 00002 n "; "trailer"]) 60)) /\
    table !! 0 = None /\ table !! 1 = Some 17 /\ table !! 2 = Some 81 /\
    table !! 3 = Some 15.
Proof.
  assert (H0 : table_record (b "0000000000 65535 f " ++ [LF]) None)
    by (repeat split; vm_compute; eauto).
  assert (H1 : table_record (b "0000000017 00000 n " ++ [LF]) (Some 17))
    by (repeat split; vm_compute; eauto).
  assert (H2 : table_record (b "0000000081 00002 n " ++ [LF]) (Some 81))
    by (repeat split; vm_compute; eauto).
  destruct (xref_records_run
              [b "0000000000 65535 f " ++ [LF]; b "0000000017 00000 n " ++ [LF];
               b "0000000081 00002 n " ++ [LF]]
              [None; Some 17; Some 81] 0 {[3 := 15]}
              (File (lines ["0000000000 65535 f "; "0000000017 00000 n ";
                            "0000000081 00002 n "; "trailer"]) 0)
              (b "trailer" ++ [LF])
              ltac:(constructor; [exact H0|constructor;
                      [exact H1|constructor; [exact H2|constructor]]])
              eq_refl)
    as (table & Hrun & Hin & Hfree & Hout).
  exists table. split; [exact Hrun|]. split; [|split; [|split]].
  - pose proof (Hfree 0%nat eq_refl) as H. change (0 + Z.of_nat 0) with 0 in H.
    rewrite H. vm_compute. reflexivity.
  - pose proof (Hin 1%nat 17 eq_refl) as H. change (0 + Z.of_nat 1) with 1 in H.
    exact H.
  - pose proof (Hin 2%nat 81 eq_refl) as H. change (0 + Z.of_nat 2) with 2 in H.
    exact H.
  - assert (H : 0 + Z.of_nat (length [@None Z; Some 17; Some 81]) <= 3)
      by (vm_compute; discriminate).
    rewrite (Hout 3 (or_intror H)). vm_compute. reflexivity.
Defined.

(** X18.  A record that the end of the input cuts before its marker:
    the test of [line[17]] raises [IndexError], which the handler of
    [ValueError] in [parse_xref_table] does not catch. *)
Theorem xref_record_truncated count identifier xref f :
  (length (remaining f) < 18)%nat ->
  parse_xref_records (S count) identifier xref f = Raise IndexError.
Proof.
  intros H. cbn [parse_xref_records]. rewrite read_short by lia.
  replace (remaining f !! 17%nat) with (@None byte); [reflexivity|].
  symmetry. apply lookup_ge_None. lia.
Qed.

Lemma xref_record_truncated_witness :
  parse_xref_records 1 0 ∅ (File (b "0000000017 00000") 0) = Raise IndexError.
Proof.
  exact (xref_record_truncated 0 0 ∅ (File (b "0000000017 00000") 0)
           ltac:(vm_compute; lia)).
Defined.

Lemma jump_to_next_line_at_LF fuel f rest :
  remaining f = LF :: rest -> jump_to_next_line (S fuel) f = Ok (advance 1 f).
Proof.
  intros Hrem. step jump_to_next_line. now rewrite (read_1_byte _ _ _ Hrem).
Qed.

Lemma py_int_nonempty text v : py_int 10 text = Some v -> text <> [].
Proof. now intros H ->. Qed.

Lemma length_concat_20 lines entries :
  Forall2 table_record lines entries ->
  length (concat lines) = (20 * length lines)%nat.
Proof.
  induction 1 as [|line entry lines entries Hline _ IH]; [reflexivity|].
  assert (Hlen : length line = 20%nat)
    by (destruct entry; [apply Hline|apply Hline]).
  cbn [concat length]. rewrite length_app, Hlen, IH. lia.
Qed.

Lemma parse_xref_table_run fuel f offset first_text total_text first lines
  entries c rest :
  0 <= offset ->
  skipn (Z.to_nat offset) (content f) =
    b "xref" ++ LF :: first_text ++ x20 :: total_text ++
    LF :: concat lines ++ c :: rest ->
  forallb is_number_char first_text = true ->
  py_int 10 first_text = Some first ->
  forallb is_number_char total_text = true ->
  py_int 10 total_text = Some (Z.of_nat (length lines)) ->
  Forall2 table_record lines entries ->
  is_number_char c = false -> is_whitespace c = false ->
  (length first_text + length total_text + 6 < fuel)%nat ->
  parse_xref_table fuel offset f =
    Ok (record_entries first entries ∅,
        File (content f)
          (Z.to_nat offset + 7 + length first_text + length total_text +
           20 * length lines)).
Proof.
  intros Hoffset Hrem Hfirst Hfirst_v Htotal Htotal_v Hlines Hcn Hcw Hfuel.
  pose proof (py_int_nonempty _ _ Hfirst_v) as Hfirst_ne.
  pose proof (py_int_nonempty _ _ Htotal_v) as Htotal_ne.
  unfold parse_xref_table, seek.
  destruct (Z.ltb_spec offset 0) as [|_]; [lia|]. binds.
  set (g := File (content f) (Z.to_nat offset)).
  change (remaining g = b "xref" ++ LF :: first_text ++ x20 :: total_text ++
            LF :: concat lines ++ c :: rest) in Hrem.
  change (b "xref") with ("x"%byte :: b "ref") in Hrem. cbn [app] in Hrem.
  rewrite (next_token_regular fuel g _ (b "ref") _ Hrem eq_refl eq_refl)
    by (vm_compute length; lia).
  binds. change (assert _) with (Ok tt). binds.
  apply (remaining_advance (_ :: b "ref")) in Hrem.
  change (S (length (b "ref")) - unread _)%nat with 4%nat.
  change (length (_ :: b "ref")) with 4%nat in Hrem.
  destruct fuel as [|fuel]; [lia|]. step parse_xref_subsections.
  rewrite (read_number_text_run fuel _ [LF] first_text x20 _ Hrem eq_refl Hfirst
             eq_refl) by (cbn [length]; lia || contradiction).
  binds. rewrite (make_number_Integer _ _ false Hfirst_v).
  cbn [cos.to_int]. binds.
  apply (remaining_advance [LF]) in Hrem. apply remaining_advance in Hrem.
  rewrite !advance_advance in *. cbn [length] in *.
  rewrite (read_number_text_run fuel _ [x20] total_text LF _ Hrem eq_refl Htotal
             eq_refl) by (cbn [length]; lia || contradiction).
  binds. rewrite (make_number_Integer _ _ false Htotal_v).
  apply (remaining_advance [x20]) in Hrem. apply remaining_advance in Hrem.
  rewrite !advance_advance in *. cbn [length] in *.
  destruct fuel as [|fuel]; [lia|].
  rewrite (jump_to_next_line_at_LF _ _ _ Hrem). binds.
  apply remaining_advance_1 in Hrem. rewrite !advance_advance in *.
  rewrite Nat2Z.id.
  rewrite (parse_xref_records_run lines entries _ _ _ _ Hlines Hrem).
  binds. apply remaining_advance in Hrem.
  rewrite (length_concat_20 lines entries Hlines) in Hrem.
  rewrite !advance_advance in *.
  step parse_xref_subsections.
  rewrite (read_number_text_run fuel _ [] [] c rest Hrem eq_refl eq_refl Hcn)
    by (cbn [length]; lia || auto).
  binds. change (make_number [] false) with (@Raise cos.Object ValueError).
  cbn [is_ValueError]. do 2 f_equal. unfold advance, g. cbn [content cursor].
  f_equal. cbn [length]. lia.
Qed.

(** X19.  A table of one subsection, as [parse_xref_table] reads it
    from its offset: the keyword [xref], the first identifier and the
    number of records on a line of their own, then the records.  The
    table that is returned maps the identifiers of the records in use to
    their offsets and has no other identifier; the loop over the
    subsections ends at the first token that is no number, by the handler
    of [ValueError], and leaves the cursor on that token. *)
Theorem parse_xref_table_subsection fuel f offset first_text total_text first
  lines entries c rest :
  0 <= offset ->
  skipn (Z.to_nat offset) (content f) =
    b "xref" ++ LF :: first_text ++ x20 :: total_text ++
    LF :: concat lines ++ c :: rest ->
  forallb is_number_char first_text = true ->
  py_int 10 first_text = Some first ->
  forallb is_number_char total_text = true ->
  py_int 10 total_text = Some (Z.of_nat (length lines)) ->
  Forall2 table_record lines entries ->
  is_number_char c = false -> is_whitespace c = false ->
  (length first_text + length total_text + 6 < fuel)%nat ->
  exists table,
    parse_xref_table fuel offset f =
      Ok (table,
          File (content f)
            (Z.to_nat offset + 7 + length first_text + length total_text +
             20 * length lines)) /\
    (forall k address, entries !! k = Some (Some address) ->
       table !! (first + Z.of_nat k) = Some address) /\
    (forall other,
       (forall k address, entries !! k = Some (Some address) ->
          other <> first + Z.of_nat k) ->
       table !! other = None).
Proof.
  intros Hoffset Hrem Hfirst Hfirst_v Htotal Htotal_v Hlines Hcn Hcw Hfuel.
  exists (record_entries first entries ∅). split; [|split].
  - now apply (parse_xref_table_run fuel f offset first_text total_text first
                 lines entries c rest).
  - apply record_entries_table.
  - intros other Hother. rewrite record_entries_lookup.
    destruct ((first <=? other) && (other <? first + Z.of_nat (length entries)))
      eqn:Hrange; [|apply lookup_empty].
    apply andb_prop in Hrange as [Hle%Z.leb_le _].
    destruct (entries !! Z.to_nat (other - first)) as [[address|]|] eqn:Hentry;
      try apply lookup_empty.
    exfalso. apply (Hother _ _ Hentry). lia.
Qed.

Lemma parse_xref_table_subsection_witness :
  let data := lines ["%PDF"; "xref"; "0 3"; "0000000000 65535 f ";
                     "0000000017 00000 n "; "0000000081 00002 n "; "trailer"] in
  exists table,
    parse_xref_table 20 5 (File data 0) = Ok (table, File data 74) /\
    table !! 1 = Some 17 /\ table !! 2 = Some 81 /\ table !! 0 = None.
Proof.
  intros data.
  assert (H0 : table_record (b "0000000000 65535 f " ++ [LF]) None)
    by (repeat split; vm_compute; eauto).
  assert (H1 : table_record (b "0000000017 00000 n " ++ [LF]) (Some 17))
    by (repeat split; vm_compute; eauto).
  assert (H2 : table_record (b "0000000081 00002 n " ++ [LF]) (Some 81))
    by (repeat split; vm_compute; eauto).
  destruct (parse_xref_table_subsection 20 (File data 0) 5 (b "0") (b "3") 0
              [b "0000000000 65535 f " ++ [LF]; b "0000000017 00000 n " ++ [LF];
               b "0000000081 00002 n " ++ [LF]]
              [None; Some 17; Some 81] "t"%byte (b "railer" ++ [LF])
              ltac:(lia) eq_refl eq_refl eq_refl eq_refl eq_refl
              ltac:(constructor; [exact H0|constructor;
                      [exact H1|constructor; [exact H2|constructor]]])
              eq_refl eq_refl ltac:(vm_compute; lia))
    as (table & Hrun & Hin & Hout).
  exists table. split; [exact Hrun|]. split; [|split].
  - pose proof (Hin 1%nat 17 eq_refl) as H. change (0 + Z.of_nat 1) with 1 in H.
    exact H.
  - pose proof (Hin 2%nat 81 eq_refl) as H. change (0 + Z.of_nat 2) with 2 in H.
    exact H.
  - apply Hout. intros [|[|[|k]]] address Hk; try discriminate Hk;
      vm_compute; discriminate.
Defined.

(** ** The search for [startxref] *)

Lemma read_at n f :
  read n f =
    (firstn n (remaining f), advance (length (firstn n (remaining f))) f).
Proof. with_strategy transparent [read] unfold read. reflexivity. Qed.

(** The search depends on the content of the file only: every iteration
    starts with a [seek]. *)
Lemma find_xref_offset_loop_cursor fuel offset g1 g2 :
  content g1 = content g2 ->
  find_xref_offset_loop fuel offset g1 = find_xref_offset_loop fuel offset g2.
Proof.
  intros H. destruct fuel as [|fuel]; [reflexivity|].
  cbn [find_xref_offset_loop]. unfold seek. now rewrite H.
Qed.

Lemma find_xref_offset_loop_miss fuel k g :
  occurs_at (b "startxref") (content g) k = false ->
  find_xref_offset_loop (S fuel) (Z.of_nat k) g =
    find_xref_offset_loop fuel (Z.of_nat k - 1) (File (content g) 0).
Proof.
  intros Hmiss. step find_xref_offset_loop. unfold seek.
  destruct (Z.ltb_spec (Z.of_nat k) 0) as [|_]; [lia|]. binds.
  rewrite Nat2Z.id, read_at.
  unfold occurs_at in Hmiss. change (length (b "startxref")) with 9%nat in Hmiss.
  unfold remaining at 1. cbn [cursor content]. rewrite Hmiss.
  now apply find_xref_offset_loop_cursor.
Qed.

Lemma find_xref_offset_loop_none n : forall fuel offset g,
  (forall k, occurs_at (b "startxref") (content g) k = false) ->
  offset < Z.of_nat n -> (n < fuel)%nat ->
  find_xref_offset_loop fuel offset g = Raise OSError.
Proof.
  induction n as [|n IH]; intros fuel offset g Hnone Hoffset Hfuel;
    (destruct fuel as [|fuel]; [lia|]).
  - cbn [find_xref_offset_loop]. unfold seek.
    destruct (Z.ltb_spec offset 0); [reflexivity|lia].
  - destruct (Z.ltb_spec offset 0) as [Hneg|Hpos].
    + cbn [find_xref_offset_loop]. unfold seek.
      destruct (Z.ltb_spec offset 0); [reflexivity|lia].
    + rewrite <- (Z2Nat.id offset Hpos).
      rewrite (find_xref_offset_loop_miss fuel _ g (Hnone _)).
      apply IH; [exact Hnone|lia|lia].
Qed.

(** X20.  The search for [startxref] goes back from the end of the
    file one byte at a time and has no lower bound: in a file that does
    not hold the text, it ends with the error of the [seek] to the
    offset -1 (an [OSError] for a file opened by [open]), not with an
    error about the file. *)
Theorem find_xref_offset_without_startxref fuel f :
  (forall k, occurs_at (b "startxref") (content f) k = false) ->
  (length (content f) < fuel)%nat ->
  find_xref_offset fuel f = Raise OSError.
Proof.
  intros Hnone Hfuel. unfold find_xref_offset.
  rewrite (find_xref_offset_loop_none (length (content f)) fuel _ (seek_end f));
    [reflexivity|exact Hnone| |exact Hfuel].
  unfold tell, seek_end. cbn [cursor]. lia.
Qed.

Lemma find_xref_offset_without_startxref_witness :
  find_xref_offset 20 (File (lines ["%PDF-1.4"; "%%EOF"]) 0) = Raise OSError.
Proof.
  apply find_xref_offset_without_startxref; [|vm_compute; lia].
  intros k. do 16 (destruct k as [|k]; [reflexivity|]). reflexivity.
Defined.

Lemma no_s_miss region : forall i,
  forallb (fun c => negb (Byte.eqb c "s")) region = true ->
  bytes_eq (firstn 9 (skipn i region)) (b "startxref") = false.
Proof.
  induction region as [|x region IH]; intros i H.
  - now destruct i.
  - cbn [forallb] in H. apply andb_prop in H as [Hx H]. destruct i as [|i].
    + cbn [skipn firstn]. change (b "startxref") with ("s"%byte :: b "tartxref").
      cbn [bytes_eq]. apply negb_true_iff in Hx. now rewrite Hx.
    + cbn [skipn]. now apply IH.
Qed.

Lemma ascii_digit_classes c :
  is_ascii_digit c = true ->
  is_number_char c = true /\ Byte.eqb c "s" = false.
Proof. destruct c; intros H; try discriminate H; split; reflexivity. Qed.

Lemma digits_classes digits :
  forallb is_ascii_digit digits = true ->
  forallb is_number_char digits = true /\
  forallb (fun c => negb (Byte.eqb c "s")) digits = true.
Proof.
  induction digits as [|c digits IH]; [now split|]. cbn [forallb].
  intros H. apply andb_prop in H as [Hc H].
  destruct (ascii_digit_classes c Hc) as [-> ->], (IH H) as [-> ->].
  now split.
Qed.

Lemma py_int_digits digits :
  forallb is_ascii_digit digits = true -> digits <> [] ->
  py_int 10 digits = Some (decimal_value digits).
Proof.
  intros Hdigits Hne. destruct (digits_classes digits Hdigits) as [Hnumber _].
  unfold py_int. rewrite (strip_number_chars digits Hnumber).
  destruct digits as [|c rest]; [contradiction|].
  pose proof Hdigits as Hc. cbn [forallb] in Hc. apply andb_prop in Hc as [Hc _].
  assert (Hsign : Byte.eqb c "-" = false /\ Byte.eqb c "+" = false)
    by (revert Hc; clear; destruct c; intros H; try discriminate H;
        split; reflexivity).
  destruct Hsign as [-> ->].
  rewrite int_prefix_10, (int_digits_number (c :: rest) false 0 Hnumber), Hdigits.
  reflexivity.
Qed.

Lemma find_xref_offset_loop_back n : forall fuel k g,
  (forall j, (k < j <= k + n)%nat ->
     occurs_at (b "startxref") (content g) j = false) ->
  find_xref_offset_loop (n + fuel) (Z.of_nat (k + n)) g =
    find_xref_offset_loop fuel (Z.of_nat k) (File (content g) 0).
Proof.
  induction n as [|n IH]; intros fuel k g Hmiss.
  - rewrite Nat.add_0_r. cbn [Nat.add].
    now apply find_xref_offset_loop_cursor.
  - cbn [Nat.add].
    rewrite (find_xref_offset_loop_miss _ _ g (Hmiss (k + S n)%nat ltac:(lia))).
    replace (Z.of_nat (k + S n) - 1) with (Z.of_nat (k + n)) by lia.
    rewrite (IH fuel k (File (content g) 0)); [reflexivity|].
    intros j Hj. apply Hmiss. lia.
Qed.

(** X21.  A file that ends with [startxref], the offset in decimal
    digits and [%%EOF], each on a line of its own: the search that
    starts five bytes before the end finds the [startxref] and returns
    the offset; the cursor is left after the [%%EOF].  Bytes after the
    [%%EOF] do not matter as long as no [s] is among them. *)
Theorem find_xref_offset_finds_the_offset fuel f pre digits tail :
  content f =
    pre ++ b "startxref" ++ LF :: digits ++ LF :: b "%%EOF" ++ tail ->
  forallb is_ascii_digit digits = true -> digits <> [] ->
  forallb (fun c => negb (Byte.eqb c "s")) tail = true ->
  (2 * length digits + length tail + 16 < fuel)%nat ->
  find_xref_offset fuel f =
    Ok (decimal_value digits,
        File (content f) (length pre + length digits + 16)).
Proof.
  intros Hcontent Hdigits Hne Htail Hfuel.
  destruct (digits_classes digits Hdigits) as [Hnumber Hno_s].
  unfold find_xref_offset.
  set (region := b "tartxref" ++ LF :: digits ++ LF :: b "%%EOF" ++ tail).
  assert (Hdata : content f = pre ++ "s"%byte :: region)
    by (rewrite Hcontent; reflexivity).
  assert (Hregion : forallb (fun c => negb (Byte.eqb c "s")) region = true).
  { unfold region. rewrite forallb_app. cbn [forallb].
    rewrite forallb_app. cbn [forallb]. rewrite forallb_app, Hno_s, Htail.
    reflexivity. }
  assert (Hlen : length (content f)
                 = (length pre + length digits + length tail + 16)%nat).
  { rewrite Hcontent. rewrite !length_app. cbn [length].
    rewrite !length_app. cbn [length]. rewrite !length_app.
    change (length (b "startxref")) with 9%nat.
    change (length (b "%%EOF")) with 5%nat. lia. }
  set (n := (length digits + length tail + 11)%nat).
  replace (tell (seek_end f) - 5) with (Z.of_nat (length pre + n))
    by (unfold tell, seek_end, n; cbn [cursor]; lia).
  replace fuel with (n + S (fuel - n - 1))%nat by (unfold n; lia).
  rewrite (find_xref_offset_loop_back n _ (length pre) (seek_end f)).
  - cbn [seek_end content]. set (g := File (content f) 0).
    step find_xref_offset_loop. unfold seek.
    destruct (Z.ltb_spec (Z.of_nat (length pre)) 0) as [|_]; [lia|]. binds.
    rewrite Nat2Z.id.
    set (g0 := File (content g) (length pre)).
    assert (Hrem : remaining g0 =
              b "startxref" ++ LF :: digits ++ LF :: b "%%EOF" ++ tail).
    { unfold remaining, g0, g. cbn [content cursor]. rewrite Hcontent.
      now rewrite skipn_app, skipn_all, Nat.sub_diag. }
    pose proof (read_prefix (b "startxref") _ g0 Hrem) as Hread.
    change (length (b "startxref")) with 9%nat in Hread. rewrite Hread.
    change (bytes_eq (b "startxref") (b "startxref")) with true. cbn iota.
    apply remaining_advance in Hrem.
    change (length (b "startxref")) with 9%nat in *.
    destruct (fuel - n - 1)%nat as [|fuel'] eqn:Hfuel'; [unfold n in *; lia|].
    rewrite (jump_to_next_line_at_LF _ _ _ Hrem). binds.
    apply remaining_advance_1 in Hrem. rewrite advance_advance in *.
    rewrite (read_number_Integer (S fuel') false _ [] digits LF _
               (decimal_value digits) Hrem eq_refl Hnumber
               (py_int_digits digits Hdigits Hne) eq_refl)
      by (cbn [length]; unfold n in *; lia).
    binds. apply (remaining_advance digits) in Hrem.
    rewrite !advance_advance in *. cbn [length] in *.
    rewrite (jump_to_next_line_at_LF _ _ _ Hrem). binds.
    apply remaining_advance_1 in Hrem. rewrite advance_advance in *.
    pose proof (read_prefix (b "%%EOF") _ _ Hrem) as Hmarker.
    change (length (b "%%EOF")) with 5%nat in Hmarker. rewrite Hmarker.
    change (bytes_eq (b "%%EOF") (b "%%EOF")) with true. cbn [negb].
    rewrite advance_advance. step cos.to_int.
    do 2 f_equal. unfold advance, g0, g. cbn [content cursor]. f_equal. lia.
  - intros j Hj. unfold occurs_at. cbn [seek_end content].
    change (length (b "startxref")) with 9%nat. rewrite Hdata.
    replace j with (length pre + S (j - length pre - 1))%nat by lia.
    rewrite skipn_app, skipn_all2 by lia. cbn [app].
    replace (length pre + S (j - length pre - 1) - length pre)%nat
      with (S (j - length pre - 1)) by lia.
    cbn [skipn]. now apply no_s_miss.
Qed.

Lemma find_xref_offset_finds_the_offset_witness :
  find_xref_offset 40
    (File (lines ["%PDF"; "startxref"; "116"; "%%EOF"]) 0)
    = Ok (116, File (lines ["%PDF"; "startxref"; "116"; "%%EOF"]) 24).
Proof.
  exact (find_xref_offset_finds_the_offset 40
           (File (lines ["%PDF"; "startxref"; "116"; "%%EOF"]) 0)
           (b "%PDF" ++ [LF]) (b "116") [LF]
           eq_refl eq_refl ltac:(discriminate) eq_refl
           ltac:(vm_compute; lia)).
Defined.

(** ** The predictor decoder *)

(** X22.  [paeth_predictor] returns one of its three arguments, and
    none of the three is nearer to [a + b - c] than the one it
    returns. *)
Theorem paeth_predictor_nearest a c d :
  let estimate := a + c - d in
  let prediction := paeth_predictor a c d in
  (prediction = a \/ prediction = c \/ prediction = d) /\
  Z.abs (estimate - prediction) <= Z.abs (estimate - a) /\
  Z.abs (estimate - prediction) <= Z.abs (estimate - c) /\
  Z.abs (estimate - prediction) <= Z.abs (estimate - d).
Proof.
  cbv zeta. unfold paeth_predictor.
  destruct (Z.leb_spec (Z.abs (a + c - d - a)) (Z.abs (a + c - d - c)));
    destruct (Z.leb_spec (Z.abs (a + c - d - a)) (Z.abs (a + c - d - d)));
    destruct (Z.leb_spec (Z.abs (a + c - d - c)) (Z.abs (a + c - d - d)));
    cbn [andb]; repeat split; try lia; auto.
Qed.

Lemma to_bytes_length values : length (to_bytes values) = length values.
Proof. unfold to_bytes. apply length_map. Qed.

Lemma to_bytes_values values :
  is_byte_row values = true -> map ord (to_bytes values) = values.
Proof.
  induction values as [|v values IH]; [reflexivity|]. intros H.
  apply is_byte_row_cons in H as [Hv H]. cbn [to_bytes map].
  destruct (byte_of_Z_small v Hv) as (c & -> & ->). f_equal. now apply IH.
Qed.

Lemma pack_row_bytes values :
  is_byte_row values = true -> pack_row values = Ok (to_bytes values).
Proof.
  induction values as [|v values IH]; [reflexivity|]. intros H.
  apply is_byte_row_cons in H as [Hv H]. cbn [pack_row to_bytes map].
  destruct (byte_of_Z_small v Hv) as (c & Hc & _).
  rewrite (pack_B_small v c Hc Hv), Hc. binds. fold (to_bytes values).
  rewrite (IH H). reflexivity.
Qed.

Lemma spec_encode_row_bytes tag row : forall left upper_left above_row,
  length above_row = length row ->
  is_byte_row (spec_encode_row tag left upper_left row above_row) = true /\
  length (spec_encode_row tag left upper_left row above_row) = length row.
Proof.
  induction row as [|x row IH]; intros left upper_left above_row Hlen;
    destruct above_row as [|above above_row]; try discriminate Hlen;
    [now split|].
  cbn [spec_encode_row length]. injection Hlen as Hlen.
  destruct (IH x above above_row Hlen) as [Hbytes Hlength].
  split; [|now rewrite Hlength].
  unfold is_byte_row in *. cbn [forallb]. rewrite Hbytes.
  pose proof (Z.mod_pos_bound (x - spec_prediction tag left above upper_left) 256
                ltac:(lia)) as [H0 H1].
  apply Z.leb_le in H0. apply Z.ltb_lt in H1. now rewrite H0, H1.
Qed.

Lemma read_tag_and_row self tag stored rest :
  0 <= tag < 256 ->
  is_byte_row stored = true -> length stored = columns self ->
  remaining (_source self) = to_bytes (tag :: stored) ++ rest ->
  exists c, ord c = tag /\
    read 1 (_source self) = ([c], advance 1 (_source self)) /\
    read (columns self) (advance 1 (_source self))
      = (to_bytes stored, advance (S (columns self)) (_source self)) /\
    unpack_row (columns self) (to_bytes stored) = Ok stored.
Proof.
  intros Htag Hstored Hlen Hrem. cbn [to_bytes map app] in Hrem.
  destruct (byte_of_Z_small tag Htag) as (c & Hc & Hord).
  rewrite Hc in Hrem. fold (to_bytes stored) in Hrem.
  exists c. split; [exact Hord|]. split; [now apply (read_1_byte c _ _ Hrem)|].
  apply remaining_advance_1 in Hrem. split.
  - pose proof (read_prefix _ _ _ Hrem) as Hread.
    rewrite to_bytes_length, Hlen, advance_advance in Hread. exact Hread.
  - unfold unpack_row. rewrite to_bytes_length, Hlen, Nat.eqb_refl.
    now rewrite (to_bytes_values stored Hstored).
Qed.

(** X23.  [read_from_source] undoes the predictors None, Sub, Up and
    Average on every row, and Paeth on a first row: from the tag and the
    bytes that the encoder stores for a row, it returns the bytes of the
    row, keeps the row as the previous row of the next one, and has read
    the tag and one row from the source. *)
Theorem read_from_source_round_trip self tag row rest :
  In tag [NONE; SUB; UP; AVERAGE] \/
  (tag = PAETH /\ _last_values self = repeat 0 (columns self)) ->
  is_byte_row row = true ->
  length row = columns self ->
  length (_last_values self) = columns self ->
  remaining (_source self) =
    to_bytes (tag :: spec_encode_row tag 0 0 row (_last_values self)) ++ rest ->
  read_from_source self =
    Ok (to_bytes row,
        Reconstructor (advance (S (columns self)) (_source self))
          (columns self) row (buffer self)).
Proof.
  intros Htag Hrow Hlength Hlast Hrem.
  assert (Hlen : length (_last_values self) = length row) by congruence.
  destruct (spec_encode_row_bytes tag row 0 0 (_last_values self) Hlen)
    as [Hstored Hstored_length].
  assert (Hrange : 0 <= tag < 256)
    by (destruct Htag as [Htag|[-> _]];
        [cbn [In] in Htag;
         repeat (destruct Htag as [<-|Htag]; [vm_compute; split; congruence|]);
         contradiction
        |vm_compute; split; congruence]).
  destruct (read_tag_and_row self tag _ rest Hrange Hstored
              ltac:(congruence) Hrem) as (c & Hord & Hread1 & Hread & Hunpack).
  unfold read_from_source. rewrite Hread1, Hord, Hread. binds.
  rewrite Hunpack. binds.
  destruct Htag as [Htag|[-> Hzeros]].
  - cbn [In] in Htag. destruct Htag as [<-|[<-|[<-|[<-|[]]]]].
    + change (NONE =? NONE) with true. cbn iota. binds.
      now rewrite (none_round_trip row 0 0 (_last_values self) Hrow Hlen).
    + change (SUB =? NONE) with false. change (SUB =? SUB) with true. cbn iota.
      rewrite (sub_round_trip row 0 0 (_last_values self) Hrow Hlen).
      now rewrite (pack_row_bytes row Hrow).
    + change (UP =? NONE) with false. change (UP =? SUB) with false.
      change (UP =? UP) with true. cbn iota.
      rewrite (up_round_trip row 0 0 (_last_values self) Hrow Hlen).
      now rewrite (pack_row_bytes row Hrow).
    + change (AVERAGE =? NONE) with false. change (AVERAGE =? SUB) with false.
      change (AVERAGE =? UP) with false.
      change (AVERAGE =? AVERAGE) with true. cbn iota.
      rewrite (average_round_trip row 0 0 (_last_values self) Hrow Hlen).
      now rewrite (pack_row_bytes row Hrow).
  - change (PAETH =? NONE) with false. change (PAETH =? SUB) with false.
    change (PAETH =? UP) with false. change (PAETH =? AVERAGE) with false.
    change (PAETH =? PAETH) with true. cbn iota.
    rewrite Hzeros, <- Hlength.
    rewrite (paeth_round_trip_first_row row 0 Hrow).
    now rewrite (pack_row_bytes row Hrow).
Qed.

Lemma read_from_source_round_trip_witness :
  let first := Reconstructor (File [x01; x0a; x0a; x0a; x02; xf6; x00; x0a] 0)
                 3 [0; 0; 0] [] in
  let second := Reconstructor (File [x01; x0a; x0a; x0a; x02; xf6; x00; x0a] 4)
                  3 [10; 20; 30] [] in
  read_from_source first = Ok ([x0a; x14; x1e], second) /\
  read_from_source second
    = Ok ([x00; x14; x28],
          Reconstructor (File [x01; x0a; x0a; x0a; x02; xf6; x00; x0a] 8)
            3 [0; 20; 40] []).
Proof.
  intros first second. split.
  - exact (read_from_source_round_trip first SUB [10; 20; 30] [x02; xf6; x00; x0a]
             (or_introl (or_intror (or_introl eq_refl)))
             eq_refl eq_refl eq_refl eq_refl).
  - exact (read_from_source_round_trip second UP [0; 20; 40] []
             (or_introl (or_intror (or_intror (or_introl eq_refl))))
             eq_refl eq_refl eq_refl eq_refl).
Defined.

(** X24.  The errors of [read_from_source]: a source that is exhausted
    gives no tag and one that ends inside a row gives a short row, both
    of which [struct] refuses to unpack; and a tag above 4 matches no
    branch, so that [out_row] has no value when it is returned. *)
Theorem read_from_source_errors self :
  (remaining (_source self) = [] ->
     read_from_source self = Raise StructError) /\
  (forall tag stored,
     remaining (_source self) = tag :: stored ->
     (length stored < columns self)%nat ->
     read_from_source self = Raise StructError) /\
  (forall tag stored rest,
     remaining (_source self) = tag :: stored ++ rest ->
     length stored = columns self -> 4 < ord tag ->
     read_from_source self = Raise UnboundLocalError).
Proof.
  unfold read_from_source. split; [|split].
  - intros Hrem. now rewrite (read_1_eof _ Hrem).
  - intros tag stored Hrem Hshort. rewrite (read_1_byte _ _ _ Hrem). binds.
    apply remaining_advance_1 in Hrem.
    rewrite read_short by (rewrite Hrem; lia). rewrite Hrem.
    unfold unpack_row.
    destruct (Nat.eqb_spec (length stored) (columns self)); [lia|reflexivity].
  - intros tag stored rest Hrem Hlen Htag. rewrite (read_1_byte _ _ _ Hrem).
    binds. apply remaining_advance_1 in Hrem.
    pose proof (read_prefix _ _ _ Hrem) as Hread. rewrite Hlen in Hread.
    rewrite Hread. unfold unpack_row. rewrite Hlen, Nat.eqb_refl. binds.
    unfold NONE, SUB, UP, AVERAGE, PAETH.
    destruct (Z.eqb_spec (ord tag) 0); [lia|].
    destruct (Z.eqb_spec (ord tag) 1); [lia|].
    destruct (Z.eqb_spec (ord tag) 2); [lia|].
    destruct (Z.eqb_spec (ord tag) 3); [lia|].
    destruct (Z.eqb_spec (ord tag) 4); [lia|].
    reflexivity.
Qed.

Lemma read_from_source_errors_witness :
  read_from_source (Reconstructor (File [x01; x0a] 2) 3 [0; 0; 0] [])
    = Raise StructError /\
  read_from_source (Reconstructor (File [x01; x0a] 0) 3 [0; 0; 0] [])
    = Raise StructError /\
  read_from_source (Reconstructor (File [x05; x0a; x0b] 0) 2 [0; 0] [])
    = Raise UnboundLocalError.
Proof.
  split; [|split].
  - exact (proj1 (read_from_source_errors
                    (Reconstructor (File [x01; x0a] 2) 3 [0; 0; 0] [])) eq_refl).
  - exact (proj1 (proj2 (read_from_source_errors
                    (Reconstructor (File [x01; x0a] 0) 3 [0; 0; 0] [])))
             x01 [x0a] eq_refl ltac:(vm_compute; lia)).
  - exact (proj2 (proj2 (read_from_source_errors
                    (Reconstructor (File [x05; x0a; x0b] 0) 2 [0; 0] [])))
             x05 [x0a; x0b] [] eq_refl eq_refl ltac:(vm_compute; reflexivity)).
Defined.

(** ** The trailer chain and the cache *)

Lemma parse_xref_records_content count : forall identifier xref f step,
  parse_xref_records count identifier xref f = Ok step ->
  match step with
  | Next _ f' => content f' = content f
  | Break _ f' => content f' = content f
  end.
Proof.
  induction count as [|count IH]; intros identifier xref f step H.
  - injection H as <-. reflexivity.
  - cbn [parse_xref_records] in H.
    destruct (read 20 f) as [line g] eqn:R. apply read_content_eq in R.
    destruct (line !! 17%nat) as [marker|]; [|discriminate H].
    repeat match type of H with
           | context [if ?c then _ else _] => destruct c
           | context [match py_int ?base ?s with _ => _ end] =>
               destruct (py_int base s)
           end;
      try discriminate H;
      try (injection H as <-; exact R);
      apply IH in H; destruct step; congruence.
Qed.

Lemma parse_xref_subsections_content fuel : forall xref f xref' f',
  parse_xref_subsections fuel xref f = Ok (xref', f') ->
  content f' = content f.
Proof.
  induction fuel as [|fuel IH]; intros xref f xref' f' H; [discriminate H|].
  step_in parse_xref_subsections H.
  destruct (read_number_text fuel f) as [[text f1]| |] eqn:E1;
    try discriminate H.
  apply read_number_text_content in E1. binds_in H.
  destruct (make_number text false) as [first|e|]; try discriminate H;
    [|destruct (is_ValueError e); [injection H as _ <-; exact E1|discriminate H]].
  destruct (cos.to_int first) as [first'| |]; try discriminate H. binds_in H.
  destruct (read_number_text fuel f1) as [[text2 f2]| |] eqn:E2;
    try discriminate H.
  apply read_number_text_content in E2. binds_in H.
  destruct (make_number text2 false) as [total|e|]; try discriminate H;
    [|destruct (is_ValueError e);
      [injection H as _ <-; congruence|discriminate H]].
  destruct (jump_to_next_line fuel f2) as [f3| |] eqn:E3; try discriminate H.
  apply jump_to_next_line_content in E3. binds_in H.
  destruct total; try discriminate H.
  destruct (parse_xref_records _ _ _ f3) as [[table f4|table f4]| |] eqn:E4;
    try discriminate H; binds_in H; apply parse_xref_records_content in E4.
  - apply IH in H. congruence.
  - injection H as _ <-. congruence.
Qed.

Lemma parse_xref_table_content fuel offset f xref f' :
  parse_xref_table fuel offset f = Ok (xref, f') -> content f' = content f.
Proof.
  unfold parse_xref_table. intros H.
  destruct (seek offset f) as [f0| |] eqn:E0; try discriminate H.
  apply seek_content in E0. binds_in H.
  destruct (next_token fuel f0) as [[token f1]| |] eqn:E1; try discriminate H.
  apply next_token_content in E1. binds_in H.
  destruct (assert _); try discriminate H. binds_in H.
  apply parse_xref_subsections_content in H. congruence.
Qed.

(** X25.  [parse_trailer] works on the table alone: with all the
    older trailers that it follows through [Prev], it leaves the cache of
    objects, the references by identity and the bytes of the file as they
    are.  The trailer that it returns, the newest one, has no [XRefStm]
    entry, and when it has no [Prev] entry either the table is the one
    that the reader had. *)
Theorem parse_trailer_keeps_the_cache F fuel self trailer self' :
  parse_trailer F fuel self = Ok (trailer, self') ->
  objects self' = objects self /\
  _by_object_id self' = _by_object_id self /\
  allocated self' = allocated self /\
  content (file self') = content (file self) /\
  cos.contains (b "XRefStm") trailer = Ok false /\
  (cos.contains (b "Prev") trailer = Ok false -> _xref self' = _xref self).
Proof.
  revert self trailer self'.
  induction fuel as [|fuel IH]; intros self trailer self' H; [discriminate H|].
  step_in parse_trailer H.
  destruct (next_token fuel (file self)) as [[token f]| |] eqn:E0;
    binds_in H; try discriminate H.
  apply next_token_content in E0.
  destruct (assert _); binds_in H; try discriminate H.
  destruct (jump_to_next_line fuel f) as [f1| |] eqn:E1; binds_in H;
    try discriminate H.
  apply jump_to_next_line_content in E1.
  destruct (next_item F fuel false f1) as [[trailer_dict f2]| |] eqn:E2;
    binds_in H; try discriminate H.
  apply next_item_content in E2.
  destruct (cos.contains (b "XRefStm") trailer_dict) as [[|]| |] eqn:Hstm;
    binds_in H; try discriminate H.
  - destruct (cos.subscript (b "XRefStm") trailer_dict) as [entry| |];
      binds_in H; try discriminate H.
    destruct (cos.to_int entry) as [at_| |]; binds_in H; try discriminate H.
    destruct (parse_xref_stream F fuel at_ (set_file f2 self)) as [r| |] eqn:E;
      binds_in H; try discriminate H.
    now apply parse_xref_stream_not_Ok in E.
  - destruct (cos.contains (b "Prev") trailer_dict) as [[|]| |] eqn:Hprev;
      binds_in H; try discriminate H.
    + destruct (cos.subscript (b "Prev") trailer_dict) as [entry| |];
        binds_in H; try discriminate H.
      destruct (cos.to_int entry) as [at_| |]; binds_in H; try discriminate H.
      destruct (parse_xref_table fuel at_ (file (set_file f2 self)))
        as [[prev_xref f3]| |] eqn:E3; binds_in H; try discriminate H.
      apply parse_xref_table_content in E3. cbn [file set_file] in E3.
      match type of H with
      | context [parse_trailer F fuel ?s] =>
          destruct (parse_trailer F fuel s) as [[t s']| |] eqn:E
      end; binds_in H; try discriminate H.
      injection H as <- <-.
      destruct (IH _ _ _ E) as (Ho & Hb & Ha & Hc & _).
      cbn [objects _by_object_id allocated file set_xref set_file] in *.
      repeat split; try assumption; congruence.
    + injection H as <- <-.
      cbn [objects _by_object_id allocated file _xref set_file].
      repeat split; try assumption; congruence.
Qed.

Lemma parse_trailer_keeps_the_cache_witness :
  let newest := Reader (File two_generations 242) {[5 := 192]} ∅ ∅ 0 in
  exists trailer self',
    parse_trailer [] 300 newest = Ok (trailer, self') /\
    objects self' = ∅ /\ content (file self') = two_generations.
Proof.
  intros newest.
  assert (H : exists trailer self',
            parse_trailer [] 300 newest = Ok (trailer, self'))
    by (eexists _, _; vm_compute; reflexivity).
  destruct H as (trailer & self' & H). exists trailer, self'.
  destruct (parse_trailer_keeps_the_cache [] 300 newest trailer self' H)
    as (Hobjects & _ & _ & Hcontent & _).
  split; [exact H|]. split; [exact Hobjects|exact Hcontent].
Defined.

(** ** Arrays *)

(** What [eat_whitespace] has done when it returns: it never returns at
    the end of the input. *)
Lemma eat_whitespace_inv fuel : forall f f',
  eat_whitespace fuel f = Ok f' ->
  exists ws c rest,
    remaining f = ws ++ c :: rest /\ forallb is_whitespace ws = true /\
    is_whitespace c = false /\ f' = advance (length ws) f.
Proof.
  induction fuel as [|fuel IH]; intros f f' H; [discriminate H|].
  step_in eat_whitespace H.
  destruct (remaining f) as [|x r] eqn:Hrem.
  - rewrite (read_1_eof _ Hrem), bytes_in_nil in H. cbn [negb] in H.
    apply IH in H as (ws & c & rest & Hrem' & _).
    rewrite (remaining_eof_advance 0 f Hrem) in Hrem'.
    now destruct ws.
  - rewrite (read_1_byte _ _ _ Hrem) in H. fold (is_whitespace x) in H.
    destruct (is_whitespace x) eqn:Hx; cbn [negb] in H.
    + apply IH in H as (ws & c & rest & Hrem' & Hws & Hc & ->).
      rewrite (remaining_advance_1 _ _ _ Hrem) in Hrem'. subst r.
      exists (x :: ws), c, rest. cbn [forallb app length].
      rewrite Hx, Hws, advance_advance.
      repeat split; try assumption; try (apply advance_eq; lia).
    + rewrite seek_cur_back in H. injection H as <-.
      exists [], x, r. now repeat split.
Qed.

Lemma read_array_loop_end parser fuel array f ws rest :
  remaining f = ws ++ "]"%byte :: rest ->
  forallb is_whitespace ws = true ->
  (length ws < fuel)%nat ->
  read_array_loop parser (S fuel) array f
    = Ok (array, advance (S (length ws)) f).
Proof.
  intros Hrem Hws Hfuel. step read_array_loop.
  rewrite (eat_whitespace_run ws fuel f _ rest Hrem Hws eq_refl Hfuel). binds.
  apply remaining_advance in Hrem.
  rewrite (read_1_byte _ _ _ Hrem), advance_advance.
  change (bytes_eq ["]"%byte] cos.Array_POSTFIX) with true. cbn iota.
  do 2 f_equal. apply advance_eq. lia.
Qed.

Lemma read_array_loop_next parser fuel array f ws c rest :
  remaining f = ws ++ c :: rest ->
  forallb is_whitespace ws = true ->
  is_whitespace c = false -> c <> "]"%byte ->
  (length ws < fuel)%nat ->
  read_array_loop parser (S fuel) array f =
    '(item, file) ← parser false (advance (length ws) f);
    read_array_loop parser fuel (array ++ [item]) file.
Proof.
  intros Hrem Hws Hc Hclose Hfuel. step read_array_loop.
  rewrite (eat_whitespace_run ws fuel f c rest Hrem Hws Hc Hfuel). binds.
  apply remaining_advance in Hrem.
  rewrite (read_1_byte _ _ _ Hrem).
  change cos.Array_POSTFIX with ["]"%byte]. rewrite bytes_eq_1.
  destruct (Byte.eqb c "]") eqn:E;
    [apply Byte.byte_dec_bl in E; contradiction|].
  rewrite seek_cur_back, advance_0. reflexivity.
Qed.

Lemma read_array_loop_complete parser f items f' :
  array_items parser f items f' ->
  exists fuel0, forall fuel array, (fuel0 <= fuel)%nat ->
    read_array_loop parser fuel array f = Ok (array ++ items, f').
Proof.
  induction 1 as [f ws rest Hrem Hws
                 |f ws c rest item f1 items f2 Hrem Hws Hc Hclose Hitem _
                    [fuel0 IH]].
  - exists (S (S (length ws))). intros fuel array Hfuel.
    destruct fuel as [|fuel]; [lia|]. rewrite app_nil_r.
    apply (read_array_loop_end parser fuel array f ws rest Hrem Hws). lia.
  - exists (S (Nat.max (S (length ws)) fuel0)). intros fuel array Hfuel.
    destruct fuel as [|fuel]; [lia|].
    rewrite (read_array_loop_next parser fuel array f ws c rest Hrem Hws Hc
               Hclose) by lia.
    rewrite Hitem. binds. rewrite IH by lia. now rewrite <- app_assoc.
Qed.

Lemma read_array_loop_sound parser fuel : forall array f array' f',
  read_array_loop parser fuel array f = Ok (array', f') ->
  exists items, array' = array ++ items /\ array_items parser f items f'.
Proof.
  induction fuel as [|fuel IH]; intros array f array' f' H; [discriminate H|].
  step_in read_array_loop H.
  destruct (eat_whitespace fuel f) as [f0| |] eqn:E0; try discriminate H.
  binds_in H.
  apply eat_whitespace_inv in E0 as (ws & c & rest & Hrem & Hws & Hc & ->).
  pose proof (remaining_advance _ _ _ Hrem) as Hrem0.
  rewrite (read_1_byte _ _ _ Hrem0) in H.
  change cos.Array_POSTFIX with ["]"%byte] in H. rewrite bytes_eq_1 in H.
  destruct (Byte.eqb c "]") eqn:E.
  - apply Byte.byte_dec_bl in E. subst c. injection H as <- <-.
    exists []. split; [now rewrite app_nil_r|].
    rewrite advance_advance.
    replace (length ws + 1)%nat with (S (length ws)) by lia.
    now apply (array_items_end parser f ws rest).
  - rewrite seek_cur_back, advance_0 in H. binds_in H.
    destruct (parser false (advance (length ws) f)) as [[item f1]| |] eqn:Hitem;
      try discriminate H.
    binds_in H. apply IH in H as (items & -> & Hitems).
    exists (item :: items). split; [now rewrite <- app_assoc|].
    apply (array_items_next parser f ws c rest item f1 items f' Hrem Hws Hc);
      try assumption.
    intros ->. discriminate E.
Qed.

(** X26.  The items of an array: [read_array] returns an array of the
    items that the parser of one item returns, in the order of the input,
    from the items between runs of whitespace up to the first closing
    bracket at the place of an item, and leaves the cursor after that
    bracket.  Every array that it returns is read in this way, and every
    input of this form is read with enough fuel. *)
Theorem read_array_items parser indirect f :
  (forall items f', array_items parser f items f' ->
     exists fuel0, forall fuel, (fuel0 <= fuel)%nat ->
       read_array parser fuel indirect f = Ok (cos.Array items indirect, f')) /\
  (forall fuel value f',
     read_array parser fuel indirect f = Ok (value, f') ->
     exists items,
       value = cos.Array items indirect /\ array_items parser f items f').
Proof.
  split.
  - intros items f' Hitems.
    destruct (read_array_loop_complete parser f items f' Hitems) as [fuel0 H].
    exists fuel0. intros fuel Hfuel. unfold read_array.
    now rewrite (H fuel [] Hfuel).
  - intros fuel value f' H. unfold read_array in H.
    destruct (read_array_loop parser fuel [] f) as [[array f1]| |] eqn:E;
      try discriminate H.
    binds_in H. injection H as <- <-.
    apply read_array_loop_sound in E as (items & -> & Hitems).
    now exists items.
Qed.

Lemma read_array_items_witness :
  let f := File (b "[7 /N (s)] ") 1 in
  array_items (next_item [] 20) f
    [cos.Integer 7 false; cos.Name (b "N") false; cos.String (b "s") false]
    (File (b "[7 /N (s)] ") 10) /\
  exists fuel0, forall fuel, (fuel0 <= fuel)%nat ->
    read_array (next_item [] 20) fuel true f
      = Ok (cos.Array [cos.Integer 7 false; cos.Name (b "N") false;
                       cos.String (b "s") false] true,
            File (b "[7 /N (s)] ") 10).
Proof.
  intros f.
  assert (Hrun : read_array (next_item [] 20) 20 true f
            = Ok (cos.Array [cos.Integer 7 false; cos.Name (b "N") false;
                             cos.String (b "s") false] true,
                  File (b "[7 /N (s)] ") 10))
    by (vm_compute; reflexivity).
  destruct (proj2 (read_array_items (next_item [] 20) true f) _ _ _ Hrun)
    as (items & Hvalue & Hitems).
  injection Hvalue as <-. split; [exact Hitems|].
  exact (proj1 (read_array_items (next_item [] 20) true f) _ _ Hitems).
Defined.

(** ** Dictionaries and streams *)




(** X28.  One turn of the loop over the entries of a dictionary.  At
    [>>] the loop ends with the cursor after it.  At a [/] the name that
    follows is the key, and the item that the parser reads after it is
    stored under that key.  The loop does not look at the token at the
    place of a key: after a token of regular characters it reads the key
    from the delimiter or whitespace character that ends the token, so
    the key is the empty name and the token is dropped. *)
Theorem read_dictionary_loop_turn parser fuel dictionary f ws :
  forallb is_whitespace ws = true ->
  (length ws < fuel)%nat ->
  (forall rest,
     remaining f = ws ++ b ">>" ++ rest ->
     read_dictionary_loop parser (S fuel) dictionary f
       = Ok (dictionary, advance (length ws + 2) f)) /\
  (forall key d rest,
     remaining f = ws ++ "/"%byte :: key ++ d :: rest ->
     forallb is_name_char key = true ->
     is_delimiter_or_whitespace d = true ->
     (length key < fuel)%nat ->
     read_dictionary_loop parser (S fuel) dictionary f =
       '(value, file) ← parser false (advance (length ws + 1 + length key) f);
       read_dictionary_loop parser fuel (cos.setitem key value dictionary) file) /\
  (forall c run d rest,
     remaining f = ws ++ c :: run ++ d :: rest ->
     forallb (fun c => negb (is_delimiter_or_whitespace c)) (c :: run) = true ->
     is_delimiter_or_whitespace d = true ->
     (length run < fuel)%nat ->
     read_dictionary_loop parser (S fuel) dictionary f =
       '(value, file) ← parser false (advance (length ws + 1 + length run) f);
       read_dictionary_loop parser fuel (cos.setitem [] value dictionary) file).
Proof.
  intros Hws Hfuel. split; [|split].
  - intros rest Hrem. step read_dictionary_loop.
    change (b ">>") with [">"%byte; ">"%byte] in Hrem. cbn [app] in Hrem.
    rewrite (eat_whitespace_run ws fuel f _ _ Hrem Hws eq_refl Hfuel). binds.
    apply remaining_advance in Hrem.
    unfold next_token. rewrite (read_1_byte _ _ _ Hrem).
    change (tuple_in [">"%byte] [cos.HexString_PREFIX; cos.HexString_POSTFIX])
      with true.
    cbn iota. apply remaining_advance_1 in Hrem.
    rewrite (read_1_byte _ _ _ Hrem).
    change (bytes_eq [">"%byte] [">"%byte]) with true. cbn iota. binds.
    change (bytes_eq ([">"%byte] ++ [">"%byte]) cos.Dictionary_POSTFIX)
      with true.
    cbn iota. rewrite !advance_advance.
    do 2 f_equal; try (apply advance_eq; lia).
  - intros key d rest Hrem Hkey Hd Hkey_fuel. step read_dictionary_loop.
    rewrite (eat_whitespace_run ws fuel f _ _ Hrem Hws eq_refl Hfuel). binds.
    apply remaining_advance in Hrem.
    rewrite (next_token_single fuel _ _ _ Hrem eq_refl)
      by discriminate.
    binds. change (bytes_eq ["/"%byte] cos.Dictionary_POSTFIX) with false.
    cbn iota. apply remaining_advance_1 in Hrem.
    replace fuel with (length key + S (fuel - length key - 1))%nat at 1 by lia.
    rewrite (read_name_loop_run key _ [] _ _ Hrem Hkey).
    apply remaining_advance in Hrem.
    rewrite (read_name_loop_end _ _ _ d rest Hrem Hd). binds.
    rewrite !advance_advance. cbn [app].
    replace (length ws + (1 + length key))%nat
      with (length ws + 1 + length key)%nat by lia.
    reflexivity.
  - intros c run d rest Hrem Hrun Hd Hrun_fuel. step read_dictionary_loop.
    assert (Hc : is_whitespace c = false).
    { cbn [forallb] in Hrun. apply andb_prop in Hrun as [Hc _].
      apply negb_true_iff in Hc. revert Hc. clear.
      destruct c; intros H; try reflexivity; discriminate H. }
    rewrite (eat_whitespace_run ws fuel f c _ Hrem Hws Hc Hfuel). binds.
    apply remaining_advance in Hrem.
    rewrite (next_token_regular fuel _ c run (d :: rest) Hrem Hrun Hd Hrun_fuel).
    binds. cbn [unread]. rewrite Nat.sub_0_r, advance_advance.
    assert (Hend : bytes_eq (c :: run) cos.Dictionary_POSTFIX = false).
    { cbn [forallb] in Hrun. apply andb_prop in Hrun as [Hc' _].
      apply negb_true_iff in Hc'. revert Hc'. clear.
      destruct c; intros H; try reflexivity; discriminate H. }
    rewrite Hend.
    apply (remaining_advance (c :: run)) in Hrem. cbn [length] in Hrem.
    rewrite advance_advance in Hrem.
    destruct fuel as [|fuel']; [lia|].
    rewrite (read_name_loop_end _ _ _ d rest Hrem Hd). binds.
    replace (length ws + S (length run))%nat
      with (length ws + 1 + length run)%nat by lia.
    reflexivity.
Qed.

Lemma read_dictionary_loop_turn_witness :
  read_dictionary_loop (next_item [] 20) 20 [(b "A", cos.Null false)]
      (File (b "<< >> ") 2)
    = Ok ([(b "A", cos.Null false)], File (b "<< >> ") 5) /\
  read_dictionary_loop (next_item [] 20) 20 [] (File (b "<</Size 7>>") 2)
    = Ok ([(b "Size", cos.Integer 7 false)], File (b "<</Size 7>>") 11) /\
  read_dictionary_loop (next_item [] 20) 20 [] (File (b "<<Size 7>>") 2)
    = Ok ([([], cos.Integer 7 false)], File (b "<<Size 7>>") 10).
Proof.
  split; [|split].
  - exact (proj1 (read_dictionary_loop_turn (next_item [] 20) 19
                    [(b "A", cos.Null false)] (File (b "<< >> ") 2) (b " ")
                    eq_refl ltac:(vm_compute; lia))
             (b " ") eq_refl).
  - refine (eq_trans
              (proj1 (proj2 (read_dictionary_loop_turn (next_item [] 20) 19 []
                               (File (b "<</Size 7>>") 2) []
                               eq_refl ltac:(vm_compute; lia)))
                 (b "Size") " "%byte (b "7>>") eq_refl eq_refl eq_refl
                 ltac:(vm_compute; lia)) _).
    vm_compute. reflexivity.
  - refine (eq_trans
              (proj2 (proj2 (read_dictionary_loop_turn (next_item [] 20) 19 []
                               (File (b "<<Size 7>>") 2) []
                               eq_refl ltac:(vm_compute; lia)))
                 "S"%byte (b "ize") " "%byte (b "7>>") eq_refl eq_refl eq_refl
                 ltac:(vm_compute; lia)) _).
    vm_compute. reflexivity.
Defined.
